(** * Flight-Planner: a shallow embedding of the mission-planning core

    The development follows the TypeScript sources:
    - [generateFlightPlan]  (services/flightPlanner: footprint, sweep, waypoints, headings)
    - [getElevations]       (services/elevationService: batched elevation lookup)
    - the three [App] effects: mission statistics, waypoint filter, terrain merge.
    - the [App] handlers: plan generation, terrain fetch, shapefile import,
      downloads and clearing, with the effects run after each.

    Numbers.  A JavaScript [number] is modelled as a rational ([Q]);
    [NaN] and the infinities are outside the model.  The geometry of the
    planner ([+], [*], [/], comparisons) is followed in the exact
    arithmetic of [Q].  Where the program renders a number with
    [toFixed] - the statistics and the terrain merge - the digits depend
    on the binary64 value, so there every operation rounds its exact
    result to binary64 ([b64]).

    Geometry.  The program delegates all spherical and planar geometry to
    the turf library.  Its operations are the fields of the class [Turf];
    every definition of the planner is parametric in them, and what a
    theorem needs from the library is stated as a hypothesis. *)

From Stdlib Require Import QArith Qpower Qround Qabs Lqa Ascii String DecimalString.
From stdpp Require Import list sorting.
From Equations Require Import Equations.

Set Default Proof Using "Type".

(* ===================================================================== *)
(** * JavaScript numbers and control outcomes                             *)
(* ===================================================================== *)

(** [a < b] on numbers, as a boolean. *)
Definition Qltb (a b : Q) : bool := negb (Qle_bool b a).

(** ** binary64

    A finite binary64 number is [m * 2^e] for integers [|m| < 2^53] and
    [-1074 <= e]; the operations of the language give the number of this
    form nearest to the exact result, the one with an even [m] of two.
    (Results of magnitude 2^1024 and more are infinite in the language;
    they do not occur for the quantities of a mission.) *)

Definition pow2 (k : Z) : Q := (2 ^ k)%Q.

(** The integer nearest to [y], the even one of two. *)
Definition roundHalfEven (y : Q) : Z :=
  let f := Qfloor y in
  match (y - inject_Z f ?= 1 # 2)%Q with
  | Lt => f
  | Gt => (f + 1)%Z
  | Eq => if Z.even f then f else (f + 1)%Z
  end.

(** The integer part of the binary logarithm of a positive [a]: for
    [a = p / q] it is [log2 p - log2 q] or one less. *)
Definition ilog2 (a : Q) : Z :=
  let k := (Z.log2 (Qnum a) - Z.log2 (Zpos (Qden a)))%Z in
  if Qle_bool (pow2 k) a then k else (k - 1)%Z.

(** Rounding to binary64: 53 significant bits, the exponent not below
    that of the subnormal numbers. *)
Definition b64 (x : Q) : Q :=
  if Qeq_bool x 0 then 0%Q
  else
    let a := Qabs x in
    let e := Z.max (ilog2 a - 52) (-1074) in
    let r := Qred (inject_Z (roundHalfEven (a / pow2 e)) * pow2 e) in
    if Qltb x 0 then (- r)%Q else r.

(** [x + y], [x * y] and [x / y] on binary64 numbers. *)
Definition fadd (x y : Q) : Q := b64 (x + y).
Definition fmul (x y : Q) : Q := b64 (x * y).
Definition fdiv (x y : Q) : Q := b64 (x / y).

(** The outcome of running a piece of the program: it returns, it throws
    [new Error(msg)], or the model's loop budget is exhausted. *)
Inductive Outcome (A : Type) : Type :=
| Returned (a : A)
| Threw (msg : string)
| OutOfFuel.
Arguments Returned {A} a.
Arguments Threw {A} msg.
Arguments OutOfFuel {A}.

Definition obind {A B} (m : Outcome A) (k : A -> Outcome B) : Outcome B :=
  match m with
  | Returned a => k a
  | Threw e => Threw e
  | OutOfFuel => OutOfFuel
  end.

Notation "'let!' x ':=' m 'in' k" := (obind m (fun x => k))
  (at level 10, x name, m at level 100, k at level 200).

(** [for each (x, index)] with a body that may throw: left to right. *)
Fixpoint oforEach {A B} (f : nat -> A -> Outcome B) (i : nat) (l : list A)
  : Outcome (list B) :=
  match l with
  | [] => Returned []
  | x :: r =>
      let! y := f i x in
      let! ys := oforEach f (S i) r in
      Returned (y :: ys)
  end.

(* ===================================================================== *)
(** * types.ts                                                            *)
(* ===================================================================== *)

Record CameraParams := {
  sensorWidth : Q;
  sensorHeight : Q;
  focalLength : Q;
  imageWidth : Q;
  imageHeight : Q }.

Inductive AltitudeMode := relative | agl.

Record FlightParams := {
  fp_altitude : Q;
  frontOverlap : Q;
  sideOverlap : Q;
  fp_speed : Q;
  fp_gimbalPitch : Q;
  flightDirection : Q;
  altitudeMode : AltitudeMode }.

Record Waypoint := {
  lat : Q;
  lng : Q;
  altitude : Q;
  heading : Q;
  gimbalPitch : Q;
  speed : Q }.

Record FilterParams := {
  enabled : bool;
  keepStart : nat;
  keepEnd : nat }.

Record Stats := {
  totalWaypoints : nat;
  flightLines : nat;
  flightTime : string;
  totalDistance : string;
  photoCount : nat;
  dataVolume : string }.

(* ===================================================================== *)
(** * The geometry library                                                *)
(* ===================================================================== *)

(** A GeoJSON position [[x, y]] = [[lng, lat]]. *)
Definition Position : Type := Q * Q.
(** A two-point [LineString]. *)
Definition Segment : Type := Position * Position.
(** [[minX, minY, maxX, maxY]]. *)
Definition BBox : Type := Q * Q * Q * Q.
(** The coordinates of a GeoJSON polygon: a list of rings. *)
Definition PolygonCoords : Type := list (list Position).

Class Turf := {
  (** [Polygon | MultiPolygon] *)
  Geometry : Type;
  centerOfMass : Geometry -> Position;
  (** [turf.transformRotate(feature, angle, {pivot})] on the survey region *)
  transformRotate : Geometry -> Q -> Position -> Geometry;
  (** [turf.transformRotate(point, angle, {pivot})] *)
  rotatePoint : Position -> Q -> Position -> Position;
  bbox : Geometry -> BBox;
  lineIntersect : Segment -> Geometry -> list Position;
  (** [turf.lengthToDegrees(d, 'meters')] *)
  lengthToDegrees : Q -> Q;
  (** [turf.length(line, {units: 'meters'})] *)
  lineLength : Segment -> Q;
  (** [turf.along(line, d, {units: 'meters'})] *)
  along : Segment -> Q -> Position;
  (** [turf.distance(a, b, {units: 'meters'})] *)
  distance : Position -> Position -> Q;
  bearing : Position -> Position -> Q;
  (** [turf.destination(origin, d, bearing, {units: 'meters'})] *)
  destination : Position -> Q -> Q -> Position }.

(* ===================================================================== *)
(** * services/flightPlanner: generateFlightPlan                          *)
(* ===================================================================== *)

Record FlightPlanResult := {
  waypoints : list (list Waypoint);
  footprints : list PolygonCoords }.

Definition InvalidParameters : string :=
  "Overlap values must be less than 100%.".
Definition NoCoverage : string :=
  "Could not generate waypoints. The survey area may be too small for the given parameters.".
(** What turf raises when it is handed [undefined] for a coordinate. *)
Definition CoordRequired : string := "coord is required".

(** The position of a waypoint, [[wp.lng, wp.lat]]. *)
Definition pointOf (wp : Waypoint) : Position := (lng wp, lat wp).

(** ** 1-2. Footprint and spacings *)

(** A focal length or an image width of zero makes the quotient infinite
    or [NaN] in the program, where the quotient of [Q] is zero: the model
    speaks for divisors that are not zero. *)
Definition gsd (f : FlightParams) (c : CameraParams) : Q :=
  (fp_altitude f * sensorWidth c) / (focalLength c * imageWidth c).
Definition footprintWidth (f : FlightParams) (c : CameraParams) : Q :=
  gsd f c * imageWidth c.
Definition footprintHeight (f : FlightParams) (c : CameraParams) : Q :=
  gsd f c * imageHeight c.
Definition distanceAlongTrack (f : FlightParams) (c : CameraParams) : Q :=
  footprintHeight f c * (1 - frontOverlap f / 100).
Definition distanceSideTrack (f : FlightParams) (c : CameraParams) : Q :=
  footprintWidth f c * (1 - sideOverlap f / 100).

(** ** 5. The sweep *)

(** [coords.sort((a, b) => a[0] - b[0])]: ascending X, equal X keep their
    order (the sort of an array is stable). *)
Fixpoint insertByX (p : Position) (l : list Position) : list Position :=
  match l with
  | [] => [p]
  | q :: r => if Qltb (fst q) (fst p) then q :: insertByX p r else p :: q :: r
  end.
Definition sortByX (coords : list Position) : list Position :=
  foldr insertByX [] coords.

(** [for (let i = 0; i < coords.length; i += 2)
       if (coords[i+1]) flightLines.push(lineString([coords[i], coords[i+1]]))] *)
Equations? pairLoop (coords : list Position) (i : nat) (flightLines : list Segment)
  : list Segment by wf (length coords - i) lt :=
  pairLoop coords i flightLines with decide (i < length coords) => {
    | left _ with coords !! i, coords !! (i + 1) => {
        | Some a, Some b := pairLoop coords (i + 2) (flightLines ++ [(a, b)]);
        | _, _ := pairLoop coords (i + 2) flightLines };
    | right _ := flightLines }.
Proof. all: lia. Qed.

Section Planner.
Context `{Turf}.

(** The body of the [while]: one sweep row at height [currentY]. *)
Definition sweepRow (rotatedFeature : Geometry) (minX maxX currentY : Q)
    (flightLines : list Segment) : list Segment :=
  let startPoint := (minX, currentY) in
  let endPoint := (maxX, currentY) in
  let intersection := lineIntersect (startPoint, endPoint) rotatedFeature in
  if decide (0 < length intersection) then
    let coords := intersection in
    if decide (1 < length coords) then pairLoop (sortByX coords) 0 flightLines
    else flightLines
  else flightLines.

(** [while (currentY <= maxY) { ...; currentY += step }] *)
Fixpoint sweepLoop (fuel : nat) (rotatedFeature : Geometry) (minX maxX maxY step : Q)
    (currentY : Q) (flightLines : list Segment) : option (list Segment) :=
  if Qle_bool currentY maxY then
    match fuel with
    | O => None
    | S fuel' =>
        sweepLoop fuel' rotatedFeature minX maxX maxY step
          (currentY + step)%Q (sweepRow rotatedFeature minX maxX currentY flightLines)
    end
  else Some flightLines.

(** Steps 3-5 of [generateFlightPlan]: the flight-line backbones, in
    rotated space. *)
Definition coveragePath (fuel : nat) (geometry : Geometry) (bearing_ : Q)
    (distanceSideTrack_ : Q) : option (list Segment) :=
  let center := centerOfMass geometry in
  let rotatedFeature := transformRotate geometry (- bearing_) center in
  let '(minX, minY, maxX, maxY) := bbox rotatedFeature in
  sweepLoop fuel rotatedFeature minX maxX maxY
    (lengthToDegrees distanceSideTrack_) minY [].

(** ** 6. Waypoints along a flight line *)

(** [for (let d = 0; d <= lineLength; d += distanceAlongTrack)
       waypointsOnLine.push(turf.along(line, d))] *)
Fixpoint alongLoop (fuel : nat) (line : Segment) (len dAT : Q)
    (d : Q) (waypointsOnLine : list Position) : option (list Position) :=
  if Qle_bool d len then
    match fuel with
    | O => None
    | S fuel' =>
        alongLoop fuel' line len dAT (d + dAT)%Q (waypointsOnLine ++ [along line d])
    end
  else Some waypointsOnLine.

(** The endpoint is pushed when the last stepped point is more than one
    meter away from it. *)
Definition ensureEndpoint (line : Segment) (len : Q) (waypointsOnLine : list Position)
  : Outcome (list Position) :=
  if Qltb 0 len then
    match last waypointsOnLine with
    | Some p =>
        if Qltb 1 (distance p (snd line))
        then Returned (waypointsOnLine ++ [snd line])
        else Returned waypointsOnLine
    | None => Threw CoordRequired
    end
  else Returned waypointsOnLine.

(** The callback of [flightLines.forEach((line, index) => ...)]; its
    result is the array pushed on [waypointsByLine]. *)
Definition lineWaypoints (fuel : nat) (dAT : Q) (index : nat) (line : Segment)
  : Outcome (list Position) :=
  let len := lineLength line in
  match alongLoop fuel line len dAT 0 [] with
  | None => OutOfFuel
  | Some stepped =>
      let! waypointsOnLine := ensureEndpoint line len stepped in
      Returned (if decide (index mod 2 ≠ 0) then reverse waypointsOnLine
                else waypointsOnLine)
  end.

(** ** 8. Headings, footprints, formatted waypoints *)

(** [finalWaypoints[i + 1] || finalWaypoints[i-1] || wp] *)
Definition nextWaypoint (finalWaypoints : list Position) (i : nat) (wp : Position)
  : Position :=
  match finalWaypoints !! (i + 1) with
  | Some n => n
  | None =>
      match i with
      | S j => default wp (finalWaypoints !! j)
      | O => wp
      end
  end.

Definition footprintPoly (f : FlightParams) (c : CameraParams)
    (coords : Position) (heading_ : Q) : PolygonCoords :=
  let halfAlongTrackM := (footprintHeight f c / 2)%Q in
  let halfAcrossTrackM := (footprintWidth f c / 2)%Q in
  let forwardCenter := destination coords halfAlongTrackM heading_ in
  let backwardCenter := destination coords halfAlongTrackM (heading_ - 180)%Q in
  let tl := destination forwardCenter halfAcrossTrackM (heading_ - 90)%Q in
  let tr := destination forwardCenter halfAcrossTrackM (heading_ + 90)%Q in
  let br := destination backwardCenter halfAcrossTrackM (heading_ + 90)%Q in
  let bl := destination backwardCenter halfAcrossTrackM (heading_ - 90)%Q in
  [[tl; tr; br; bl; tl]].

(** [heading < 0 ? heading + 360 : heading] *)
Definition normalizeHeading (heading_ : Q) : Q :=
  if Qltb heading_ 0 then (heading_ + 360)%Q else heading_.

(** The callback of [finalWaypoints.map((wp, i) => ...)]: the footprint
    it pushes on [footprintPolygons] and the waypoint it returns. *)
Definition formatWaypoint (f : FlightParams) (c : CameraParams)
    (finalWaypoints : list Position) (i : nat) (wp : Position)
  : PolygonCoords * Waypoint :=
  let nextWp := nextWaypoint finalWaypoints i wp in
  let heading_ := bearing wp nextWp in
  let coords := wp in
  (footprintPoly f c coords heading_,
   {| lat := snd coords;
      lng := fst coords;
      altitude := fp_altitude f;
      heading := normalizeHeading heading_;
      gimbalPitch := fp_gimbalPitch f;
      speed := fp_speed f |}).

(** "Re-structure formatted waypoints into lines":
    [formattedWaypoints.slice(currentIndex, currentIndex + line.length)]. *)
Fixpoint restructure {A} (formattedWaypoints : list Waypoint) (currentIndex : nat)
    (waypointsByLine : list (list A)) : list (list Waypoint) :=
  match waypointsByLine with
  | [] => []
  | line :: rest =>
      take (length line) (drop currentIndex formattedWaypoints)
        :: restructure formattedWaypoints (currentIndex + length line) rest
  end.

Definition generateFlightPlan (fuel : nat) (geometry : Geometry)
    (flightParams : FlightParams) (cameraParams : CameraParams)
  : Outcome FlightPlanResult :=
  let dAT := distanceAlongTrack flightParams cameraParams in
  let dST := distanceSideTrack flightParams cameraParams in
  if Qle_bool dST 0 || Qle_bool dAT 0 then Threw InvalidParameters
  else
    let bearing_ := flightDirection flightParams in
    let center := centerOfMass geometry in
    match coveragePath fuel geometry bearing_ dST with
    | None => OutOfFuel
    | Some flightLines_ =>
        let! waypointsByLine := oforEach (lineWaypoints fuel dAT) 0 flightLines_ in
        let allWaypoints := concat waypointsByLine in
        let finalWaypoints :=
          (fun wp => rotatePoint wp bearing_ center) <$> allWaypoints in
        if decide (length finalWaypoints = 0) then Threw NoCoverage
        else
          let formatted :=
            imap (formatWaypoint flightParams cameraParams finalWaypoints)
              finalWaypoints in
          Returned {| waypoints := restructure (snd <$> formatted) 0 waypointsByLine;
                      footprints := fst <$> formatted |}
    end.

End Planner.

(* ===================================================================== *)
(** * services/elevationService: getElevations                            *)
(* ===================================================================== *)

Definition BATCH_SIZE : nat := 50.

(** The parsed body of a response: [data.elevation] is absent (or falsy),
    or it is an array of [number | null]. *)
Inductive ElevationResponse :=
| NoElevation
| Elevation (elevation : list (option Q)).

(** What one [fetch] of a batch can do: the request itself rejects (a
    network error); the response is not [ok], and reading its text may
    reject too; the response is [ok] but [response.json()] rejects; or a
    body is delivered. *)
Inductive FetchResult :=
| FetchRejects
| NotOk (textRejects : bool)
| JsonRejects
| Json (data : ElevationResponse).

(** The elevation service, as seen by the program: the answer to the
    request issued for the batch starting at a given index. *)
Definition Server : Type := nat -> list Waypoint -> FetchResult.

(** [array.slice(from, to)] for [0 <= from]. *)
Definition slice {A} (l : list A) (from to : nat) : list A :=
  take (to - from) (drop from l).

(** [data.elevation.forEach((elevation, index) =>
       allElevations[i + index] = elevation)].
    An assignment past the end would grow a JavaScript array, where the
    list update does nothing; [storeBatch_length_ok] shows that every
    index written here is inside the array. *)
Fixpoint storeBatch (originalIndex : nat) (elevation : list (option Q))
    (allElevations : list (option Q)) : list (option Q) :=
  match elevation with
  | [] => allElevations
  | e :: rest => storeBatch (S originalIndex) rest (<[originalIndex := e]> allElevations)
  end.

(** The body of the [try] block; [Returned] also stands for [continue]. *)
Definition tryBatch (response : FetchResult) (i : nat) (batch : list Waypoint)
    (allElevations : list (option Q)) : Outcome (list (option Q)) :=
  match response with
  | FetchRejects => Threw "Failed to fetch"
  | NotOk textRejects =>
      if textRejects then Threw "body stream error" else Returned allElevations
  | JsonRejects => Threw "Unexpected token"
  | Json NoElevation => Returned allElevations
  | Json (Elevation elevation) =>
      if decide (length elevation ≠ length batch) then Returned allElevations
      else Returned (storeBatch i elevation allElevations)
  end.

(** [try { ... } catch (error) { console.error(...) }] *)
Definition catchBatch (body : Outcome (list (option Q)))
    (allElevations : list (option Q)) : Outcome (list (option Q)) :=
  match body with
  | Threw _ => Returned allElevations
  | other => other
  end.

(** [for (let i = 0; i < waypoints.length; i += BATCH_SIZE)] *)
Equations? batchLoop (server : Server) (waypoints : list Waypoint) (i : nat)
    (allElevations : list (option Q)) : Outcome (list (option Q))
    by wf (length waypoints - i) lt :=
  batchLoop server waypoints i allElevations with decide (i < length waypoints) => {
    | left _ :=
        let batch := slice waypoints i (i + BATCH_SIZE) in
        let! allElevations' :=
          catchBatch (tryBatch (server i batch) i batch allElevations) allElevations in
        batchLoop server waypoints (i + BATCH_SIZE) allElevations';
    | right _ := Returned allElevations }.
Proof. unfold BATCH_SIZE. lia. Qed.

Definition getElevations (server : Server) (waypoints : list Waypoint)
  : Outcome (list (option Q)) :=
  if decide (length waypoints = 0) then Returned []
  else batchLoop server waypoints 0 (replicate (length waypoints) None).

(* ===================================================================== *)
(** * Number formatting                                                   *)
(* ===================================================================== *)

(** [n.toString()] for an integer. *)
Definition toStringZ (n : Z) : string := NilZero.string_of_int (Z.to_int n).

Fixpoint zeros (n : nat) : string :=
  match n with
  | O => EmptyString
  | S k => String "0"%char (zeros k)
  end.

(** [s.padStart(width, '0')] *)
Definition padStart0 (width : nat) (s : string) : string :=
  (zeros (width - String.length s) ++ s)%string.

(** [Number.prototype.toFixed(2)], following the language definition: with
    [x] replaced by [-x] when negative, [n] is the integer for which
    [n / 100 - x] is closest to zero, the larger one on a tie; its digits
    are padded to three and the point is put before the last two.  [x] is
    the exact value of the binary64 number the method is called on.  (From
    1e21 on the language switches to exponent notation; the statistics and
    altitudes of a mission are far below that.) *)
Definition toFixedN (x : Q) : Z := Qfloor (Qabs x * 100 + (1 # 2))%Q.

Definition toFixed2 (x : Q) : string :=
  let m := padStart0 3 (toStringZ (toFixedN x)) in
  let k := String.length m in
  ((if Qltb x 0 then "-" else "")
     ++ substring 0 (k - 2) m ++ "." ++ substring (k - 2) 2 m)%string.

(** The decimal number that the string [x.toFixed(2)] denotes. *)
Definition toFixed2Value (x : Q) : Q :=
  if Qltb x 0 then (- (inject_Z (toFixedN x) / 100))%Q
  else (inject_Z (toFixedN x) / 100)%Q.

(** [Number(x.toFixed(2))]: the binary64 number nearest to it. *)
Definition roundTo2 (x : Q) : Q := b64 (toFixed2Value x).

(** [a % b] on numbers: the remainder has the sign of the dividend.  The
    remainder of two binary64 numbers is a binary64 number: nothing is
    rounded. *)
Definition Qtruncate (x : Q) : Z := if Qltb x 0 then Qceiling x else Qfloor x.
Definition jsRem (a b : Q) : Q := (a - b * inject_Z (Qtruncate (a / b)))%Q.

(* ===================================================================== *)
(** * App: statistics, filter, terrain merge                              *)
(* ===================================================================== *)

(** The part of the component state the three effects read and write. *)
Record AppState := {
  st_flightParams : FlightParams;
  st_cameraParams : CameraParams;
  st_filterParams : FilterParams;
  st_waypoints : list Waypoint;
  st_footprints : option (list PolygonCoords);
  st_originalWaypoints : list (list Waypoint);
  st_originalFootprints : option (list PolygonCoords);
  st_stats : option Stats;
  st_error : option string }.

Definition setStats (s : option Stats) (st : AppState) : AppState :=
  {| st_flightParams := st_flightParams st; st_cameraParams := st_cameraParams st;
     st_filterParams := st_filterParams st; st_waypoints := st_waypoints st;
     st_footprints := st_footprints st;
     st_originalWaypoints := st_originalWaypoints st;
     st_originalFootprints := st_originalFootprints st;
     st_stats := s; st_error := st_error st |}.

Definition setWaypoints (w : list Waypoint) (st : AppState) : AppState :=
  {| st_flightParams := st_flightParams st; st_cameraParams := st_cameraParams st;
     st_filterParams := st_filterParams st; st_waypoints := w;
     st_footprints := st_footprints st;
     st_originalWaypoints := st_originalWaypoints st;
     st_originalFootprints := st_originalFootprints st;
     st_stats := st_stats st; st_error := st_error st |}.

Definition setFootprints (f : option (list PolygonCoords)) (st : AppState) : AppState :=
  {| st_flightParams := st_flightParams st; st_cameraParams := st_cameraParams st;
     st_filterParams := st_filterParams st; st_waypoints := st_waypoints st;
     st_footprints := f;
     st_originalWaypoints := st_originalWaypoints st;
     st_originalFootprints := st_originalFootprints st;
     st_stats := st_stats st; st_error := st_error st |}.

Definition setOriginalWaypoints (w : list (list Waypoint)) (st : AppState) : AppState :=
  {| st_flightParams := st_flightParams st; st_cameraParams := st_cameraParams st;
     st_filterParams := st_filterParams st; st_waypoints := st_waypoints st;
     st_footprints := st_footprints st;
     st_originalWaypoints := w;
     st_originalFootprints := st_originalFootprints st;
     st_stats := st_stats st; st_error := st_error st |}.

Definition setError (e : option string) (st : AppState) : AppState :=
  {| st_flightParams := st_flightParams st; st_cameraParams := st_cameraParams st;
     st_filterParams := st_filterParams st; st_waypoints := st_waypoints st;
     st_footprints := st_footprints st;
     st_originalWaypoints := st_originalWaypoints st;
     st_originalFootprints := st_originalFootprints st;
     st_stats := st_stats st; st_error := e |}.

(** ** Effect to calculate mission statistics *)

Section Statistics.
Context `{Turf}.

(** [for (let i = 0; i < waypoints.length - 1; i++)
       totalDistance += turf.distance(from, to, { units: 'meters' })] *)
Definition sumDistances (wps : list Waypoint) : Q :=
  if decide (1 < length wps) then
    foldl (fun total i =>
             match wps !! i, wps !! (i + 1) with
             | Some a, Some b => fadd total (distance (pointOf a) (pointOf b))
             | _, _ => total
             end)
          0%Q (seq 0 (length wps - 1))
  else 0%Q.

(** [flightTimeSeconds / 60] is rounded to binary64 before it is
    floored; the remainder [flightTimeSeconds % 60] of two binary64
    numbers is exact. *)
Definition formatFlightTime (flightTimeSeconds : Q) : string :=
  let minutes := Qfloor (fdiv flightTimeSeconds 60) in
  let seconds := Qfloor (jsRem flightTimeSeconds 60) in
  (padStart0 2 (toStringZ minutes) ++ ":" ++ padStart0 2 (toStringZ seconds))%string.

(** The body of the effect.  (A speed of zero makes the flight time
    infinite or [NaN] in the program; the model speaks for speeds that
    are not zero.) *)
Definition computeStats (wps : list Waypoint) (originalWaypoints : list (list Waypoint))
    (speed_ : Q) (c : CameraParams) : option Stats :=
  if bool_decide (length wps = 0) || bool_decide (length originalWaypoints = 0) then None
  else
    let totalDistance_ := sumDistances wps in
    let flightTimeSeconds := fdiv totalDistance_ speed_ in
    let photoCount_ := length wps in
    let totalPixels :=
      fmul (fmul (inject_Z (Z.of_nat photoCount_)) (imageWidth c)) (imageHeight c) in
    Some {| totalWaypoints := length wps;
            flightLines := length originalWaypoints;
            flightTime := formatFlightTime flightTimeSeconds;
            totalDistance := toFixed2 (fdiv totalDistance_ 1000);
            photoCount := photoCount_;
            dataVolume := toFixed2 (fdiv totalPixels 1000000000) |}.

Definition statsEffect (st : AppState) : AppState :=
  setStats (computeStats (st_waypoints st) (st_originalWaypoints st)
              (fp_speed (st_flightParams st)) (st_cameraParams st)) st.

End Statistics.

(** ** Effect to apply filtering *)

(** [for (let i = 0; i < count; i++)
       if (features[start + i]) out.push(features[start + i])] *)
Definition pushFeatures (features : list PolygonCoords) (start count : nat)
    (out : list PolygonCoords) : list PolygonCoords :=
  foldl (fun out i =>
           match features !! (start + i) with
           | Some f => out ++ [f]
           | None => out
           end)
        out (seq 0 count).

(** The callback of [originalWaypoints.forEach(line => ...)], on the three
    variables it updates. *)
Definition filterLine (p : FilterParams) (features : list PolygonCoords)
    (acc : list Waypoint * list PolygonCoords * nat) (line : list Waypoint)
  : list Waypoint * list PolygonCoords * nat :=
  let '(newFilteredWaypoints, newFilteredFootprints, flatWaypointIndex) := acc in
  let lineLength_ := length line in
  if decide (lineLength_ ≤ keepStart p + keepEnd p) then
    (newFilteredWaypoints ++ line,
     pushFeatures features flatWaypointIndex lineLength_ newFilteredFootprints,
     flatWaypointIndex + lineLength_)
  else
    let startWps := slice line 0 (keepStart p) in
    let endWps := drop (lineLength_ - keepEnd p) line in
    (newFilteredWaypoints ++ startWps ++ endWps,
     pushFeatures features (flatWaypointIndex + (lineLength_ - keepEnd p)) (keepEnd p)
       (pushFeatures features flatWaypointIndex (keepStart p) newFilteredFootprints),
     flatWaypointIndex + lineLength_).

Definition filterEffect (st : AppState) : AppState :=
  match st_originalWaypoints st, st_originalFootprints st with
  | [], _ | _, None => setFootprints None (setWaypoints [] st)
  | _ :: _, Some features =>
      if negb (enabled (st_filterParams st)) then
        setFootprints (st_originalFootprints st)
          (setWaypoints (concat (st_originalWaypoints st)) st)
      else
        let '(newFilteredWaypoints, newFilteredFootprints, _) :=
          foldl (filterLine (st_filterParams st) features) ([], [], 0)
            (st_originalWaypoints st) in
        setFootprints (Some newFilteredFootprints) (setWaypoints newFilteredWaypoints st)
  end.

(** ** handleFetchTerrainData *)

(** The callback of [line.map(wp => ...)], with the counter it increments.
    [None] stands for an altitude outside the number model: an index past
    the end of [elevations] reads [undefined], which is not [null], and
    [undefined + altitude] is [NaN]. *)
Definition mergeWaypoint (altitude_ : Q) (elevations : list (option Q))
    (waypointIndex : nat) (wp : Waypoint) : option Waypoint * nat :=
  let elevation := elevations !! waypointIndex in
  let waypointIndex' := S waypointIndex in
  match elevation with
  | Some None => (Some wp, waypointIndex')
  | Some (Some e) =>
      (Some {| lat := lat wp; lng := lng wp;
               altitude := roundTo2 (fadd e altitude_);
               heading := heading wp; gimbalPitch := gimbalPitch wp;
               speed := speed wp |}, waypointIndex')
  | None => (None, waypointIndex')
  end.

Fixpoint mergeLine (altitude_ : Q) (elevations : list (option Q))
    (waypointIndex : nat) (line : list Waypoint) : option (list Waypoint) * nat :=
  match line with
  | [] => (Some [], waypointIndex)
  | wp :: rest =>
      let '(wp', k) := mergeWaypoint altitude_ elevations waypointIndex wp in
      let '(rest', k') := mergeLine altitude_ elevations k rest in
      (match wp', rest' with Some w, Some r => Some (w :: r) | _, _ => None end, k')
  end.

Fixpoint mergeLines (altitude_ : Q) (elevations : list (option Q))
    (waypointIndex : nat) (lines : list (list Waypoint))
  : option (list (list Waypoint)) * nat :=
  match lines with
  | [] => (Some [], waypointIndex)
  | line :: rest =>
      let '(line', k) := mergeLine altitude_ elevations waypointIndex line in
      let '(rest', k') := mergeLines altitude_ elevations k rest in
      (match line', rest' with Some l, Some r => Some (l :: r) | _, _ => None end, k')
  end.

Definition NoPlanYet : string := "Generate a flight plan before fetching terrain data.".

(** The handler, up to logging.  The result is [None] when an altitude
    leaves the number model (see [mergeWaypoint]). *)
Definition handleFetchTerrainData (server : Server) (st : AppState)
  : option AppState :=
  if decide (length (concat (st_originalWaypoints st)) = 0) then
    Some (setError (Some NoPlanYet) st)
  else
    let st := setError None st in
    let flatWaypoints := concat (st_originalWaypoints st) in
    match getElevations server flatWaypoints with
    | Returned elevations =>
        match fst (mergeLines (fp_altitude (st_flightParams st)) elevations 0
                     (st_originalWaypoints st)) with
        | Some newOriginalWaypoints =>
            Some (setOriginalWaypoints newOriginalWaypoints st)
        | None => None
        end
    | _ => Some st
    end.

(* ===================================================================== *)
(** * Vocabulary of the specification                                     *)
(* ===================================================================== *)

(** The value of a counter that starts at [start] after [k] rounds of
    [counter += step]. *)
Fixpoint iterAdd (start step : Q) (k : nat) : Q :=
  match k with
  | O => start
  | S k' => iterAdd (start + step)%Q step k'
  end.

(** How many values [start], [start + step], ... are at most [stop]. *)
Definition loopCount (start stop step : Q) : nat :=
  if Qle_bool start stop
  then S (Z.to_nat (Qfloor ((stop - start) / step)%Q))
  else O.

(** The start index of the batch that holds position [j]. *)
Definition batchStart (j : nat) : nat := j / BATCH_SIZE * BATCH_SIZE.

(** The elevations delivered for the batch of position [j], when that
    batch succeeds: the response is [ok], its body parses, and it carries
    one entry per position of the batch. *)
Definition batchPayload (server : Server) (waypoints : list Waypoint) (j : nat)
  : option (list (option Q)) :=
  let batch := slice waypoints (batchStart j) (batchStart j + BATCH_SIZE) in
  match server (batchStart j) batch with
  | Json (Elevation elevation) =>
      if decide (length elevation = length batch) then Some elevation else None
  | _ => None
  end.

(** The entry for position [j]: unknown when its batch failed. *)
Definition expectedElevation (server : Server) (waypoints : list Waypoint) (j : nat)
  : option Q :=
  match batchPayload server waypoints j with
  | Some elevation => mjoin (elevation !! (j - batchStart j))
  | None => None
  end.

(** The elevation merge of one waypoint, as the specification words it:
    a numeric sample replaces the altitude by the rounded sum, an unknown
    one leaves the waypoint as it is. *)
Definition mergedWaypoint (altitude_ : Q) (sample : option Q) (wp : Waypoint)
  : Waypoint :=
  match sample with
  | Some e =>
      {| lat := lat wp; lng := lng wp; altitude := roundTo2 (fadd e altitude_);
         heading := heading wp; gimbalPitch := gimbalPitch wp; speed := speed wp |}
  | None => wp
  end.

(** What the filter keeps of one flight line, as the specification words
    it: everything when the line is no longer than [keepStart + keepEnd],
    otherwise its first [keepStart] and its last [keepEnd] waypoints. *)
Definition keepEnds {A} (p : FilterParams) (line : list A) : list A :=
  if decide (length line ≤ keepStart p + keepEnd p) then line
  else take (keepStart p) line ++ drop (length line - keepEnd p) line.

(** The flattened positions that the filter keeps of a line of [n]
    waypoints that starts at flattened position [offset]. *)
Definition linePositions (p : FilterParams) (offset n : nat) : list nat :=
  if decide (n ≤ keepStart p + keepEnd p) then seq offset n
  else seq offset (keepStart p) ++ seq (offset + (n - keepEnd p)) (keepEnd p).

(** The same for a sequence of lines. *)
Fixpoint keptPositions {A} (p : FilterParams) (offset : nat) (lines : list (list A))
  : list nat :=
  match lines with
  | [] => []
  | line :: rest =>
      linePositions p offset (length line)
        ++ keptPositions p (offset + length line) rest
  end.

(** The canonical plan held by the state: nothing yet, or flight lines
    with one footprint per flattened waypoint. *)
Definition canonical (st : AppState) : Prop :=
  (st_originalWaypoints st = [] /\ st_originalFootprints st = None) \/
  (st_originalWaypoints st ≠ [] /\
   exists features, st_originalFootprints st = Some features /\
                    length features = length (concat (st_originalWaypoints st))).

(** The great-circle distances, in meters, between consecutive waypoints. *)
Fixpoint legs `{Turf} (wps : list Waypoint) : list Q :=
  match wps with
  | a :: rest =>
      match rest with
      | b :: _ => distance (pointOf a) (pointOf b) :: legs rest
      | [] => []
      end
  | [] => []
  end.

(** The crossings of the sweep row at height [y] with the rotated region. *)
Definition rowCrossings `{Turf} (rotatedFeature : Geometry) (minX maxX y : Q)
  : list Position :=
  lineIntersect ((minX, y), (maxX, y)) rotatedFeature.

(** "Paired consecutively (1st-2nd, 3rd-4th, ...)": a trailing unpaired
    point is left out. *)
Fixpoint consecutivePairs (l : list Position) : list Segment :=
  match l with
  | a :: b :: rest => (a, b) :: consecutivePairs rest
  | _ => []
  end.

(** Ascending X. *)
Definition Xle (p q : Position) : Prop := (fst p <= fst q)%Q.

(* ===================================================================== *)
(** * App: the handlers and the rendering cycle                           *)
(* ===================================================================== *)

Definition setOriginalFootprints (f : option (list PolygonCoords)) (st : AppState)
  : AppState :=
  {| st_flightParams := st_flightParams st; st_cameraParams := st_cameraParams st;
     st_filterParams := st_filterParams st; st_waypoints := st_waypoints st;
     st_footprints := st_footprints st;
     st_originalWaypoints := st_originalWaypoints st;
     st_originalFootprints := f;
     st_stats := st_stats st; st_error := st_error st |}.

Definition setFlightParams (p : FlightParams) (st : AppState) : AppState :=
  {| st_flightParams := p; st_cameraParams := st_cameraParams st;
     st_filterParams := st_filterParams st; st_waypoints := st_waypoints st;
     st_footprints := st_footprints st;
     st_originalWaypoints := st_originalWaypoints st;
     st_originalFootprints := st_originalFootprints st;
     st_stats := st_stats st; st_error := st_error st |}.

Definition setCameraParams (p : CameraParams) (st : AppState) : AppState :=
  {| st_flightParams := st_flightParams st; st_cameraParams := p;
     st_filterParams := st_filterParams st; st_waypoints := st_waypoints st;
     st_footprints := st_footprints st;
     st_originalWaypoints := st_originalWaypoints st;
     st_originalFootprints := st_originalFootprints st;
     st_stats := st_stats st; st_error := st_error st |}.

Definition setFilterParams (p : FilterParams) (st : AppState) : AppState :=
  {| st_flightParams := st_flightParams st; st_cameraParams := st_cameraParams st;
     st_filterParams := p; st_waypoints := st_waypoints st;
     st_footprints := st_footprints st;
     st_originalWaypoints := st_originalWaypoints st;
     st_originalFootprints := st_originalFootprints st;
     st_stats := st_stats st; st_error := st_error st |}.

(** The state of [App] before anything is drawn, for given parameters. *)
Definition initialState (fp : FlightParams) (cp : CameraParams) (p : FilterParams)
  : AppState :=
  {| st_flightParams := fp; st_cameraParams := cp; st_filterParams := p;
     st_waypoints := []; st_footprints := None;
     st_originalWaypoints := []; st_originalFootprints := None;
     st_stats := None; st_error := None |}.

(** [clearFlightPlan], on the part of the state modelled here. *)
Definition clearFlightPlan (st : AppState) : AppState :=
  setStats None
    (setOriginalFootprints None
       (setOriginalWaypoints [] (setFootprints None (setWaypoints [] st)))).

(** The two effects after a state change: React runs the statistics
    effect, then the filter effect, and, the active waypoints having
    changed, the statistics effect once more. *)
Definition render `{Turf} (st : AppState) : AppState :=
  statsEffect (filterEffect (statsEffect st)).

(** The result of a library call or of an awaited promise: a value, or an
    [Error] with its message. *)
Inductive Try (A : Type) : Type :=
| Ok (a : A)
| Thrown (message : string).
Arguments Ok {A} a.
Arguments Thrown {A} message.

(** ** Strings *)

(** [toLowerCase] on the letters A-Z; other characters are left alone. *)
Definition lowerChar (ch : ascii) : ascii :=
  let n := nat_of_ascii ch in
  if (65 <=? n) && (n <=? 90) then ascii_of_nat (n + 32) else ch.

Fixpoint toLowerCase (s : string) : string :=
  match s with
  | EmptyString => EmptyString
  | String ch rest => String (lowerChar ch) (toLowerCase rest)
  end.

(** [s.endsWith(suffix)] *)
Definition endsWith (s suffix : string) : bool :=
  let n := String.length s in
  let m := String.length suffix in
  (m <=? n) && String.eqb (substring (n - m) m s) suffix.

(** [s.includes(pattern)] *)
Definition includes (s pattern : string) : bool :=
  match String.index 0 pattern s with
  | Some _ => true
  | None => false
  end.

(** [/WGS_1984|WGS 84|4326/.test(prjContent)] *)
Definition isWGS84 (prjContent : string) : bool :=
  includes prjContent "WGS_1984" || includes prjContent "WGS 84"
  || includes prjContent "4326".

(** ** The log *)

Inductive LogType := LogSuccess | LogError | LogInfo.

(** A log entry without its [id] and [timestamp], which come from the
    clock and from [Math.random]. *)
Record LogMessage := { lm_type : LogType; lm_message : string }.

Definition PleaseDraw : string :=
  "Please draw or import a survey area on the map first.".
Definition NoValidPolygons : string :=
  "Survey area contains no valid polygon features.".
Definition FailedToProcess : string :=
  "Failed to process survey area geometry.".
Definition PlanGenerated (n : nat) : string :=
  ("Flight plan generated with " ++ toStringZ (Z.of_nat n) ++ " waypoints.")%string.
Definition FetchingTerrain (n : nat) : string :=
  ("Fetching terrain data for " ++ toStringZ (Z.of_nat n) ++ " waypoints...")%string.
Definition TerrainApplied : string :=
  "Terrain data fetched and applied successfully.".
Definition ClearedAll : string := "Cleared all data.".
Definition Importing (fileName : string) : string :=
  ("Importing " ++ fileName ++ "...")%string.
Definition InvalidZip : string :=
  "Invalid shapefile .zip. It must contain at least .shp, .shx, and .dbf files.".
Definition InvalidCoordinateSystem : string :=
  "Invalid Coordinate System. Please ensure the shapefile uses WGS84 (EPSG:4326).".
Definition NoPolygonsImported : string :=
  "The imported shapefile contains no valid polygon features. Please ensure it contains polygons, not points or polylines.".
Definition NothingToDownload : string := "No waypoints generated to download.".
Definition NothingToDownloadKml : string := "No waypoints to download.".
Definition DownloadedCsv : string := "Downloaded Litchi (.csv) file.".
Definition DownloadedKmz : string := "Downloaded DJI WPML (.kmz) file.".
Definition DownloadedKml : string := "Downloaded Google Earth (.kml) file.".
Definition Imported (n : nat) : string :=
  ("Successfully imported " ++ toStringZ (Z.of_nat n) ++ " polygon(s).")%string.

(** ** The component state with the survey area and the log *)

(** A feature of the survey area: its geometry is a [Polygon] or a
    [MultiPolygon], or of some other type. *)
Inductive Feature `{Turf} :=
| PolygonFeature (geometry : Geometry)
| OtherFeature.

(** An uploaded file as the import handler sees it: its name, the entries
    of the archive (each with the text read from it) in the order of
    [Object.keys(zip.files)], unless opening the archive fails, and what
    the shapefile parser makes of it. *)
Record Upload `{Turf} := {
  fileName : string;
  zipFiles : Try (list (string * Try string));
  shpFeatures : Try (list Feature) }.

Record Session `{Turf} := {
  app : AppState;
  surveyArea : option (list Feature);
  logMessages : list LogMessage;
  isLogVisible : bool;
  isLoading : bool;
  isFetchingTerrain : bool }.

Section Handlers.
Context `{Turf}.

(** [turf.union(...polygons).geometry]: evaluating it throws, or yields a
    geometry, or yields none. *)
Variable union : list Geometry -> Try (option Geometry).

Definition withApp (g : AppState -> AppState) (s : Session) : Session :=
  {| app := g (app s); surveyArea := surveyArea s; logMessages := logMessages s;
     isLogVisible := isLogVisible s; isLoading := isLoading s;
     isFetchingTerrain := isFetchingTerrain s |}.

Definition setSurveyArea (area : option (list Feature)) (s : Session) : Session :=
  {| app := app s; surveyArea := area; logMessages := logMessages s;
     isLogVisible := isLogVisible s; isLoading := isLoading s;
     isFetchingTerrain := isFetchingTerrain s |}.

Definition setIsLoading (b : bool) (s : Session) : Session :=
  {| app := app s; surveyArea := surveyArea s; logMessages := logMessages s;
     isLogVisible := isLogVisible s; isLoading := b;
     isFetchingTerrain := isFetchingTerrain s |}.

Definition setIsFetchingTerrain (b : bool) (s : Session) : Session :=
  {| app := app s; surveyArea := surveyArea s; logMessages := logMessages s;
     isLogVisible := isLogVisible s; isLoading := isLoading s;
     isFetchingTerrain := b |}.

(** [setLogMessages(prev => [newLog, ...prev]); setIsLogVisible(true)] *)
Definition addLogMessage (message : string) (type : LogType) (s : Session) : Session :=
  {| app := app s; surveyArea := surveyArea s;
     logMessages := {| lm_type := type; lm_message := message |} :: logMessages s;
     isLogVisible := true; isLoading := isLoading s;
     isFetchingTerrain := isFetchingTerrain s |}.

(** [surveyArea.features.filter(f => f.geometry.type === 'Polygon' ||
    f.geometry.type === 'MultiPolygon')], as geometries. *)
Definition polygonsOf (features : list Feature) : list Geometry :=
  omap (fun f => match f with PolygonFeature g => Some g | OtherFeature => None end)
    features.

(** The [try] block of [handleGeneratePlan] up to the state updates. *)
Definition planSurveyArea (fuel : nat) (features : list Feature)
    (flightParams : FlightParams) (cameraParams : CameraParams)
  : Outcome FlightPlanResult :=
  match polygonsOf features with
  | [] => Threw NoValidPolygons
  | [geometry] => generateFlightPlan fuel geometry flightParams cameraParams
  | polygons =>
      match union polygons with
      | Thrown message => Threw message
      | Ok (Some geometry) => generateFlightPlan fuel geometry flightParams cameraParams
      | Ok None => Threw FailedToProcess
      end
  end.

(** [handleGeneratePlan], the deferred callback run at once.  [None]:
    the loop budget of the planner is exhausted. *)
Definition handleGeneratePlan (fuel : nat) (s : Session) : option Session :=
  match surveyArea s with
  | None | Some [] => Some (withApp (setError (Some PleaseDraw)) s)
  | Some features =>
      let s := setIsLoading true (withApp (setError None) s) in
      match planSurveyArea fuel features (st_flightParams (app s))
              (st_cameraParams (app s)) with
      | Returned generated =>
          Some (setIsLoading false
                  (addLogMessage
                     (PlanGenerated (length (concat (waypoints generated)))) LogSuccess
                     (withApp (fun a => setOriginalFootprints (Some (footprints generated))
                                          (setOriginalWaypoints (waypoints generated) a))
                        s)))
      | Threw errorMessage =>
          Some (setIsLoading false
                  (withApp (fun a => setFootprints None
                                       (setWaypoints []
                                          (setOriginalFootprints None
                                             (setOriginalWaypoints [] a))))
                     (addLogMessage errorMessage LogError s)))
      | OutOfFuel => None
      end
  end.

(** [handleFetchTerrainData] with its log entries and its busy flag. *)
Definition onFetchTerrain (server : Server) (s : Session) : option Session :=
  if decide (length (concat (st_originalWaypoints (app s))) = 0) then
    Some (withApp (setError (Some NoPlanYet)) s)
  else
    let s := withApp (setError None) (setIsFetchingTerrain true s) in
    let flatWaypoints := concat (st_originalWaypoints (app s)) in
    let s := addLogMessage (FetchingTerrain (length flatWaypoints)) LogInfo s in
    match getElevations server flatWaypoints with
    | Returned elevations =>
        match fst (mergeLines (fp_altitude (st_flightParams (app s))) elevations 0
                     (st_originalWaypoints (app s))) with
        | Some newOriginalWaypoints =>
            Some (setIsFetchingTerrain false
                    (addLogMessage TerrainApplied LogSuccess
                       (withApp (setOriginalWaypoints newOriginalWaypoints) s)))
        | None => None
        end
    | Threw errorMessage =>
        Some (setIsFetchingTerrain false (addLogMessage errorMessage LogError s))
    | OutOfFuel => None
    end.

Definition isPolygon (ft : Feature) : bool :=
  match ft with PolygonFeature _ => true | OtherFeature => false end.

(** The [try] block of [handleImportShapefile] up to the state updates:
    the polygons to add. *)
Definition readShapefile (upload : Upload) : Try (list Feature) :=
  match zipFiles upload with
  | Thrown message => Thrown message
  | Ok files =>
      let filesInZip := (fun entry => toLowerCase (fst entry)) <$> files in
      let hasShp := existsb (fun name => endsWith name ".shp") filesInZip in
      let hasShx := existsb (fun name => endsWith name ".shx") filesInZip in
      let hasDbf := existsb (fun name => endsWith name ".dbf") filesInZip in
      if negb hasShp || negb hasShx || negb hasDbf then Thrown InvalidZip
      else
        let prjFile :=
          find (fun entry => endsWith (toLowerCase (fst entry)) ".prj") files in
        let checked : Try unit :=
          match prjFile with
          | Some (_, Thrown message) => Thrown message
          | Some (_, Ok prjContent) =>
              if negb (isWGS84 prjContent) then Thrown InvalidCoordinateSystem
              else Ok tt
          | None => Ok tt
          end in
        match checked with
        | Thrown message => Thrown message
        | Ok _ =>
            match shpFeatures upload with
            | Thrown message => Thrown message
            | Ok features =>
                let polygons := filter (fun ft => isPolygon ft = true) features in
                if decide (length polygons = 0) then Thrown NoPolygonsImported
                else Ok polygons
            end
        end
  end.

(** [handleImportShapefile] *)
Definition handleImportShapefile (upload : Upload) (s : Session) : Session :=
  let s := addLogMessage (Importing (fileName upload)) LogInfo
             (setIsLoading true (withApp (setError None) s)) in
  match readShapefile upload with
  | Ok polygons =>
      setIsLoading false
        (withApp clearFlightPlan
           (addLogMessage (Imported (length polygons)) LogSuccess
              (setSurveyArea (Some (default [] (surveyArea s) ++ polygons)) s)))
  | Thrown errorMessage =>
      setIsLoading false (addLogMessage errorMessage LogError s)
  end.

(** [handleDownloadCsv], [handleDownloadKmz] and [handleDownloadKml] as
    far as the state goes: [saved] is how building and saving the file
    ends, the file itself is not part of the state. *)
Definition handleDownload (nothing downloaded : string) (saved : Try unit)
    (s : Session) : Session :=
  if decide (length (st_waypoints (app s)) = 0) then
    withApp (setError (Some nothing)) s
  else
    let s := withApp (setError None) s in
    match saved with
    | Ok _ => addLogMessage downloaded LogInfo s
    | Thrown errorMessage => addLogMessage errorMessage LogError s
    end.

(** [clearPlan] *)
Definition clearPlan (s : Session) : Session :=
  addLogMessage ClearedAll LogInfo
    (setSurveyArea None (withApp (fun a => setError None (clearFlightPlan a)) s)).

(** What can happen to the component.  Each handler runs to its end
    before the next event is taken, and the effects are run after it. *)
Inductive Event :=
| GeneratePlan (fuel : nat)
| FetchTerrain (server : Server)
| ClearPlan
| EditSurveyArea (area : option (list Feature))
| ImportShapefile (upload : Upload)
| DownloadCsv (saved : Try unit)
| DownloadKmz (saved : Try unit)
| DownloadKml (saved : Try unit)
| ChangeFlightParams (p : FlightParams)
| ChangeCameraParams (p : CameraParams)
| ChangeFilterParams (p : FilterParams).

Definition handle (e : Event) (s : Session) : option Session :=
  match e with
  | GeneratePlan fuel => handleGeneratePlan fuel s
  | FetchTerrain server => onFetchTerrain server s
  | ClearPlan => Some (clearPlan s)
  | EditSurveyArea area =>
      (* MapComponent: [setSurveyArea(...); clearFlightPlan()] *)
      Some (withApp clearFlightPlan (setSurveyArea area s))
  | ImportShapefile upload => Some (handleImportShapefile upload s)
  | DownloadCsv saved => Some (handleDownload NothingToDownload DownloadedCsv saved s)
  | DownloadKmz saved => Some (handleDownload NothingToDownload DownloadedKmz saved s)
  | DownloadKml saved =>
      Some (handleDownload NothingToDownloadKml DownloadedKml saved s)
  | ChangeFlightParams p => Some (withApp (setFlightParams p) s)
  | ChangeCameraParams p => Some (withApp (setCameraParams p) s)
  | ChangeFilterParams p => Some (withApp (setFilterParams p) s)
  end.

Definition step (e : Event) (s : Session) : option Session :=
  withApp render <$> handle e s.

Definition initialSession (fp : FlightParams) (cp : CameraParams) (p : FilterParams)
  : Session :=
  {| app := initialState fp cp p; surveyArea := None; logMessages := [];
     isLogVisible := false; isLoading := false; isFetchingTerrain := false |}.

(** A sequence of events, taken one after the other. *)
Fixpoint run (events : list Event) (s : Session) : option Session :=
  match events with
  | [] => Some s
  | e :: rest => s' ← step e s; run rest s'
  end.

(** The states the component can reach. *)
Inductive reachable : Session -> Prop :=
| reachable_initial fp cp p : reachable (initialSession fp cp p)
| reachable_step e s s' : reachable s -> step e s = Some s' -> reachable s'.

End Handlers.

(* ===================================================================== *)
(** * A flat-earth instance of the geometry interface                     *)
(* ===================================================================== *)

(** A stand-in for turf on which the planner can be run: regions are
    unions of axis-parallel rectangles, one degree measures [111195]
    meters in both directions, lengths are taken along the axes, rotation
    is the rotation by a multiple of 360 degrees (the identity), and
    bearings are the four cardinal directions. *)
Module Flat.

Definition metersPerDegree : Q := 111195.

Definition Rect : Type := BBox.

Definition Qmin (a b : Q) : Q := if Qle_bool a b then a else b.
Definition Qmax (a b : Q) : Q := if Qle_bool a b then b else a.

Definition hull (a b : BBox) : BBox :=
  let '(ax0, ay0, ax1, ay1) := a in
  let '(bx0, by0, bx1, by1) := b in
  (Qmin ax0 bx0, Qmin ay0 by0, Qmax ax1 bx1, Qmax ay1 by1).

Definition bboxOf (g : list Rect) : BBox :=
  match g with
  | [] => (0, 0, 0, 0)%Q
  | r :: rest => foldl hull r rest
  end.

Definition center (g : list Rect) : Position :=
  let '(x0, y0, x1, y1) := bboxOf g in (((x0 + x1) / 2)%Q, ((y0 + y1) / 2)%Q).

(** The crossings of a horizontal line with the boundary of each
    rectangle, right edge first. *)
Definition crossings (line : Segment) (g : list Rect) : list Position :=
  let y := snd (fst line) in
  flat_map (fun r : Rect =>
              let '(x0, y0, x1, y1) := r in
              if Qle_bool y0 y && Qle_bool y y1 then [(x1, y); (x0, y)] else [])
           g.

Definition taxicab (a b : Position) : Q :=
  ((Qabs (fst b - fst a) + Qabs (snd b - snd a)) * metersPerDegree)%Q.

Definition walk (line : Segment) (d : Q) : Position :=
  ((fst (fst line) + d / metersPerDegree)%Q, snd (fst line)).

Definition cardinal (a b : Position) : Q :=
  if Qltb (snd a) (snd b) then 0%Q
  else if Qltb (snd b) (snd a) then 180%Q
  else if Qltb (fst a) (fst b) then 90%Q
  else if Qltb (fst b) (fst a) then (-90)%Q
  else 0%Q.

Definition move (p : Position) (d brg : Q) : Position :=
  let deg := (d / metersPerDegree)%Q in
  if Qeq_bool brg 0 || Qeq_bool brg 360 then (fst p, (snd p + deg)%Q)
  else if Qeq_bool brg 90 || Qeq_bool brg (-270) then ((fst p + deg)%Q, snd p)
  else if Qeq_bool brg 180 || Qeq_bool brg (-180) then (fst p, (snd p - deg)%Q)
  else if Qeq_bool brg (-90) || Qeq_bool brg 270 then ((fst p - deg)%Q, snd p)
  else p.

#[export] Instance turf : Turf := {|
  Geometry := list Rect;
  centerOfMass := center;
  transformRotate := fun g _ _ => g;
  rotatePoint := fun p _ _ => p;
  bbox := bboxOf;
  lineIntersect := crossings;
  lengthToDegrees := fun m => (m / metersPerDegree)%Q;
  lineLength := fun l => taxicab (fst l) (snd l);
  along := walk;
  distance := taxicab;
  bearing := cardinal;
  destination := move |}.

(** A camera with a footprint of 100 m by 100 m at 100 m altitude, and a
    flight with 50% overlaps: the spacings are 50 m both ways. *)
Definition camera : CameraParams :=
  {| sensorWidth := 10; sensorHeight := 10; focalLength := 10;
     imageWidth := 100; imageHeight := 100 |}.
Definition flight : FlightParams :=
  {| fp_altitude := 100; frontOverlap := 50; sideOverlap := 50; fp_speed := 10;
     fp_gimbalPitch := -90; flightDirection := 0; altitudeMode := relative |}.

(** A square of 100 m on the equator, in degrees. *)
Definition square : list Rect :=
  [(0, 0, 100 / metersPerDegree, 100 / metersPerDegree)%Q].

(** Two such squares side by side, 100 m apart. *)
Definition twoSquares : list Rect :=
  [(200 / metersPerDegree, 0, 300 / metersPerDegree, 100 / metersPerDegree)%Q;
   (0, 0, 100 / metersPerDegree, 100 / metersPerDegree)%Q].

(** The same flight with a front overlap of 100%. *)
Definition fullOverlap : FlightParams :=
  {| fp_altitude := 100; frontOverlap := 100; sideOverlap := 50; fp_speed := 10;
     fp_gimbalPitch := -90; flightDirection := 0; altitudeMode := relative |}.

(** The plan of the square: three rows of three waypoints. *)
Definition squarePlan : FlightPlanResult :=
  Eval vm_compute in
    match @generateFlightPlan turf 10 square flight camera with
    | Returned r => r
    | _ => {| waypoints := []; footprints := [] |}
    end.

(** Its last waypoint and the one before it. *)
Definition lastWaypoint : Waypoint :=
  Eval vm_compute in
    default {| lat := 0; lng := 0; altitude := 0; heading := 0;
               gimbalPitch := 0; speed := 0 |}
      (concat (waypoints squarePlan) !! 8).
Definition previousWaypoint : Waypoint :=
  Eval vm_compute in
    default {| lat := 0; lng := 0; altitude := 0; heading := 0;
               gimbalPitch := 0; speed := 0 |}
      (concat (waypoints squarePlan) !! 7).

(** The flight lines of the two squares: two per row, the gap skipped. *)
Definition twoSquaresLines : list Segment :=
  Eval vm_compute in default [] (@coveragePath turf 3 twoSquares 0 50).

(** The southern edge of the square, as a flight line. *)
Definition southEdge : Segment := ((0, 0), (100 / metersPerDegree, 0))%Q.

(** A service that knows the elevation of every other position: 12.345,
    as the binary64 number read from the response. *)
Definition everyOther : Server :=
  fun _ batch =>
    Json (Elevation ((fun k => if Nat.even k then Some (b64 (12345 # 1000)) else None)
                       <$> seq 0 (length batch))).

(** A service whose second batch is answered with an HTTP error. *)
Definition secondBatchDown : Server :=
  fun i batch =>
    if decide (i = 50) then NotOk false
    else Json (Elevation (replicate (length batch) (Some 7%Q))).

Definition home : Waypoint :=
  {| lat := 0; lng := 0; altitude := 100; heading := 0; gimbalPitch := -90;
     speed := 10 |}.

(** The state after planning the square, with the filter keeping one
    waypoint at each end of a line. *)
Definition planned : AppState :=
  {| st_flightParams := flight;
     st_cameraParams := camera;
     st_filterParams := {| enabled := true; keepStart := 1; keepEnd := 1 |};
     st_waypoints := concat (waypoints squarePlan);
     st_footprints := Some (footprints squarePlan);
     st_originalWaypoints := waypoints squarePlan;
     st_originalFootprints := Some (footprints squarePlan);
     st_stats := None;
     st_error := None |}.

(** The same flight with a front overlap of 80% and a side overlap of
    70%. *)
Definition denseFlight : FlightParams :=
  {| fp_altitude := 100; frontOverlap := 80; sideOverlap := 70; fp_speed := 10;
     fp_gimbalPitch := -90; flightDirection := 0; altitudeMode := relative |}.

(** A flight line of length zero. *)
Definition pointLine : Segment := ((0, 0), (0, 0))%Q.

(** A service that reports the latitude of a position, in degrees, as its
    elevation. *)
Definition latitudeService : Server :=
  fun _ batch => Json (Elevation ((fun w => Some (lat w)) <$> batch)).

(** The same, reading the positions sent and nothing else. *)
Definition positional : Server :=
  fun _ batch =>
    Json (Elevation ((fun pt : Position => Some (snd pt + 250)%Q)
                       <$> (pointOf <$> batch))).

(** A service that answers every request with an HTTP error. *)
Definition down : Server := fun _ _ => NotOk false.

(** The planned square after terrain was fetched from [positional]. *)
Definition surveyed : AppState :=
  Eval vm_compute in default planned (handleFetchTerrainData positional planned).

(** The planned square with the filter keeping two waypoints at each end
    of a line: no line has more than four. *)
Definition plannedWide : AppState :=
  setFilterParams {| enabled := true; keepStart := 2; keepEnd := 2 |} planned.

(** A plan of one line with one waypoint. *)
Definition single : AppState :=
  {| st_flightParams := flight;
     st_cameraParams := camera;
     st_filterParams := {| enabled := false; keepStart := 1; keepEnd := 1 |};
     st_waypoints := [home];
     st_footprints := None;
     st_originalWaypoints := [[home]];
     st_originalFootprints := None;
     st_stats := None;
     st_error := None |}.

(** Rectangles are united by putting them side by side. *)
Definition union (polygons : list (list Rect)) : Try (option (list Rect)) :=
  Ok (Some (concat polygons)).

Definition noFilter : FilterParams :=
  {| enabled := false; keepStart := 1; keepEnd := 1 |}.

(** The component with the square drawn on the map, *)
Definition drawn : Session :=
  {| app := initialState flight camera noFilter;
     surveyArea := Some [PolygonFeature square];
     logMessages := []; isLogVisible := false; isLoading := false;
     isFetchingTerrain := false |}.

(** after the plan was generated, *)
Definition generated : Session :=
  Eval vm_compute in default drawn (handleGeneratePlan union 10 drawn).

(** the square drawn with a front overlap of 100%, *)
Definition drawnFullOverlap : Session :=
  {| app := initialState fullOverlap camera noFilter;
     surveyArea := Some [PolygonFeature square];
     logMessages := []; isLogVisible := false; isLoading := false;
     isFetchingTerrain := false |}.

(** and with a marker in place of the square. *)
Definition marked : Session :=
  {| app := initialState flight camera noFilter;
     surveyArea := Some [OtherFeature];
     logMessages := []; isLogVisible := false; isLoading := false;
     isFetchingTerrain := false |}.

(** Drawing the square, planning, and switching the filter on. *)
Definition flownEvents : list Event :=
  [EditSurveyArea (Some [PolygonFeature square]);
   GeneratePlan 10;
   ChangeFilterParams {| enabled := true; keepStart := 1; keepEnd := 1 |}].

(** The component after these events, the effects run after each. *)
Definition flown : Session :=
  Eval vm_compute in
    default drawn (run union flownEvents (initialSession flight camera noFilter)).

End Flat.

(* ===================================================================== *)
(** * Properties                                                          *)
(* ===================================================================== *)

(** ** Comparisons and outcomes *)

Lemma Qltb_lt (a b : Q) : Qltb a b = true <-> (a < b)%Q.
Proof.
  unfold Qltb. rewrite negb_true_iff, <- not_true_iff_false, Qle_bool_iff.
  split; [apply Qnot_le_lt | apply Qlt_not_le].
Qed.

Lemma Qltb_ge (a b : Q) : Qltb a b = false <-> (b <= a)%Q.
Proof. unfold Qltb. rewrite negb_false_iff. apply Qle_bool_iff. Qed.

Lemma Qle_bool_gt (a b : Q) : Qle_bool a b = false <-> (b < a)%Q.
Proof.
  rewrite <- not_true_iff_false, Qle_bool_iff.
  split; [apply Qnot_le_lt | apply Qlt_not_le].
Qed.

Lemma obind_Returned {A B} (m : Outcome A) (k : A -> Outcome B) (b : B) :
  obind m k = Returned b -> exists a, m = Returned a /\ k a = Returned b.
Proof. destruct m; simpl; intros E; try discriminate. eauto. Qed.

Lemma obind_Threw {A B} (m : Outcome A) (k : A -> Outcome B) (msg : string) :
  obind m k = Threw msg -> m = Threw msg \/ exists a, m = Returned a /\ k a = Threw msg.
Proof.
  destruct m as [a|e|]; simpl; intros E.
  - right. exists a. split; [reflexivity | exact E].
  - left. by injection E as ->.
  - discriminate.
Qed.

Lemma oforEach_Threw {A B} (f : nat -> A -> Outcome B) (l : list A) (msg : string) :
  forall i, oforEach f i l = Threw msg -> exists j x, f j x = Threw msg.
Proof.
  induction l as [|x r IH]; simpl; intros i E; [discriminate|].
  apply obind_Threw in E as [E | (y & _ & E)]; [eauto|].
  apply obind_Threw in E as [E | (ys & _ & E)]; [eauto | discriminate].
Qed.

Lemma oforEach_Returned {A B} (f : nat -> A -> Outcome B) (l : list A) (out : list B) :
  forall i, oforEach f i l = Returned out ->
    length out = length l /\
    forall j x, l !! j = Some x -> exists y, out !! j = Some y /\ f (i + j) x = Returned y.
Proof.
  revert out. induction l as [|x r IH]; simpl; intros out i E.
  - injection E as <-. split; [done|]. intros j y Hj. discriminate.
  - apply obind_Returned in E as (y & Ey & E).
    apply obind_Returned in E as (ys & Eys & E). injection E as <-.
    destruct (IH _ _ Eys) as [Hlen Hnth]. split; [simpl; lia|].
    intros [|j] z Hj; simpl in *.
    + injection Hj as <-. exists y. by rewrite Nat.add_0_r.
    + destruct (Hnth _ _ Hj) as (w & Hw & Ew). exists w.
      by rewrite <- Nat.add_succ_comm.
Qed.

(** ** Footprint and spacings *)

Lemma Qmult_pos_nonpos (a b : Q) : (0 < a)%Q -> (b <= 0)%Q -> (a * b <= 0)%Q.
Proof.
  intros Ha Hb. assert (0 <= a * - b)%Q as Hab by (apply Qmult_le_0_compat; lra).
  lra.
Qed.

Lemma overlap_factor_nonpos (o : Q) : (100 <= o)%Q -> (1 - o / 100 <= 0)%Q.
Proof. intros Ho. unfold Qdiv. change (/ 100)%Q with (1 # 100)%Q. lra. Qed.

Lemma overlap_factor_pos (o : Q) : (o < 100)%Q -> (0 < 1 - o / 100)%Q.
Proof. intros Ho. unfold Qdiv. change (/ 100)%Q with (1 # 100)%Q. lra. Qed.

Section Spacing.
Variables (f : FlightParams) (c : CameraParams).
Hypothesis sensorWidth_pos : (0 < sensorWidth c)%Q.
Hypothesis focalLength_pos : (0 < focalLength c)%Q.
Hypothesis imageWidth_pos : (0 < imageWidth c)%Q.
Hypothesis imageHeight_pos : (0 < imageHeight c)%Q.
Hypothesis altitude_pos : (0 < fp_altitude f)%Q.

Lemma gsd_pos : (0 < gsd f c)%Q.
Proof using sensorWidth_pos focalLength_pos imageWidth_pos altitude_pos.
  unfold gsd. apply Qlt_shift_div_l.
  - by apply Qmult_lt_0_compat.
  - rewrite Qmult_0_l. by apply Qmult_lt_0_compat.
Qed.

Lemma footprintWidth_pos : (0 < footprintWidth f c)%Q.
Proof using sensorWidth_pos focalLength_pos imageWidth_pos altitude_pos.
  unfold footprintWidth. apply Qmult_lt_0_compat; [apply gsd_pos | done].
Qed.

Lemma footprintHeight_pos : (0 < footprintHeight f c)%Q.
Proof using All.
  unfold footprintHeight. apply Qmult_lt_0_compat; [apply gsd_pos | done].
Qed.

Lemma distanceAlongTrack_pos_iff :
  (0 < distanceAlongTrack f c)%Q <-> (frontOverlap f < 100)%Q.
Proof using All.
  unfold distanceAlongTrack. pose proof footprintHeight_pos as Hh.
  split; intros Hlt.
  - destruct (Qlt_le_dec (frontOverlap f) 100) as [|Hge]; [done|].
    exfalso. apply (Qlt_not_le _ _ Hlt), Qmult_pos_nonpos;
      [done | by apply overlap_factor_nonpos].
  - apply Qmult_lt_0_compat; [done | by apply overlap_factor_pos].
Qed.

Lemma distanceSideTrack_pos_iff :
  (0 < distanceSideTrack f c)%Q <-> (sideOverlap f < 100)%Q.
Proof using sensorWidth_pos focalLength_pos imageWidth_pos altitude_pos.
  unfold distanceSideTrack. pose proof footprintWidth_pos as Hw.
  split; intros Hlt.
  - destruct (Qlt_le_dec (sideOverlap f) 100) as [|Hge]; [done|].
    exfalso. apply (Qlt_not_le _ _ Hlt), Qmult_pos_nonpos;
      [done | by apply overlap_factor_nonpos].
  - apply Qmult_lt_0_compat; [done | by apply overlap_factor_pos].
Qed.

End Spacing.

(** ** The shape of a successful plan *)

Lemma concat_restructure {A} (formatted : list Waypoint) (lines : list (list A)) :
  forall k, concat (restructure formatted k lines)
            = take (length (concat lines)) (drop k formatted).
Proof.
  induction lines as [|line rest IH]; intros k; simpl; [done|].
  rewrite IH, length_app, <- take_take_drop, drop_drop. done.
Qed.

Lemma pointOf_formatWaypoint `{Turf} f c final i wp :
  pointOf (snd (formatWaypoint f c final i wp)) = wp.
Proof. by destruct wp. Qed.

Section PlanShape.
Context `{Turf}.
Variables (fuel : nat) (geometry : Geometry) (f : FlightParams) (c : CameraParams).

(** The rotated-back positions, in flattened order, of a successful run,
    and the formatted waypoint and footprint computed at each of them. *)
Lemma generateFlightPlan_Returned (r : FlightPlanResult) :
  generateFlightPlan fuel geometry f c = Returned r ->
  exists finalWaypoints : list Position,
    finalWaypoints ≠ [] /\
    concat (waypoints r)
      = imap (fun i wp => snd (formatWaypoint f c finalWaypoints i wp)) finalWaypoints /\
    footprints r
      = imap (fun i wp => fst (formatWaypoint f c finalWaypoints i wp)) finalWaypoints.
Proof.
  unfold generateFlightPlan.
  destruct (_ || _); [discriminate|].
  destruct (coveragePath _ _ _ _) as [lines|]; [|discriminate].
  intros E. apply obind_Returned in E as (byLine & _ & E).
  set (final := _ <$> concat byLine) in E.
  destruct (decide (length final = 0)) as [|Hlen]; [discriminate|].
  injection E as <-. exists final. simpl.
  split; [by destruct final|].
  rewrite concat_restructure, drop_0, !fmap_imap.
  split; [|done]. apply take_ge.
  rewrite length_imap. subst final. by rewrite length_fmap.
Qed.

Lemma generateFlightPlan_positions (r : FlightPlanResult) finalWaypoints :
  concat (waypoints r)
    = imap (fun i wp => snd (formatWaypoint f c finalWaypoints i wp)) finalWaypoints ->
  pointOf <$> concat (waypoints r) = finalWaypoints.
Proof.
  intros ->. rewrite fmap_imap. apply list_eq; intros i.
  rewrite list_lookup_imap. destruct (finalWaypoints !! i) as [[x y]|]; done.
Qed.

End PlanShape.

(** ** Headings *)

Lemma normalizeHeading_range (b : Q) :
  (-180 <= b <= 180)%Q -> (0 <= normalizeHeading b < 360)%Q.
Proof.
  intros [Hlo Hhi]. unfold normalizeHeading.
  destruct (Qltb b 0) eqn:E.
  - apply Qltb_lt in E. split; lra.
  - apply Qltb_ge in E. split; lra.
Qed.

Lemma nextWaypoint_succ (final : list Position) i wp n :
  final !! (i + 1) = Some n -> nextWaypoint final i wp = n.
Proof. unfold nextWaypoint. by intros ->. Qed.

Lemma nextWaypoint_last (final : list Position) i wp p :
  final !! (S i + 1) = None -> final !! i = Some p ->
  nextWaypoint final (S i) wp = p.
Proof. unfold nextWaypoint. by intros -> ->. Qed.

Section Headings.
Context `{Turf}.
Variables (fuel : nat) (geometry : Geometry) (f : FlightParams) (c : CameraParams).
Variable r : FlightPlanResult.
Hypothesis run : generateFlightPlan fuel geometry f c = Returned r.

Lemma heading_of_waypoint i w :
  concat (waypoints r) !! i = Some w ->
  heading w
  = normalizeHeading
      (bearing (pointOf w) (nextWaypoint (pointOf <$> concat (waypoints r)) i (pointOf w))).
Proof using run.
  destruct (generateFlightPlan_Returned _ _ _ _ _ run) as (final & _ & Hws & _).
  rewrite (generateFlightPlan_positions f c r final Hws).
  rewrite Hws. intros Hw. apply list_lookup_imap_Some in Hw as (wp & Hwp & ->).
  by rewrite pointOf_formatWaypoint.
Qed.

Lemma footprint_of_waypoint i w :
  concat (waypoints r) !! i = Some w ->
  footprints r !! i
  = Some (footprintPoly f c (pointOf w)
            (bearing (pointOf w)
               (nextWaypoint (pointOf <$> concat (waypoints r)) i (pointOf w)))).
Proof using run.
  destruct (generateFlightPlan_Returned _ _ _ _ _ run) as (final & _ & Hws & ->).
  rewrite (generateFlightPlan_positions f c r final Hws).
  rewrite Hws. intros Hw. apply list_lookup_imap_Some in Hw as (wp & Hwp & ->).
  rewrite list_lookup_imap, Hwp. simpl. by destruct wp.
Qed.

Lemma footprints_length : length (footprints r) = length (concat (waypoints r)).
Proof using run.
  destruct (generateFlightPlan_Returned _ _ _ _ _ run) as (final & _ & -> & ->).
  by rewrite !length_imap.
Qed.

Lemma plan_nonempty : concat (waypoints r) ≠ [].
Proof using run.
  destruct (generateFlightPlan_Returned _ _ _ _ _ run) as (final & Hne & -> & _).
  by destruct final.
Qed.

End Headings.

(** The headings as the code computes them.  In a plan with at least two
    waypoints, the heading of every waypoint but the last is the bearing
    from it to the next waypoint of the flattened sequence; the heading of
    the last waypoint is the bearing from it to the waypoint before it, as
    it is, not turned around; each heading is normalized by adding 360
    when negative, and lies in [0,360) when turf's bearings lie in
    [-180,180]. *)
Lemma headings_follow_next_or_previous `{Turf}
    (fuel : nat) (geometry : Geometry) (f : FlightParams) (c : CameraParams)
    (r : FlightPlanResult) :
  (forall a b, (-180 <= bearing a b <= 180)%Q) ->
  generateFlightPlan fuel geometry f c = Returned r ->
  2 <= length (concat (waypoints r)) ->
  (forall i w w',
      concat (waypoints r) !! i = Some w ->
      concat (waypoints r) !! (i + 1) = Some w' ->
      heading w = normalizeHeading (bearing (pointOf w) (pointOf w'))) /\
  (forall w w',
      concat (waypoints r) !! (length (concat (waypoints r)) - 1) = Some w ->
      concat (waypoints r) !! (length (concat (waypoints r)) - 2) = Some w' ->
      heading w = normalizeHeading (bearing (pointOf w) (pointOf w'))) /\
  Forall (fun w => (0 <= heading w < 360)%Q) (concat (waypoints r)).
Proof.
  intros Hrange Hrun Hlen. split; [|split].
  - intros i w w' Hw Hw'. rewrite (heading_of_waypoint _ _ _ _ _ Hrun i w Hw).
    by erewrite nextWaypoint_succ; [|by rewrite list_lookup_fmap, Hw'].
  - intros w w'.
    destruct (length (concat (waypoints r))) as [|[|k]] eqn:Hn; [lia | lia |].
    replace (S (S k) - 1) with (S k) by lia. replace (S (S k) - 2) with k by lia.
    intros Hw Hw'. rewrite (heading_of_waypoint _ _ _ _ _ Hrun _ w Hw).
    erewrite nextWaypoint_last; [done | | by rewrite list_lookup_fmap, Hw'].
    apply lookup_ge_None. rewrite length_fmap, Hn. lia.
  - apply Forall_lookup. intros i w Hw.
    rewrite (heading_of_waypoint _ _ _ _ _ Hrun i w Hw).
    apply normalizeHeading_range, Hrange.
Qed.

(** C10.  Every waypoint of a freshly generated plan carries the altitude,
    gimbal pitch and speed of the flight parameters, so the three fields
    are the same on all of them; the terrain pass rewrites the altitude
    alone. *)
Theorem C10_altitude_pitch_speed_from_params `{Turf}
    (fuel : nat) (geometry : Geometry) (f : FlightParams) (c : CameraParams)
    (r : FlightPlanResult) :
  generateFlightPlan fuel geometry f c = Returned r ->
  Forall (fun w => altitude w = fp_altitude f /\
                   gimbalPitch w = fp_gimbalPitch f /\
                   speed w = fp_speed f) (concat (waypoints r)) /\
  (forall w w', w ∈ concat (waypoints r) -> w' ∈ concat (waypoints r) ->
      altitude w = altitude w' /\ gimbalPitch w = gimbalPitch w' /\ speed w = speed w') /\
  (forall a elevations k w w' k',
      mergeWaypoint a elevations k w = (Some w', k') ->
      lat w' = lat w /\ lng w' = lng w /\ heading w' = heading w /\
      gimbalPitch w' = gimbalPitch w /\ speed w' = speed w).
Proof.
  intros Hrun.
  assert (Forall (fun w => altitude w = fp_altitude f /\
                   gimbalPitch w = fp_gimbalPitch f /\
                   speed w = fp_speed f) (concat (waypoints r))) as Hall.
  { destruct (generateFlightPlan_Returned _ _ _ _ _ Hrun) as (final & _ & -> & _).
    apply Forall_lookup. intros i w Hw.
    apply list_lookup_imap_Some in Hw as (wp & _ & ->). done. }
  split; [done|]. split.
  - rewrite Forall_forall in Hall. intros w w' Hw Hw'.
    destruct (Hall _ Hw) as (-> & -> & ->), (Hall _ Hw') as (-> & -> & ->). done.
  - intros a elevations k w w' k'. unfold mergeWaypoint.
    destruct (elevations !! k) as [[e|]|]; intros E; inversion E; subst; done.
Qed.

(** ** The overlap guard *)

Lemma lineWaypoints_Threw `{Turf} fuel dAT i line msg :
  lineWaypoints fuel dAT i line = Threw msg -> msg = CoordRequired.
Proof.
  unfold lineWaypoints. destruct (alongLoop _ _ _ _ _ _) as [pts|]; [|discriminate].
  intros E. apply obind_Threw in E as [E | (? & _ & E)]; [|discriminate].
  unfold ensureEndpoint in E. destruct (Qltb 0 _); [|discriminate].
  destruct (last pts); [by destruct (Qltb 1 _) | by injection E].
Qed.

Lemma generateFlightPlan_guard_true `{Turf} fuel geometry f c :
  (distanceSideTrack f c <= 0)%Q \/ (distanceAlongTrack f c <= 0)%Q ->
  generateFlightPlan fuel geometry f c = Threw InvalidParameters.
Proof.
  intros Hle. unfold generateFlightPlan.
  replace (_ || _) with true; [done|]. symmetry. apply orb_true_iff.
  rewrite !Qle_bool_iff. done.
Qed.

Lemma generateFlightPlan_guard_false `{Turf} fuel geometry f c :
  (0 < distanceSideTrack f c)%Q -> (0 < distanceAlongTrack f c)%Q ->
  generateFlightPlan fuel geometry f c ≠ Threw InvalidParameters.
Proof.
  intros Hs Ha. unfold generateFlightPlan.
  apply Qle_bool_gt in Hs, Ha. rewrite Hs, Ha. simpl.
  destruct (coveragePath _ _ _ _) as [lines|]; [|discriminate].
  intros E. apply obind_Threw in E as [E | (byLine & _ & E)].
  - apply oforEach_Threw in E as (j & x & E).
    apply lineWaypoints_Threw in E. discriminate.
  - destruct (decide _); discriminate.
Qed.

(** C4.  With a positive sensor width, focal length, image size and
    altitude: when both overlaps are in [0,100) the two spacings are the
    footprint sides scaled by (1 - overlap/100), both are positive, and
    planning does not fail with the overlap error; when either overlap is
    100 or more a spacing is not positive and planning fails with
    "Overlap values must be less than 100%." whatever the region and before
    any loop runs. *)
Theorem C4_overlap_guard `{Turf} (f : FlightParams) (c : CameraParams) :
  (0 < sensorWidth c)%Q -> (0 < focalLength c)%Q ->
  (0 < imageWidth c)%Q -> (0 < imageHeight c)%Q -> (0 < fp_altitude f)%Q ->
  ((0 <= frontOverlap f < 100)%Q -> (0 <= sideOverlap f < 100)%Q ->
     distanceAlongTrack f c = (footprintHeight f c * (1 - frontOverlap f / 100))%Q /\
     distanceSideTrack f c = (footprintWidth f c * (1 - sideOverlap f / 100))%Q /\
     (0 < distanceAlongTrack f c)%Q /\ (0 < distanceSideTrack f c)%Q /\
     forall fuel geometry,
       generateFlightPlan fuel geometry f c ≠ Threw InvalidParameters) /\
  ((100 <= frontOverlap f)%Q \/ (100 <= sideOverlap f)%Q ->
     ((distanceAlongTrack f c <= 0)%Q \/ (distanceSideTrack f c <= 0)%Q) /\
     InvalidParameters = "Overlap values must be less than 100%."%string /\
     forall fuel geometry,
       generateFlightPlan fuel geometry f c = Threw InvalidParameters).
Proof.
  intros Hsw Hfl Hiw Hih Halt.
  pose proof (distanceAlongTrack_pos_iff f c Hsw Hfl Hiw Hih Halt) as Hfront.
  pose proof (distanceSideTrack_pos_iff f c Hsw Hfl Hiw Halt) as Hside.
  split.
  - intros [_ Hf] [_ Hs]. apply Hfront in Hf. apply Hside in Hs.
    repeat split; try done.
    intros fuel geometry. by apply generateFlightPlan_guard_false.
  - intros Hover.
    assert ((distanceAlongTrack f c <= 0)%Q \/ (distanceSideTrack f c <= 0)%Q) as Hle.
    { destruct Hover as [Hge | Hge]; [left | right]; apply Qnot_lt_le; intros Hpos.
      - apply Hfront in Hpos. lra.
      - apply Hside in Hpos. lra. }
    repeat split; try done.
    intros fuel geometry. apply generateFlightPlan_guard_true. tauto.
Qed.

(** ** Counter loops *)

Lemma iterAdd_S (start step : Q) (k : nat) :
  (iterAdd start step (S k) == iterAdd start step k + step)%Q.
Proof.
  revert start. induction k as [|k IH]; intros start; simpl in *; [lra|].
  apply IH.
Qed.

Lemma iterAdd_linear (start step : Q) (k : nat) :
  (iterAdd start step k == start + inject_Z (Z.of_nat k) * step)%Q.
Proof.
  induction k as [|k IH].
  - simpl. change (inject_Z (Z.of_nat 0)) with 0%Q. lra.
  - rewrite iterAdd_S, IH, Nat2Z.inj_succ. unfold Z.succ.
    rewrite inject_Z_plus. change (inject_Z 1) with 1%Q. lra.
Qed.

Lemma iterAdd_mono (start step : Q) (j k : nat) :
  (0 < step)%Q -> j <= k -> (iterAdd start step j <= iterAdd start step k)%Q.
Proof.
  intros Hstep Hjk. induction Hjk as [|k _ IH]; [lra|].
  rewrite iterAdd_S. lra.
Qed.

(** With a positive step the counter passes [stop] after exactly
    [loopCount] rounds. *)
Lemma loopCount_spec (start stop step : Q) (k : nat) :
  (0 < step)%Q ->
  k < loopCount start stop step <-> (iterAdd start step k <= stop)%Q.
Proof.
  intros Hstep. unfold loopCount. rewrite iterAdd_linear.
  destruct (Qle_bool start stop) eqn:E.
  - apply Qle_bool_iff in E.
    set (q := ((stop - start) / step)%Q).
    assert (0 <= q)%Q as Hq.
    { unfold q. apply Qle_shift_div_l; [done | lra]. }
    assert (0 <= Qfloor q)%Z as Hfl.
    { change 0%Z with (Qfloor 0). by apply Qfloor_resp_le. }
    assert ((start + inject_Z (Z.of_nat k) * step <= stop)%Q
            <-> (inject_Z (Z.of_nat k) <= q)%Q) as ->.
    { unfold q. split; intros Hk.
      - apply Qle_shift_div_l; [done | lra].
      - apply (Qmult_le_r _ _ step Hstep) in Hk.
        assert ((stop - start) / step * step == stop - start)%Q as Hdiv
          by (field; lra).
        lra. }
    split; intros Hk.
    + apply Qle_trans with (inject_Z (Qfloor q)); [|apply Qfloor_le].
      rewrite <- Zle_Qle. lia.
    + assert (Z.of_nat k <= Qfloor q)%Z; [|lia].
      rewrite <- (Qfloor_Z (Z.of_nat k)). by apply Qfloor_resp_le.
  - apply Qle_bool_gt in E. split; [lia|]. intros Hk. exfalso.
    assert (0 <= inject_Z (Z.of_nat k) * step)%Q; [|lra].
    apply Qmult_le_0_compat; [|lra].
    change 0%Q with (inject_Z 0). rewrite <- Zle_Qle. lia.
Qed.

Lemma fmap_seq_shift {B} (g : nat -> B) (n : nat) :
  (fun k => g (S k)) <$> seq 0 n = g <$> seq 1 n.
Proof. by rewrite <- fmap_S_seq, <- list_fmap_compose. Qed.

(** ** Sorting and pairing the crossings of a row *)

Lemma insertByX_Permutation (p : Position) (l : list Position) :
  insertByX p l ≡ₚ p :: l.
Proof.
  induction l as [|q r IH]; simpl; [done|].
  destruct (Qltb (fst q) (fst p)); [|done].
  rewrite IH. apply Permutation_swap.
Qed.

Lemma sortByX_Permutation (l : list Position) : sortByX l ≡ₚ l.
Proof.
  induction l as [|p r IH]; simpl; [done|].
  unfold sortByX in *. simpl. by rewrite insertByX_Permutation, IH.
Qed.

Lemma insertByX_HdRel (a p : Position) (l : list Position) :
  Xle a p -> HdRel Xle a l -> HdRel Xle a (insertByX p l).
Proof.
  intros Hap Hal. destruct l as [|q r]; simpl; [by constructor|].
  destruct (Qltb (fst q) (fst p)); constructor; [|done].
  by inversion Hal.
Qed.

Lemma insertByX_Sorted (p : Position) (l : list Position) :
  Sorted Xle l -> Sorted Xle (insertByX p l).
Proof.
  induction 1 as [|q r Hr IH Hq]; simpl; [by repeat constructor|].
  destruct (Qltb (fst q) (fst p)) eqn:E.
  - apply Qltb_lt in E. constructor; [done|].
    apply insertByX_HdRel; [|done]. unfold Xle. lra.
  - apply Qltb_ge in E. repeat constructor; done.
Qed.

Lemma sortByX_Sorted (l : list Position) : Sorted Xle (sortByX l).
Proof.
  induction l as [|p r IH]; [constructor|]. by apply insertByX_Sorted.
Qed.

Lemma consecutivePairs_length (l : list Position) :
  length (consecutivePairs l) = length l / 2.
Proof.
  induction l as [l IH] using (induction_ltof1 _ (@length _)); unfold ltof in IH.
  destruct l as [|a [|b rest]]; [done | done |].
  simpl consecutivePairs. simpl length. rewrite IH by (simpl; lia).
  change (S (S (length rest))) with (1 * 2 + length rest) at 1.
  rewrite Nat.add_comm, Nat.div_add by done. lia.
Qed.

Lemma consecutivePairs_lookup (l : list Position) (j : nat) (a b : Position) :
  l !! (2 * j) = Some a -> l !! (2 * j + 1) = Some b ->
  consecutivePairs l !! j = Some (a, b).
Proof.
  revert l. induction j as [|j IH]; intros l.
  - destruct l as [|a' [|b' rest]]; simpl; try discriminate. by intros [= ->] [= ->].
  - replace (2 * S j) with (S (S (2 * j))) by lia.
    destruct l as [|a' [|b' rest]]; simpl; try discriminate. apply IH.
Qed.

Lemma pairLoop_spec (coords : list Position) (i : nat) (flightLines : list Segment) :
  pairLoop coords i flightLines = flightLines ++ consecutivePairs (drop i coords).
Proof.
  funelim (pairLoop coords i flightLines);
    try match goal with IH : pairLoop _ _ _ = _ ++ _ |- _ => rewrite IH end.
  - rewrite drop_ge by lia. by rewrite app_nil_r.
  - match goal with Hi : coords !! i = Some _ |- _ => rewrite (drop_S _ _ _ Hi) end.
    match goal with Hi : coords !! (i + 1) = Some _ |- _ =>
      replace (i + 1) with (S i) in Hi by lia; rewrite (drop_S _ _ _ Hi) end.
    simpl. replace (i + 2) with (S (S i)) by lia. by rewrite <- app_assoc.
  - match goal with Hi : coords !! i = None |- _ => apply lookup_ge_None in Hi end. lia.
  - match goal with Hi : coords !! (i + 1) = None |- _ => apply lookup_ge_None in Hi end.
    destruct (lookup_lt_is_Some_2 coords i) as [a Ha]; [done|].
    rewrite (drop_S _ _ _ Ha), !drop_ge by lia. done.
Qed.

(** ** The sweep *)

Section Sweep.
Context `{Turf}.
Variables (rotatedFeature : Geometry) (minX maxX maxY step : Q).

Lemma sweepRow_spec (y : Q) (flightLines : list Segment) :
  sweepRow rotatedFeature minX maxX y flightLines
  = flightLines ++ consecutivePairs (sortByX (rowCrossings rotatedFeature minX maxX y)).
Proof.
  unfold sweepRow. fold (rowCrossings rotatedFeature minX maxX y).
  assert (length (rowCrossings rotatedFeature minX maxX y) <= 1 -> consecutivePairs (sortByX (rowCrossings rotatedFeature minX maxX y)) = [])
    as Hshort.
  { intros Hle. apply length_zero_iff_nil.
    rewrite consecutivePairs_length, (Permutation_length (sortByX_Permutation _)).
    destruct (rowCrossings rotatedFeature minX maxX y) as [|? [|? ?]]; simpl in *; [done | done | lia]. }
  destruct (decide (0 < _)); [destruct (decide (1 < _))|].
  - by rewrite pairLoop_spec, drop_0.
  - rewrite Hshort by lia. by rewrite app_nil_r.
  - rewrite Hshort by lia. by rewrite app_nil_r.
Qed.

Lemma sweepLoop_run (n : nat) :
  forall fuel y flightLines,
    n <= fuel ->
    (forall k, k < n -> (iterAdd y step k <= maxY)%Q) ->
    (maxY < iterAdd y step n)%Q ->
    sweepLoop fuel rotatedFeature minX maxX maxY step y flightLines
    = Some (flightLines ++
            concat ((fun k => consecutivePairs (sortByX (rowCrossings rotatedFeature minX maxX (iterAdd y step k))))
                      <$> seq 0 n)).
Proof.
  induction n as [|n IH]; intros fuel y flightLines Hfuel Hin Hout.
  - simpl in Hout. apply Qle_bool_gt in Hout.
    destruct fuel; simpl; rewrite Hout; by rewrite app_nil_r.
  - destruct fuel as [|fuel]; [lia|]. simpl sweepLoop.
    pose proof (Hin 0 ltac:(lia)) as H0. simpl in H0.
    apply Qle_bool_iff in H0. rewrite H0.
    rewrite (IH fuel (y + step)%Q); [|lia| |done].
    + rewrite sweepRow_spec, <- app_assoc. f_equal. f_equal.
      simpl. f_equal. f_equal.
      apply (fmap_seq_shift
               (fun k => consecutivePairs (sortByX (rowCrossings rotatedFeature minX maxX (iterAdd y step k))))).
    + intros k Hk. apply (Hin (S k)). lia.
Qed.

End Sweep.

Lemma coveragePath_run `{Turf} (geometry : Geometry) (bearing_ dST minX minY maxX maxY : Q) :
  let rotated := transformRotate geometry (- bearing_) (centerOfMass geometry) in
  let step := lengthToDegrees dST in
  let rows := loopCount minY maxY step in
  bbox rotated = (minX, minY, maxX, maxY) ->
  (0 < step)%Q ->
  forall fuel, rows <= fuel ->
    coveragePath fuel geometry bearing_ dST
    = Some (concat ((fun k => consecutivePairs
                                (sortByX (rowCrossings rotated minX maxX
                                            (iterAdd minY step k))))
                      <$> seq 0 rows)).
Proof.
  intros rotated step rows Hbox Hstep fuel Hfuel.
  unfold coveragePath. fold rotated. rewrite Hbox.
  rewrite (sweepLoop_run rotated minX maxX maxY step rows); [done | done | |].
  - intros k Hk. by apply loopCount_spec.
  - apply Qnot_le_lt. intros Hle. apply loopCount_spec in Hle; [|done].
    fold rows in Hle. lia.
Qed.

Lemma coveragePath_returns `{Turf} (geometry : Geometry) (bearing_ dST minX minY maxX maxY : Q) :
  bbox (transformRotate geometry (- bearing_) (centerOfMass geometry))
  = (minX, minY, maxX, maxY) ->
  (0 < lengthToDegrees dST)%Q ->
  exists lines, forall fuel,
    loopCount minY maxY (lengthToDegrees dST) <= fuel ->
    coveragePath fuel geometry bearing_ dST = Some lines.
Proof.
  intros Hbox Hstep. eexists. intros fuel Hfuel.
  by apply (coveragePath_run geometry bearing_ dST minX minY maxX maxY).
Qed.

(** C1.  With a positive row spacing (in degrees), the sweep visits the
    rows y = minY + k * step for exactly the k with y <= maxY, and the
    flight lines are, row after row, the crossings of the row with the
    rotated region sorted by ascending X and paired 1st-2nd, 3rd-4th, ...;
    a trailing unpaired crossing is dropped and a row with fewer than two
    crossings gives nothing. *)
Theorem C1_sweep_rows_pair_sorted_crossings `{Turf}
    (geometry : Geometry) (bearing_ dST minX minY maxX maxY : Q) :
  let rotated := transformRotate geometry (- bearing_) (centerOfMass geometry) in
  let step := lengthToDegrees dST in
  let rowY := iterAdd minY step in
  let crossings := fun y => lineIntersect ((minX, y), (maxX, y)) rotated in
  let rows := loopCount minY maxY step in
  bbox rotated = (minX, minY, maxX, maxY) ->
  (0 < step)%Q ->
  (forall k, (rowY k == minY + inject_Z (Z.of_nat k) * step)%Q) /\
  (forall k, k < rows <-> (rowY k <= maxY)%Q) /\
  (forall fuel, rows <= fuel ->
     coveragePath fuel geometry bearing_ dST
     = Some (concat ((fun k => consecutivePairs (sortByX (crossings (rowY k))))
                       <$> seq 0 rows))) /\
  (forall y, sortByX (crossings y) ≡ₚ crossings y /\
             Sorted Xle (sortByX (crossings y))) /\
  (forall sorted : list Position,
     length (consecutivePairs sorted) = length sorted / 2 /\
     forall j a b, sorted !! (2 * j) = Some a -> sorted !! (2 * j + 1) = Some b ->
                   consecutivePairs sorted !! j = Some (a, b)).
Proof.
  intros rotated step rowY crossings rows Hbox Hstep.
  split; [intros k; apply iterAdd_linear|].
  split; [intros k; by apply loopCount_spec|].
  split; [|split].
  - intros fuel Hfuel.
    by apply (coveragePath_run geometry bearing_ dST minX minY maxX maxY).
  - intros y. split; [apply sortByX_Permutation | apply sortByX_Sorted].
  - intros sorted. split; [apply consecutivePairs_length|].
    apply consecutivePairs_lookup.
Qed.

(** ** Waypoints along a flight line *)

Section Along.
Context `{Turf}.
Variables (line : Segment) (len dAT : Q).

Lemma alongLoop_run (n : nat) :
  forall fuel d waypointsOnLine,
    n <= fuel ->
    (forall k, k < n -> (iterAdd d dAT k <= len)%Q) ->
    (len < iterAdd d dAT n)%Q ->
    alongLoop fuel line len dAT d waypointsOnLine
    = Some (waypointsOnLine ++ ((fun k => along line (iterAdd d dAT k)) <$> seq 0 n)).
Proof.
  induction n as [|n IH]; intros fuel d acc Hfuel Hin Hout.
  - simpl in Hout. apply Qle_bool_gt in Hout.
    destruct fuel; simpl; rewrite Hout; by rewrite app_nil_r.
  - destruct fuel as [|fuel]; [lia|]. simpl alongLoop.
    pose proof (Hin 0 ltac:(lia)) as H0. simpl in H0.
    apply Qle_bool_iff in H0. rewrite H0.
    rewrite (IH fuel (d + dAT)%Q); [|lia| |done].
    + rewrite <- app_assoc. simpl. do 3 f_equal.
      apply (fmap_seq_shift (fun k => along line (iterAdd d dAT k))).
    + intros k Hk. apply (Hin (S k)). lia.
Qed.

End Along.

Lemma index_parity (index : nat) :
  (Nat.Even index -> index mod 2 = 0) /\ (Nat.Odd index -> index mod 2 ≠ 0).
Proof.
  split.
  - intros [m ->]. rewrite Nat.mul_comm. by apply Nat.Div0.mod_mul.
  - intros [m ->]. rewrite Nat.add_comm, Nat.mul_comm, Nat.Div0.mod_add. done.
Qed.

(** C2.  On a segment of positive length L, with a positive along-track
    spacing d, points are placed at the distances 0, d, 2d, ... that are
    at most L; the segment's endpoint is appended exactly when the last
    placed point is more than one meter from it, so the line ends at the
    endpoint or within one meter of it; the points of an odd-indexed
    segment are reversed and those of an even-indexed segment keep their
    order, the index being the position of the segment among the flight
    lines. *)
Theorem C2_points_along_segment `{Turf} (line : Segment) (dAT : Q) :
  let L := lineLength line in
  let dist := iterAdd 0 dAT in
  let count := loopCount 0 L dAT in
  let stepped := (fun k => along line (dist k)) <$> seq 0 count in
  (0 < L)%Q -> (0 < dAT)%Q ->
  (forall k, (dist k == inject_Z (Z.of_nat k) * dAT)%Q) /\
  (forall k, k < count <-> (dist k <= L)%Q) /\
  exists lastStepped points,
    last stepped = Some lastStepped /\
    ((1 < distance lastStepped (snd line))%Q -> points = stepped ++ [snd line]) /\
    ((distance lastStepped (snd line) <= 1)%Q -> points = stepped) /\
    (exists p, last points = Some p /\
               (p = snd line \/ (distance p (snd line) <= 1)%Q)) /\
    (forall fuel index, count <= fuel ->
       (Nat.Even index -> lineWaypoints fuel dAT index line = Returned points) /\
       (Nat.Odd index -> lineWaypoints fuel dAT index line = Returned (reverse points))) /\
    (forall fuel flightLines_ waypointsByLine,
       oforEach (lineWaypoints fuel dAT) 0 flightLines_ = Returned waypointsByLine ->
       length waypointsByLine = length flightLines_ /\
       forall index segment, flightLines_ !! index = Some segment ->
         exists pts, waypointsByLine !! index = Some pts /\
                     lineWaypoints fuel dAT index segment = Returned pts).
Proof.
  intros L dist count stepped HL Hd.
  assert (forall k, k < count <-> (dist k <= L)%Q) as Hcount
    by (intros k; by apply loopCount_spec).
  split; [intros k; unfold dist; rewrite iterAdd_linear; ring|].
  split; [done|].
  assert (0 < count) as Hpos by (apply Hcount; unfold dist; simpl; lra).
  assert (is_Some (last stepped)) as [lastStepped Hlast].
  { rewrite last_is_Some. unfold stepped. destruct count; [lia | done]. }
  assert (forall fuel, count <= fuel ->
            alongLoop fuel line L dAT 0 [] = Some stepped) as Hloop.
  { intros fuel Hfuel. rewrite (alongLoop_run line L dAT count); [done | done | |].
    - intros k Hk. by apply Hcount.
    - apply Qnot_le_lt. intros Hle. apply Hcount in Hle. lia. }
  set (points := if Qltb 1 (distance lastStepped (snd line))
                 then stepped ++ [snd line] else stepped).
  assert (ensureEndpoint line L stepped = Returned points) as Hend.
  { unfold ensureEndpoint. apply Qltb_lt in HL. rewrite HL, Hlast.
    unfold points. by destruct (Qltb 1 _). }
  exists lastStepped, points. split; [done|].
  split; [|split; [|split; [|split]]].
  - intros Hfar. apply Qltb_lt in Hfar. unfold points. by rewrite Hfar.
  - intros Hnear. apply Qltb_ge in Hnear. unfold points. by rewrite Hnear.
  - unfold points. destruct (Qltb 1 _) eqn:E.
    + exists (snd line). rewrite last_snoc. auto.
    + exists lastStepped. apply Qltb_ge in E. auto.
  - intros fuel index Hfuel. unfold lineWaypoints. fold L.
    rewrite (Hloop fuel Hfuel), Hend. cbn [obind].
    destruct (index_parity index) as [Heven Hodd].
    split; intros Hi; destruct (decide (index mod 2 ≠ 0)) as [Hm|Hm];
      first [ reflexivity
            | by destruct (Hm (Heven Hi))
            | by destruct (Hm (Hodd Hi)) ].
  - intros fuel lines byLine Hrun.
    destruct (oforEach_Returned _ _ _ _ Hrun) as [Hlen Hnth]. split; [done|].
    intros index segment Hseg. apply (Hnth index segment Hseg).
Qed.

(** ** getElevations *)

Lemma storeBatch_length (elevation all : list (option Q)) :
  forall k, length (storeBatch k elevation all) = length all.
Proof.
  revert all. induction elevation as [|e rest IH]; intros all k; simpl; [done|].
  by rewrite IH, length_insert.
Qed.

Lemma storeBatch_lookup (elevation : list (option Q)) :
  forall k (all : list (option Q)) j,
    k + length elevation <= length all ->
    storeBatch k elevation all !! j
    = if decide (k <= j < k + length elevation) then elevation !! (j - k) else all !! j.
Proof.
  induction elevation as [|e rest IH]; intros k all j Hlen; simpl in *.
  - destruct (decide _); [lia | done].
  - rewrite IH by (rewrite length_insert; lia).
    destruct (decide (S k <= j < S k + length rest)) as [Hin|Hout].
    + rewrite decide_True by lia. by replace (j - k) with (S (j - S k)) by lia.
    + destruct (decide (j = k)) as [->|Hne].
      * rewrite decide_True by lia. rewrite Nat.sub_diag. simpl.
        apply list_lookup_insert_eq. lia.
      * rewrite decide_False by lia. by apply list_lookup_insert_ne.
Qed.

(** Every index written by [storeBatch] is inside the array whenever one
    entry per position of the batch is delivered. *)
Lemma storeBatch_length_ok {A} (waypoints : list A) (i : nat) (elevation : list (option Q)) :
  i < length waypoints ->
  length elevation = length (slice waypoints i (i + BATCH_SIZE)) ->
  i + length elevation <= length waypoints.
Proof.
  unfold slice. rewrite length_take, length_drop. lia.
Qed.

Lemma batchStart_in_batch (i j : nat) :
  i mod BATCH_SIZE = 0 -> i <= j < i + BATCH_SIZE -> batchStart j = i.
Proof.
  unfold batchStart, BATCH_SIZE. intros Hi Hj.
  pose proof (Nat.div_mod_eq i 50). pose proof (Nat.div_mod_eq j 50).
  pose proof (Nat.mod_upper_bound j 50). 
  assert (j / 50 = i / 50); [|lia]. 
  assert (i / 50 <= j / 50) by (apply Nat.Div0.div_le_mono; lia).
  assert (j / 50 < i / 50 + 1); [|lia].
  apply Nat.Div0.div_lt_upper_bound. lia.
Qed.

Lemma catchBatch_tryBatch (server : Server) (wps : list Waypoint) (i : nat)
    (all : list (option Q)) :
  i mod BATCH_SIZE = 0 -> i < length wps ->
  catchBatch (tryBatch (server i (slice wps i (i + BATCH_SIZE))) i
                (slice wps i (i + BATCH_SIZE)) all) all
  = Returned (match batchPayload server wps i with
              | Some elevation => storeBatch i elevation all
              | None => all
              end).
Proof.
  intros Hi Hlt. unfold batchPayload.
  rewrite (batchStart_in_batch i i Hi) by (unfold BATCH_SIZE; lia).
  destruct (server i _) as [|[]| |[|elevation]]; simpl; try done.
  destruct (decide (length elevation ≠ _)), (decide (length elevation = _)); done.
Qed.

Lemma batchLoop_spec (server : Server) (wps : list Waypoint) (i : nat)
    (all : list (option Q)) :
  i mod BATCH_SIZE = 0 ->
  length all = length wps ->
  (forall j, i <= j < length wps -> all !! j = Some None) ->
  exists out,
    batchLoop server wps i all = Returned out /\
    length out = length wps /\
    (forall j, j < i -> out !! j = all !! j) /\
    (forall j, i <= j < length wps ->
       out !! j = Some (expectedElevation server wps j)).
Proof.
  funelim (batchLoop server wps i all); intros Hi Hlen Hnull;
    match goal with ws : list Waypoint |- _ => rename ws into wps end.
  - rewrite catchBatch_tryBatch by done. cbn [obind].
    match goal with IH : forall _, _ -> _ -> _ -> exists _, _ |- _ => rename IH into IH' end.
    assert (forall j, batchStart j = i ->
              batchPayload server wps j = batchPayload server wps i) as Hsame.
    { intros j Hj. unfold batchPayload.
      by rewrite Hj, (batchStart_in_batch i i Hi) by (unfold BATCH_SIZE; lia). }
    assert (match batchPayload server wps i with
            | Some elevation => length elevation = Nat.min BATCH_SIZE (length wps - i)
            | None => True
            end) as Hpay.
    { unfold batchPayload.
      rewrite (batchStart_in_batch i i Hi) by (unfold BATCH_SIZE; lia).
      destruct (server i _) as [|[]| |[|es]]; try done.
      destruct (decide (length es = _)) as [Hes|]; [|done]. rewrite Hes.
      unfold slice. rewrite length_take, length_drop. lia. }
    set (all' := match batchPayload server wps i with
                 | Some elevation => storeBatch i elevation allElevations
                 | None => allElevations
                 end).
    assert (length all' = length wps) as Hlen'.
    { unfold all'. destruct (batchPayload _ _ _); [by rewrite storeBatch_length | done]. }
    assert (forall j, all' !! j
              = match batchPayload server wps i with
                | Some elevation =>
                    if decide (i <= j < i + length elevation)
                    then elevation !! (j - i) else allElevations !! j
                | None => allElevations !! j
                end) as Hall'.
    { intros j. unfold all'. destruct (batchPayload _ _ _) as [es|] eqn:E; [|done].
      apply storeBatch_lookup. rewrite Hpay. lia. }
    destruct (IH' all') as (out & Hout & Hlenout & Hold & Hnew).
    + unfold BATCH_SIZE in *. rewrite <- Nat.Div0.add_mod_idemp_l, Hi. done.
    + done.
    + intros j Hj. rewrite Hall'. destruct (batchPayload _ _ _) as [es|] eqn:E.
      * rewrite decide_False by (rewrite Hpay; lia). apply Hnull. lia.
      * apply Hnull. lia.
    + exists out. split; [done|]. split; [done|]. split.
      * intros j Hj. rewrite Hold by lia. rewrite Hall'.
        destruct (batchPayload _ _ _) as [es|]; [|done].
        by rewrite decide_False by lia.
      * intros j Hj. destruct (decide (j < i + BATCH_SIZE)) as [Hin|Hout'].
        -- rewrite Hold by done. rewrite Hall'. unfold expectedElevation.
           assert (batchStart j = i) as Hstart by (apply batchStart_in_batch; [done|lia]).
           rewrite (Hsame j Hstart), Hstart.
           destruct (batchPayload _ _ _) as [es|] eqn:E; [|apply Hnull; lia].
           rewrite decide_True by (rewrite Hpay; lia).
           destruct (lookup_lt_is_Some_2 es (j - i)) as [v Hv];
             [rewrite Hpay; lia|].
           by rewrite Hv.
        -- apply Hnew. lia.
  - exists allElevations. split; [done|]. split; [done|]. split; [done|].
    intros j Hj. lia.
Qed.

Lemma getElevations_spec (server : Server) (wps : list Waypoint) :
  exists out,
    getElevations server wps = Returned out /\
    length out = length wps /\
    forall j, j < length wps ->
      out !! j = Some (expectedElevation server wps j).
Proof.
  unfold getElevations. destruct (decide (length wps = 0)) as [Hz|Hnz].
  - exists []. split; [done|]. split; [done|]. intros j Hj. lia.
  - destruct (batchLoop_spec server wps 0 (replicate (length wps) None))
      as (out & Hout & Hlen & _ & Hnew).
    + done.
    + apply length_replicate.
    + intros j Hj. apply lookup_replicate_2. lia.
    + exists out. split; [done|]. split; [done|]. intros j Hj. apply Hnew. lia.
Qed.

(** C7.  For every behaviour of the elevation service, [getElevations]
    returns (it never throws) an array with one entry per input waypoint,
    in input order; positions are served in batches of 50 consecutive
    positions; the positions of a batch that fails - the request rejects,
    the response is not ok, the body does not parse, has no elevation
    array, or has the wrong number of entries - stay unknown, and every
    other batch, before or after it, still delivers its entries; an empty
    input gives an empty array. *)
Theorem C7_elevations_by_batches (server : Server) (wps : list Waypoint) :
  exists out,
    getElevations server wps = Returned out /\
    length out = length wps /\
    BATCH_SIZE = 50 /\
    (forall j, j < length wps ->
       let start := j / 50 * 50 in
       let batch := slice wps start (start + 50) in
       match server start batch with
       | Json (Elevation elevation) =>
           if decide (length elevation = length batch)
           then out !! j = elevation !! (j - start)
           else out !! j = Some None
       | _ => out !! j = Some None
       end) /\
    (wps = [] -> out = []).
Proof.
  destruct (getElevations_spec server wps) as (out & Hout & Hlen & Hnth).
  exists out. split; [done|]. split; [done|]. split; [done|]. split.
  - intros j Hj start batch. specialize (Hnth j Hj).
    unfold expectedElevation, batchPayload in Hnth.
    change (batchStart j) with start in Hnth.
    change (start + BATCH_SIZE) with (start + 50) in Hnth. fold batch in Hnth.
    destruct (server start batch) as [|[]| |[|elevation]]; try done.
    destruct (decide (length elevation = length batch)) as [Hes|]; [|done].
    rewrite Hnth.
    destruct (lookup_lt_is_Some_2 elevation (j - start)) as [v Hv]; [|by rewrite Hv].
    rewrite Hes. unfold batch, slice. rewrite length_take, length_drop.
    assert (start <= j < start + 50); [|lia].
    unfold start. pose proof (Nat.div_mod_eq j 50).
    pose proof (Nat.mod_upper_bound j 50). lia.
  - intros ->. by destruct out.
Qed.

(** ** binary64 *)

Lemma pow2_pos (k : Z) : (0 < pow2 k)%Q.
Proof. by apply Qpower_0_lt. Qed.

Lemma roundHalfEven_near (y : Q) :
  (Qabs (inject_Z (roundHalfEven y) - y) <= 1 # 2)%Q.
Proof.
  unfold roundHalfEven. pose proof (Qfloor_le y) as Hlo.
  pose proof (Qlt_floor y) as Hhi. rewrite inject_Z_plus in Hhi.
  change (inject_Z 1) with 1%Q in Hhi.
  apply Qabs_Qle_condition.
  destruct (Qcompare_spec (y - inject_Z (Qfloor y)) (1 # 2)) as [He|Hlt|Hgt].
  - destruct (Z.even (Qfloor y)); rewrite ?inject_Z_plus;
      change (inject_Z 1) with 1%Q; split; lra.
  - split; lra.
  - rewrite inject_Z_plus. change (inject_Z 1) with 1%Q. split; lra.
Qed.

Lemma roundHalfEven_nonneg (y : Q) : (0 <= y)%Q -> (0 <= roundHalfEven y)%Z.
Proof.
  intros Hy. assert (0 <= Qfloor y)%Z as Hf.
  { change 0%Z with (Qfloor 0). by apply Qfloor_resp_le. }
  unfold roundHalfEven.
  destruct (_ ?= _)%Q; [destruct (Z.even _)|..]; lia.
Qed.

Lemma b64_zero (x : Q) : (x == 0)%Q -> b64 x = 0%Q.
Proof. intros Hx. unfold b64. apply Qeq_bool_iff in Hx. by rewrite Hx. Qed.

(** Rounding keeps the sign. *)
Lemma b64_nonneg (x : Q) : (0 <= x)%Q -> (0 <= b64 x)%Q.
Proof.
  intros Hx. unfold b64. destruct (Qeq_bool x 0); [done|].
  apply Qltb_ge in Hx as Hneg. rewrite Hneg. rewrite Qred_correct.
  apply Qmult_le_0_compat; [|apply Qlt_le_weak, pow2_pos].
  change 0%Q with (inject_Z 0). rewrite <- Zle_Qle.
  apply roundHalfEven_nonneg. apply Qle_shift_div_l; [apply pow2_pos|].
  rewrite Qmult_0_l. apply Qabs_nonneg.
Qed.

Lemma pow2_inject (n : Z) : (0 <= n)%Z -> (pow2 n == inject_Z (2 ^ n))%Q.
Proof. intros Hn. unfold pow2. by rewrite Zpower_Qpower. Qed.

Lemma pow2_minus (n m : Z) : (pow2 (n - m) == pow2 n / pow2 m)%Q.
Proof. unfold pow2. by apply Qpower_minus. Qed.

Lemma pow2_plus (n m : Z) : (pow2 (n + m) == pow2 n * pow2 m)%Q.
Proof. unfold pow2. by apply Qpower_plus. Qed.

Lemma pow2_le (n m : Z) : (n <= m)%Z -> (pow2 n <= pow2 m)%Q.
Proof. intros Hnm. by apply Qpower_le_compat_l. Qed.

(** [ilog2] is the integer part of the binary logarithm. *)
Lemma ilog2_spec (a : Q) :
  (0 < a)%Q -> (pow2 (ilog2 a) <= a < pow2 (ilog2 a + 1))%Q.
Proof.
  intros Ha. destruct a as [p q].
  assert (0 < p)%Z as Hp by (unfold Qlt in Ha; simpl in Ha; lia).
  pose proof (Z.log2_spec p Hp) as [Hp1 Hp2].
  pose proof (Z.log2_spec (Zpos q) eq_refl) as [Hq1 Hq2].
  pose proof (Z.log2_nonneg p) as Hlp. pose proof (Z.log2_nonneg (Zpos q)) as Hlq.
  set (lp := Z.log2 p) in *. set (lq := Z.log2 (Zpos q)) in *.
  replace (Z.succ lp) with (lp + 1)%Z in Hp2 by lia.
  replace (Z.succ lq) with (lq + 1)%Z in Hq2 by lia.
  rewrite Z.pow_add_r in Hp2, Hq2 by lia.
  change (2 ^ 1)%Z with 2%Z in Hp2, Hq2.
  assert (0 < 2 ^ lp)%Z as Hpp by (apply Z.pow_pos_nonneg; lia).
  assert (0 < 2 ^ lq)%Z as Hpq by (apply Z.pow_pos_nonneg; lia).
  assert (pow2 (lp - lq) == inject_Z (2 ^ lp) / inject_Z (2 ^ lq))%Q as Hk
    by (by rewrite pow2_minus, !pow2_inject).
  assert (0 < inject_Z (2 ^ lq))%Q as Hq0 by (by rewrite <- (Zlt_Qlt 0)).
  assert (0 < inject_Z (2 ^ lp))%Q as Hp0 by (by rewrite <- (Zlt_Qlt 0)).
  assert (p # q < 2 * (inject_Z (2 ^ lp) / inject_Z (2 ^ lq)))%Q as Hup.
  { assert (2 * (inject_Z (2 ^ lp) / inject_Z (2 ^ lq))
            == inject_Z (2 * 2 ^ lp) / inject_Z (2 ^ lq))%Q as ->.
    { rewrite inject_Z_mult. change (inject_Z 2) with 2%Q. field. lra. }
    apply Qlt_shift_div_l; [done|].
    unfold Qlt, Qmult, inject_Z. cbn [Qnum Qden]. rewrite Pos.mul_1_r.
    generalize dependent (2 ^ lp)%Z. generalize dependent (2 ^ lq)%Z. intros. nia. }
  assert (inject_Z (2 ^ lp) / inject_Z (2 ^ lq) / 2 <= p # q)%Q as Hlow.
  { assert (inject_Z (2 ^ lp) / inject_Z (2 ^ lq) / 2
            == inject_Z (2 ^ lp) / inject_Z (2 * 2 ^ lq))%Q as ->.
    { rewrite inject_Z_mult. change (inject_Z 2) with 2%Q. field. lra. }
    apply Qle_shift_div_r; [rewrite <- (Zlt_Qlt 0); lia|].
    unfold Qle, Qmult, inject_Z. cbn [Qnum Qden]. rewrite Pos.mul_1_r.
    generalize dependent (2 ^ lp)%Z. generalize dependent (2 ^ lq)%Z. intros. nia. }
  assert (forall k, pow2 (k + 1) == 2 * pow2 k)%Q as Hsucc.
  { intros k. rewrite pow2_plus. change (pow2 1) with 2%Q. ring. }
  unfold ilog2. cbn [Qnum Qden]. fold lp lq.
  destruct (Qle_bool (pow2 (lp - lq)) (p # q)) eqn:E.
  - apply Qle_bool_iff in E. split; [done|]. by rewrite Hsucc, Hk.
  - assert (p # q < pow2 (lp - lq))%Q as Hlt.
    { apply Qnot_le_lt. intros Hle. apply Qle_bool_iff in Hle. congruence. }
    replace (lp - lq - 1 + 1)%Z with (lp - lq)%Z by lia. split; [|done].
    assert (pow2 (lp - lq - 1) == inject_Z (2 ^ lp) / inject_Z (2 ^ lq) / 2)%Q as ->;
      [|done].
    rewrite <- Hk. replace (lp - lq)%Z with (lp - lq - 1 + 1)%Z at 2 by lia.
    rewrite Hsucc. field.
Qed.

Lemma roundHalfEven_bounds (y : Q) (n : Z) :
  (0 <= y)%Q -> (y <= inject_Z n)%Q -> (0 <= roundHalfEven y <= n)%Z.
Proof.
  intros Hy Hn. assert (0 <= Qfloor y)%Z as Hf.
  { change 0%Z with (Qfloor 0). by apply Qfloor_resp_le. }
  pose proof (Qfloor_le y) as Hlo.
  unfold roundHalfEven.
  destruct (Qcompare_spec (y - inject_Z (Qfloor y)) (1 # 2)) as [He|Hlt|Hgt].
  - assert (Qfloor y < n)%Z; [|destruct (Z.even _); lia].
    rewrite Zlt_Qlt. lra.
  - split; [lia|]. rewrite Zle_Qle. lra.
  - assert (Qfloor y < n)%Z; [|lia]. rewrite Zlt_Qlt. lra.
Qed.

(** What [b64] gives is a binary64 number next to the exact value: it is
    [m * 2^e] with [|m| <= 2^53] and [-1074 <= e], where [2^e] is the
    distance between neighbouring binary64 numbers at the exact value
    ([2^(e+52)] does not exceed its magnitude, unless [e] is the least
    exponent), and it is at most half of that distance away. *)
Lemma b64_near (x : Q) :
  exists (m e : Z),
    (-1074 <= e)%Z /\ (Z.abs m <= 2 ^ 53)%Z /\
    (b64 x == inject_Z m * pow2 e)%Q /\
    (Qabs (b64 x - x) <= pow2 e / 2)%Q /\
    (e = (-1074)%Z \/ (pow2 (e + 52) <= Qabs x)%Q).
Proof.
  unfold b64. destruct (Qeq_bool x 0) eqn:Hz.
  - apply Qeq_bool_iff in Hz. exists 0%Z, (-1074)%Z. split; [done|].
    split; [done|]. split; [by rewrite Qmult_0_l|].
    split; [|by left]. rewrite Hz. discriminate.
  - assert (0 < Qabs x)%Q as Ha.
    { destruct (Qlt_le_dec x 0) as [Hneg|Hpos].
      - rewrite Qabs_neg by lra. lra.
      - rewrite Qabs_pos by done. destruct (Qlt_le_dec 0 x) as [|Hle]; [done|].
        assert (x == 0)%Q as H0 by lra. apply Qeq_bool_iff in H0. congruence. }
    destruct (ilog2_spec (Qabs x) Ha) as [Hlow Hup].
    set (L := ilog2 (Qabs x)) in *.
    set (e := Z.max (L - 52) (-1074)).
    set (m := roundHalfEven (Qabs x / pow2 e)).
    pose proof (pow2_pos e) as He.
    pose proof (roundHalfEven_near (Qabs x / pow2 e)) as Hm. fold m in Hm.
    assert (0 <= m <= 2 ^ 53)%Z as Hrange.
    { apply roundHalfEven_bounds.
      - apply Qle_shift_div_l; [done|]. lra.
      - apply Qle_shift_div_r; [done|]. rewrite <- (pow2_inject 53) by done.
        rewrite Qmult_comm, <- pow2_plus.
        apply Qlt_le_weak. eapply Qlt_le_trans; [exact Hup|].
        apply pow2_le. lia. }
    assert (e = (-1074)%Z \/ (pow2 (e + 52) <= Qabs x)%Q) as Hexp.
    { destruct (Z.max_spec (L - 52) (-1074)) as [[_ Hmax]|[_ Hmax]]; fold e in Hmax.
      - by left.
      - right. by replace (e + 52)%Z with L by lia. }
    assert (Qabs (inject_Z m * pow2 e - Qabs x) <= pow2 e / 2)%Q as Hr.
    { assert (inject_Z m * pow2 e - Qabs x
              == (inject_Z m - Qabs x / pow2 e) * pow2 e)%Q as ->
        by (field; lra).
      rewrite Qabs_Qmult, (Qabs_pos (pow2 e)) by lra.
      assert (pow2 e / 2 == (1 # 2) * pow2 e)%Q as -> by field.
      apply Qmult_le_compat_r; [done | lra]. }
    destruct (Qltb x 0) eqn:Hneg.
    + apply Qltb_lt in Hneg. rewrite (Qabs_neg x) in Hr by lra.
      exists (- m)%Z, e. split; [lia|]. split; [lia|]. rewrite Qred_correct.
      split; [rewrite inject_Z_opp; ring|]. split; [|done].
      assert (- (inject_Z m * pow2 e) - x == - (inject_Z m * pow2 e - - x))%Q as ->
        by ring.
      by rewrite Qabs_opp.
    + apply Qltb_ge in Hneg. rewrite (Qabs_pos x) in Hr by lra.
      exists m, e. split; [lia|]. split; [lia|]. rewrite Qred_correct. done.
Qed.

(** ** Rounding to two decimals *)

Lemma toFixedN_bounds (x : Q) :
  (inject_Z (toFixedN x) <= Qabs x * 100 + (1 # 2) < inject_Z (toFixedN x) + 1)%Q.
Proof.
  unfold toFixedN. split; [apply Qfloor_le|].
  rewrite <- (inject_Z_plus _ 1). apply Qlt_floor.
Qed.

Lemma toFixed2Value_spec (x : Q) :
  (exists n : Z, toFixed2Value x == inject_Z n / 100)%Q /\
  (Qabs (toFixed2Value x - x) <= 1 # 200)%Q.
Proof.
  pose proof (toFixedN_bounds x) as [Hlo Hhi]. unfold toFixed2Value.
  assert (forall q : Q, q / 100 == q * (1 # 100))%Q as Hdiv by (intros q; field).
  destruct (Qltb x 0) eqn:E.
  - apply Qltb_lt in E. rewrite (Qabs_neg x) in Hlo, Hhi by lra. split.
    + exists (- toFixedN x)%Z. rewrite inject_Z_opp, !Hdiv. ring.
    + apply Qabs_Qle_condition. rewrite Hdiv. split; lra.
  - apply Qltb_ge in E. rewrite (Qabs_pos x) in Hlo, Hhi by lra. split.
    + by exists (toFixedN x).
    + apply Qabs_Qle_condition. rewrite Hdiv. split; lra.
Qed.

(** ** The terrain merge *)

Section Merge.
Variables (altitude_ : Q) (elevations : list (option Q)).

Lemma mergeWaypoint_spec (k : nat) (wp : Waypoint) :
  k < length elevations ->
  mergeWaypoint altitude_ elevations k wp
  = (Some (mergedWaypoint altitude_ (mjoin (elevations !! k)) wp), S k).
Proof.
  intros Hk. unfold mergeWaypoint.
  destruct (lookup_lt_is_Some_2 elevations k Hk) as [[e|] ->]; done.
Qed.

Lemma mergeLine_spec (line : list Waypoint) :
  forall k, k + length line <= length elevations ->
    mergeLine altitude_ elevations k line
    = (Some (imap (fun i wp =>
                     mergedWaypoint altitude_ (mjoin (elevations !! (k + i))) wp) line),
       k + length line).
Proof.
  induction line as [|wp rest IH]; intros k Hk; simpl in *.
  - by rewrite Nat.add_0_r.
  - rewrite mergeWaypoint_spec by lia. rewrite IH by lia.
    rewrite Nat.add_0_r. f_equal; [|lia]. do 2 f_equal.
    apply imap_ext. intros i x _. simpl. by rewrite Nat.add_succ_r.
Qed.

Lemma mergeLines_spec (lines : list (list Waypoint)) :
  forall k, k + length (concat lines) <= length elevations ->
    exists lines',
      mergeLines altitude_ elevations k lines
      = (Some lines', k + length (concat lines)) /\
      length <$> lines' = length <$> lines /\
      concat lines'
      = imap (fun i wp =>
                mergedWaypoint altitude_ (mjoin (elevations !! (k + i))) wp)
          (concat lines).
Proof.
  induction lines as [|line rest IH]; intros k Hk; simpl in *.
  - exists []. by rewrite Nat.add_0_r.
  - rewrite length_app in Hk. rewrite mergeLine_spec by lia.
    destruct (IH (k + length line)) as (rest' & -> & Hlens & Hcat); [lia|].
    eexists. split; [|split].
    + rewrite length_app. f_equal. lia.
    + by rewrite !fmap_cons, length_imap, Hlens.
    + simpl. rewrite Hcat, imap_app. f_equal.
      apply imap_ext. intros i x _. simpl. by rewrite Nat.add_assoc.
Qed.

End Merge.

(** C6.  The terrain handler pairs the canonical waypoints, flattened in
    order, with the elevation samples by position: a waypoint whose sample
    is a number e gets the altitude (e + FlightParams.altitude) rounded to
    two decimals and keeps its other fields; a waypoint whose sample is
    unknown is left as it was; the lines keep their lengths, the filtered
    view is not touched, and the handler completes whatever mix of known
    and unknown samples the service delivers.  The rounding is that of the
    program: the sum is the binary64 sum, the two-decimal number is the
    one nearest to that sum (at most 1/200 away, away from zero on a tie),
    and the altitude is the binary64 number nearest to it, where rounding
    to binary64 gives a number m * 2^e of 53 bits at most half a step 2^e
    away.  (The samples and the flight altitude are the binary64 numbers
    the program holds.) *)
Theorem C6_terrain_merge (server : Server) (st : AppState) :
  let flat := concat (st_originalWaypoints st) in
  let a := fp_altitude (st_flightParams st) in
  flat ≠ [] ->
  exists elevations lines',
    getElevations server flat = Returned elevations /\
    length elevations = length flat /\
    handleFetchTerrainData server st
    = Some (setOriginalWaypoints lines' (setError None st)) /\
    st_waypoints (setOriginalWaypoints lines' (setError None st)) = st_waypoints st /\
    length <$> lines' = length <$> st_originalWaypoints st /\
    (forall i wp, flat !! i = Some wp ->
       exists sample, elevations !! i = Some sample /\
         match sample with
         | Some e =>
             exists wp', concat lines' !! i = Some wp' /\
               altitude wp' = b64 (toFixed2Value (b64 (e + a))) /\
               lat wp' = lat wp /\ lng wp' = lng wp /\ heading wp' = heading wp /\
               gimbalPitch wp' = gimbalPitch wp /\ speed wp' = speed wp
         | None => concat lines' !! i = Some wp
         end) /\
    (forall x : Q, (exists n : Z, toFixed2Value x == inject_Z n / 100)%Q /\
                   (Qabs (toFixed2Value x - x) <= 1 # 200)%Q) /\
    (forall x : Q,
       exists (m e : Z),
         (-1074 <= e)%Z /\ (Z.abs m <= 2 ^ 53)%Z /\
         (b64 x == inject_Z m * pow2 e)%Q /\
         (Qabs (b64 x - x) <= pow2 e / 2)%Q /\
         (e = (-1074)%Z \/ (pow2 (e + 52) <= Qabs x)%Q)).
Proof.
  intros flat a Hne.
  destruct (getElevations_spec server flat) as (elevations & Hget & Hlen & _).
  destruct (mergeLines_spec a elevations (st_originalWaypoints st) 0)
    as (lines' & Hmerge & Hlens & Hcat); [fold flat; lia|].
  exists elevations, lines'. split; [done|]. split; [done|]. split; [|split; [done|]].
  - unfold handleFetchTerrainData. fold flat.
    destruct (decide (length flat = 0)) as [Hz|_];
      [by apply length_zero_iff_nil in Hz|].
    simpl. fold flat. rewrite Hget. fold a. by rewrite Hmerge.
  - split; [done|]. split; [|split; [apply toFixed2Value_spec | apply b64_near]].
    intros i wp Hwp. fold flat in Hcat.
    destruct (lookup_lt_is_Some_2 elevations i) as [sample Hs].
    { rewrite Hlen. by eapply lookup_lt_Some. }
    exists sample. split; [done|].
    assert (concat lines' !! i = Some (mergedWaypoint a sample wp)) as Hi.
    { rewrite Hcat, list_lookup_imap, Hwp. simpl. by rewrite Hs. }
    destruct sample as [e|]; [|done].
    eexists. split; [exact Hi|]. done.
Qed.

(** ** The waypoint filter *)

Lemma pushFeatures_spec (features : list PolygonCoords) (start count : nat) :
  forall out,
    pushFeatures features start count out
    = out ++ omap (fun i => features !! i) (seq start count).
Proof.
  unfold pushFeatures.
  induction count as [|count IH]; intros out; [by rewrite app_nil_r|].
  rewrite !seq_S, foldl_app, omap_app, IH. simpl.
  destruct (features !! (start + count)); by rewrite ?app_nil_r, <- ?app_assoc.
Qed.

Section Filter.
Variables (p : FilterParams) (features : list PolygonCoords).

Lemma filterLine_spec (kept : list Waypoint) (keptFeatures : list PolygonCoords)
    (k : nat) (line : list Waypoint) :
  filterLine p features (kept, keptFeatures, k) line
  = (kept ++ keepEnds p line,
     keptFeatures ++ omap (fun i => features !! i) (linePositions p k (length line)),
     k + length line).
Proof.
  unfold filterLine, keepEnds, linePositions.
  destruct (decide (length line ≤ keepStart p + keepEnd p)).
  - by rewrite pushFeatures_spec.
  - rewrite !pushFeatures_spec, omap_app, <- app_assoc.
    unfold slice. by rewrite drop_0, Nat.sub_0_r.
Qed.

Lemma foldl_filterLine (lines : list (list Waypoint)) :
  forall kept keptFeatures k,
    foldl (filterLine p features) (kept, keptFeatures, k) lines
    = (kept ++ concat (keepEnds p <$> lines),
       keptFeatures ++ omap (fun i => features !! i) (keptPositions p k lines),
       k + length (concat lines)).
Proof.
  induction lines as [|line rest IH]; intros kept keptFeatures k.
  - simpl. by rewrite !app_nil_r, Nat.add_0_r.
  - rewrite fmap_cons. cbn [foldl concat keptPositions].
    rewrite filterLine_spec, IH, omap_app, length_app, <- !app_assoc.
    f_equal. lia.
Qed.

Lemma seq_slice_Forall2 {A} (l : list A) (a n : nat) :
  a + n <= length l ->
  Forall2 (fun pos x => l !! pos = Some x) (seq a n) (take n (drop a l)).
Proof.
  intros Hlen. apply Forall2_same_length_lookup_2.
  - rewrite length_seq, length_take, length_drop. lia.
  - intros i pos x Hpos Hx. apply lookup_seq in Hpos as [-> Hi].
    by rewrite lookup_take_lt, lookup_drop in Hx.
Qed.

Lemma keepEnds_positions {A} (line pre post : list A) :
  Forall2 (fun pos x => (pre ++ line ++ post) !! pos = Some x)
    (linePositions p (length pre) (length line)) (keepEnds p line).
Proof.
  unfold keepEnds, linePositions.
  assert (drop (length pre) (pre ++ line ++ post) = line ++ post) as Hdrop
    by apply drop_app_length.
  assert (forall a n, a + n <= length line ->
            Forall2 (fun pos x => (pre ++ line ++ post) !! pos = Some x)
              (seq (length pre + a) n) (take n (drop a line))) as Hpiece.
  { intros a n Han.
    pose proof (seq_slice_Forall2 (pre ++ line ++ post) (length pre + a) n) as HF.
    rewrite <- drop_drop, Hdrop, drop_app_le, take_app_le in HF
      by (rewrite ?length_drop; lia).
    apply HF. rewrite !length_app. lia. }
  destruct (decide (length line ≤ keepStart p + keepEnd p)) as [Hshort|Hlong].
  - specialize (Hpiece 0 (length line)).
    rewrite Nat.add_0_r, drop_0, take_ge in Hpiece by lia. apply Hpiece. lia.
  - apply Forall2_app.
    + specialize (Hpiece 0 (keepStart p)).
      rewrite Nat.add_0_r, drop_0 in Hpiece. apply Hpiece. lia.
    + specialize (Hpiece (length line - keepEnd p) (keepEnd p)).
      rewrite take_ge in Hpiece by (rewrite length_drop; lia). apply Hpiece. lia.
Qed.

Lemma keptPositions_waypoints {A} (lines : list (list A)) :
  forall pre,
    Forall2 (fun pos x => (pre ++ concat lines) !! pos = Some x)
      (keptPositions p (length pre) lines) (concat (keepEnds p <$> lines)).
Proof.
  induction lines as [|line rest IH]; intros pre; simpl; [constructor|].
  apply Forall2_app; [apply keepEnds_positions|].
  specialize (IH (pre ++ line)). by rewrite length_app, <- app_assoc in IH.
Qed.

Lemma keptPositions_bounds {A} (lines : list (list A)) :
  forall k, Forall (fun pos => k <= pos < k + length (concat lines))
              (keptPositions p k lines).
Proof.
  induction lines as [|line rest IH]; intros k; simpl; [constructor|].
  rewrite length_app. apply Forall_app. split.
  - unfold linePositions. destruct (decide _); rewrite ?Forall_app, !Forall_forall;
      [|split]; intros pos Hpos%elem_of_seq; lia.
  - eapply Forall_impl; [apply IH|]. simpl. intros pos Hpos. lia.
Qed.

Lemma seq_StronglySorted (a n : nat) : StronglySorted lt (seq a n).
Proof.
  revert a. induction n as [|n IH]; intros a; simpl; constructor; [apply IH|].
  apply Forall_forall. intros x Hx%elem_of_seq. lia.
Qed.

Lemma keptPositions_StronglySorted {A} (lines : list (list A)) :
  forall k, StronglySorted lt (keptPositions p k lines).
Proof.
  induction lines as [|line rest IH]; intros k; simpl; [constructor|].
  apply StronglySorted_app_2; [| |apply IH].
  - intros x1 x2 Hx1 Hx2.
    pose proof (keptPositions_bounds rest (k + length line)) as Hb.
    rewrite Forall_forall in Hb. apply Hb in Hx2.
    unfold linePositions in Hx1.
    destruct (decide _); rewrite ?elem_of_app, !elem_of_seq in Hx1; lia.
  - unfold linePositions. destruct (decide _) as [|Hlong]; [apply seq_StronglySorted|].
    apply StronglySorted_app_2; [|apply seq_StronglySorted..].
    intros x1 x2 Hx1%elem_of_seq Hx2%elem_of_seq. lia.
Qed.

Lemma omap_lookup_Forall2 (positions : list nat) :
  Forall (fun pos => pos < length features) positions ->
  Forall2 (fun pos fp => features !! pos = Some fp) positions
    (omap (fun i => features !! i) positions).
Proof.
  induction 1 as [|pos rest Hpos _ IH]; simpl; [constructor|].
  destruct (lookup_lt_is_Some_2 features pos Hpos) as [fp Hfp].
  rewrite Hfp. by constructor.
Qed.

End Filter.

Lemma filterEffect_original (st : AppState) :
  st_originalWaypoints (filterEffect st) = st_originalWaypoints st /\
  st_originalFootprints (filterEffect st) = st_originalFootprints st.
Proof.
  unfold filterEffect.
  destruct (st_originalWaypoints st) as [|line rest] eqn:Hl; [done|].
  destruct (st_originalFootprints st) as [features|] eqn:Hf; [|done].
  destruct (enabled _); simpl; [|done].
  by destruct (foldl _ _ _) as [[? ?] ?].
Qed.

Lemma filterEffect_empty (st : AppState) :
  st_originalWaypoints st = [] \/ st_originalFootprints st = None ->
  st_waypoints (filterEffect st) = [] /\ st_footprints (filterEffect st) = None.
Proof.
  unfold filterEffect. intros [-> | ->]; [done|].
  by destruct (st_originalWaypoints st).
Qed.

Lemma filterEffect_unfold (st : AppState) (features : list PolygonCoords) :
  st_originalWaypoints st ≠ [] ->
  st_originalFootprints st = Some features ->
  filterEffect st
  = if negb (enabled (st_filterParams st)) then
      setFootprints (Some features) (setWaypoints (concat (st_originalWaypoints st)) st)
    else
      let '(newFilteredWaypoints, newFilteredFootprints, _) :=
        foldl (filterLine (st_filterParams st) features) ([], [], 0)
          (st_originalWaypoints st) in
      setFootprints (Some newFilteredFootprints) (setWaypoints newFilteredWaypoints st).
Proof.
  intros Hne Hf. unfold filterEffect. rewrite Hf.
  by destruct (st_originalWaypoints st).
Qed.

(** The view computed from lines with one footprint per waypoint: the
    kept waypoints and the kept footprints are those of one and the same
    increasing list of flattened positions. *)
Lemma filterEffect_aligned (st : AppState) (features : list PolygonCoords) :
  let p := st_filterParams st in
  let lines := st_originalWaypoints st in
  let positions := if enabled p then keptPositions p 0 lines
                   else seq 0 (length (concat lines)) in
  lines ≠ [] ->
  st_originalFootprints st = Some features ->
  length features = length (concat lines) ->
  exists kept,
    st_footprints (filterEffect st) = Some kept /\
    st_waypoints (filterEffect st)
    = (if enabled p then concat (keepEnds p <$> lines) else concat lines) /\
    (enabled p = false -> kept = features) /\
    Forall2 (fun pos w => concat lines !! pos = Some w)
      positions (st_waypoints (filterEffect st)) /\
    Forall2 (fun pos fp => features !! pos = Some fp) positions kept /\
    StronglySorted lt positions.
Proof.
  intros p lines positions Hne Hf Hlen.
  rewrite (filterEffect_unfold st features Hne Hf). fold lines p.
  assert (forall {A} (l : list A) n, n = length l ->
            Forall2 (fun pos w => l !! pos = Some w) (seq 0 n) l) as Hid.
  { intros A l n ->. pose proof (seq_slice_Forall2 l 0 (length l)) as HF.
    rewrite drop_0, take_ge in HF by lia. apply HF. lia. }
  unfold positions. destruct (enabled p); cbn [negb].
  - rewrite foldl_filterLine. cbn [app st_footprints st_waypoints setFootprints setWaypoints].
    eexists. split; [done|]. split; [done|].
    split; [done|]. split; [|split].
    + apply (keptPositions_waypoints p lines []).
    + apply omap_lookup_Forall2.
      eapply Forall_impl; [apply (keptPositions_bounds p lines 0)|].
      simpl. intros pos Hpos. lia.
    + apply keptPositions_StronglySorted.
  - exists features. split; [done|]. split; [done|]. split; [done|].
    split; [by apply Hid|]. split; [by apply Hid|apply seq_StronglySorted].
Qed.

(** C5.  For the canonical plan of the state (flight lines with one
    footprint per flattened waypoint, or no plan): with the filter off, the
    active waypoints are the lines flattened in order and the active
    footprints are the canonical ones; with the filter on, each line of
    length L contributes itself when L <= keepStart + keepEnd and its first
    keepStart followed by its last keepEnd waypoints otherwise, the active
    footprints are the canonical footprints at the flattened positions of
    the kept waypoints, in the same increasing order; the canonical lines
    and footprints are left as they were. *)
Theorem C5_filter_keeps_line_ends (st : AppState) :
  let p := st_filterParams st in
  let lines := st_originalWaypoints st in
  canonical st ->
  (enabled p = false ->
     st_waypoints (filterEffect st) = concat lines /\
     st_footprints (filterEffect st) = st_originalFootprints st) /\
  (enabled p = true ->
     st_waypoints (filterEffect st) = concat (keepEnds p <$> lines) /\
     forall features, st_originalFootprints st = Some features ->
       exists kept,
         st_footprints (filterEffect st) = Some kept /\
         Forall2 (fun pos w => concat lines !! pos = Some w)
           (keptPositions p 0 lines) (st_waypoints (filterEffect st)) /\
         Forall2 (fun pos fp => features !! pos = Some fp)
           (keptPositions p 0 lines) kept /\
         StronglySorted lt (keptPositions p 0 lines)) /\
  (forall line : list Waypoint,
     (length line <= keepStart p + keepEnd p -> keepEnds p line = line) /\
     (keepStart p + keepEnd p < length line ->
        keepEnds p line
        = take (keepStart p) line ++ drop (length line - keepEnd p) line /\
        length (keepEnds p line) = keepStart p + keepEnd p)) /\
  st_originalWaypoints (filterEffect st) = lines /\
  st_originalFootprints (filterEffect st) = st_originalFootprints st.
Proof.
  intros p lines Hcanon.
  split; [|split; [|split; [|apply filterEffect_original]]].
  - intros Hoff. destruct Hcanon as [[Hl Hf] | (Hne & features & Hf & Hlen)].
    + destruct (filterEffect_empty st) as [-> ->]; [by left|].
      unfold lines. by rewrite Hl, Hf.
    + destruct (filterEffect_aligned st features Hne Hf Hlen)
        as (kept & -> & -> & Hk & _). fold p. rewrite Hoff, Hf.
      split; [done|]. f_equal. by apply Hk.
  - intros Hon. destruct Hcanon as [[Hl Hf] | (Hne & features & Hf & Hlen)].
    + destruct (filterEffect_empty st) as [-> _]; [by left|].
      unfold lines. rewrite Hl. split; [done|]. intros features. by rewrite Hf.
    + destruct (filterEffect_aligned st features Hne Hf Hlen)
        as (kept & Hkept & Hw & _ & HFw & HFf & Hsorted).
      fold p in Hw, HFw, HFf, Hsorted. rewrite Hon in Hw, HFw, HFf, Hsorted.
      split; [done|]. intros features'. rewrite Hf. intros [= <-].
      exists kept. done.
  - intros line. unfold keepEnds. split.
    + intros Hshort. by rewrite decide_True.
    + intros Hlong. rewrite decide_False by lia. split; [done|].
      rewrite length_app, length_take, length_drop. lia.
Qed.

(** C9.  A successful plan has exactly one footprint per flattened
    waypoint, the footprint at position i being the closed four-corner
    ring built at waypoint i along its heading; and the view that the
    filter computes from it pairs kept waypoints and kept footprints by
    the same flattened positions, filter on or off. *)
Theorem C9_waypoint_footprint_pairing `{Turf}
    (fuel : nat) (geometry : Geometry) (f : FlightParams) (c : CameraParams)
    (r : FlightPlanResult) :
  generateFlightPlan fuel geometry f c = Returned r ->
  length (footprints r) = length (concat (waypoints r)) /\
  (forall i w, concat (waypoints r) !! i = Some w ->
     exists tl tr br bl,
       footprints r !! i = Some [[tl; tr; br; bl; tl]] /\
       [[tl; tr; br; bl; tl]]
       = footprintPoly f c (pointOf w)
           (bearing (pointOf w)
              (nextWaypoint (pointOf <$> concat (waypoints r)) i (pointOf w)))) /\
  (forall st,
     st_originalWaypoints st = waypoints r ->
     st_originalFootprints st = Some (footprints r) ->
     exists positions kept,
       st_footprints (filterEffect st) = Some kept /\
       length kept = length (st_waypoints (filterEffect st)) /\
       Forall2 (fun pos w => concat (waypoints r) !! pos = Some w)
         positions (st_waypoints (filterEffect st)) /\
       Forall2 (fun pos fp => footprints r !! pos = Some fp) positions kept /\
       StronglySorted lt positions).
Proof.
  intros Hrun. pose proof (footprints_length _ _ _ _ _ Hrun) as Hlen.
  split; [done|]. split.
  - intros i w Hw. pose proof (footprint_of_waypoint _ _ _ _ _ Hrun i w Hw) as Hfp.
    unfold footprintPoly in Hfp |- *. do 4 eexists. split; [exact Hfp | reflexivity].
  - intros st Hl Hf.
    assert (st_originalWaypoints st ≠ []) as Hne.
    { rewrite Hl. intros Hnil. apply (plan_nonempty _ _ _ _ _ Hrun).
      by rewrite Hnil. }
    destruct (filterEffect_aligned st (footprints r) Hne Hf)
      as (kept & Hkept & _ & _ & HFw & HFf & Hsorted); [by rewrite Hl|].
    rewrite Hl in HFw, HFf, Hsorted. eexists _, kept. split; [done|].
    split; [|split; [exact HFw|split; [exact HFf|exact Hsorted]]].
    apply Forall2_length in HFw, HFf. lia.
Qed.

(** ** Mission statistics *)

Lemma sumDistances_loop `{Turf} (wps : list Waypoint) (n : nat) :
  forall a total,
    a + n = length wps - 1 ->
    foldl (fun total i =>
             match wps !! i, wps !! (i + 1) with
             | Some a, Some b => fadd total (distance (pointOf a) (pointOf b))
             | _, _ => total
             end) total (seq a n)
    = foldl fadd total (legs (drop a wps)).
Proof.
  induction n as [|n IH]; intros a total Han.
  - simpl. destruct (drop a wps) as [|x [|y rest]] eqn:E; [done | done |].
    apply (f_equal length) in E. rewrite length_drop in E. simpl in E. lia.
  - cbn [seq foldl].
    destruct (lookup_lt_is_Some_2 wps a) as [x Hx]; [lia|].
    destruct (lookup_lt_is_Some_2 wps (a + 1)) as [y Hy]; [lia|].
    rewrite Hx, Hy, IH by lia.
    rewrite (drop_S _ _ _ Hx). replace (a + 1) with (S a) in Hy by lia.
    rewrite (drop_S _ _ _ Hy). done.
Qed.

Lemma sumDistances_legs `{Turf} (wps : list Waypoint) :
  sumDistances wps = foldl fadd 0%Q (legs wps).
Proof.
  unfold sumDistances. destruct (decide (1 < length wps)) as [Hlen|Hlen].
  - rewrite (sumDistances_loop wps (length wps - 1) 0) by lia. by rewrite drop_0.
  - destruct wps as [|x [|y rest]]; [done | done | simpl in Hlen; lia].
Qed.

Lemma foldl_fadd_nonneg (l : list Q) (total : Q) :
  (0 <= total)%Q -> Forall (fun d => (0 <= d)%Q) l -> (0 <= foldl fadd total l)%Q.
Proof.
  intros Ht Hl. revert total Ht.
  induction Hl as [|d rest Hd _ IH]; intros total Ht; simpl; [done|].
  apply IH. apply b64_nonneg. lra.
Qed.

Lemma legs_nonneg `{Turf} (wps : list Waypoint) :
  (forall a b, (0 <= distance a b)%Q) -> Forall (fun d => (0 <= d)%Q) (legs wps).
Proof.
  intros Hd. induction wps as [|x [|y rest] IH]; simpl; constructor; [apply Hd | done].
Qed.

(** For a time that is not negative: the minutes are not negative, and
    the seconds are the whole seconds of the time modulo 60. *)
Lemma minutes_seconds (t : Q) :
  (0 <= t)%Q ->
  let minutes := Qfloor (fdiv t 60) in
  let seconds := Qfloor (jsRem t 60) in
  (0 <= minutes)%Z /\ (0 <= seconds < 60)%Z /\ seconds = (Qfloor t mod 60)%Z.
Proof.
  intros Ht minutes seconds.
  assert (t / 60 == t * (1 # 60))%Q as Hdiv by field.
  assert (0 <= t / 60)%Q as Hq by (rewrite Hdiv; lra).
  assert (0 <= minutes)%Z as Hm.
  { change 0%Z with (Qfloor 0). apply Qfloor_resp_le. by apply b64_nonneg. }
  set (whole := Qfloor (t / 60)).
  assert (jsRem t 60 == t - 60 * inject_Z whole)%Q as Hrem.
  { unfold jsRem, Qtruncate. apply Qltb_ge in Hq. by rewrite Hq. }
  pose proof (Qfloor_le (t / 60)) as Hlo. pose proof (Qlt_floor (t / 60)) as Hhi.
  fold whole in Hlo, Hhi. rewrite inject_Z_plus in Hhi.
  change (inject_Z 1) with 1%Q in Hhi. rewrite Hdiv in Hlo, Hhi.
  assert (seconds = Qfloor t - 60 * whole)%Z as Hs.
  { unfold seconds. rewrite (Qfloor_comp _ _ Hrem).
    assert (t - 60 * inject_Z whole == t + inject_Z (- (60 * whole)))%Q as ->.
    { rewrite inject_Z_opp, inject_Z_mult. change (inject_Z 60) with 60%Q. ring. }
    apply Z.le_antisymm.
    - assert (Qfloor (t + inject_Z (- (60 * whole))) + 60 * whole <= Qfloor t)%Z;
        [|lia].
      rewrite <- (Qfloor_Z (_ + _)%Z). apply Qfloor_resp_le.
      rewrite inject_Z_plus. pose proof (Qfloor_le (t + inject_Z (- (60 * whole)))).
      rewrite inject_Z_opp in *. lra.
    - rewrite <- (Qfloor_Z (_ - _)%Z). apply Qfloor_resp_le.
      unfold Z.sub. rewrite inject_Z_plus. pose proof (Qfloor_le t). lra. }
  assert (inject_Z (60 * whole) <= t)%Q as H1.
  { rewrite inject_Z_mult. change (inject_Z 60) with 60%Q. lra. }
  assert (t < inject_Z (60 * whole + 60))%Q as H2.
  { rewrite inject_Z_plus, inject_Z_mult. change (inject_Z 60) with 60%Q. lra. }
  assert (60 * whole <= Qfloor t)%Z.
  { rewrite <- (Qfloor_Z (60 * whole)). by apply Qfloor_resp_le. }
  assert (Qfloor t < 60 * whole + 60)%Z.
  { rewrite Zlt_Qlt. eapply Qle_lt_trans; [apply Qfloor_le | done]. }
  split; [done|]. split; [lia|].
  rewrite Hs. apply (Z.mod_unique _ _ whole); lia.
Qed.

(** ** Rendering numbers *)

Lemma string_length_append (a b : string) :
  String.length (a ++ b)%string = String.length a + String.length b.
Proof. induction a as [|ch a IH]; simpl; [done | by rewrite IH]. Qed.

Lemma zeros_length (n : nat) : String.length (zeros n) = n.
Proof. induction n as [|n IH]; simpl; [done | by rewrite IH]. Qed.

Lemma padStart0_length (width : nat) (s : string) :
  width <= String.length (padStart0 width s).
Proof. unfold padStart0. rewrite string_length_append, zeros_length. lia. Qed.

Lemma substring_length (s : string) :
  forall n m, n + m <= String.length s -> String.length (substring n m s) = m.
Proof.
  induction s as [|ch s IH]; intros [|n] [|m] Hlen; simpl in *; try done; try lia.
  - rewrite (IH 0 m) by lia. done.
  - apply IH. lia.
  - apply IH. lia.
Qed.

Lemma substring_0_length (s : string) : substring 0 (String.length s) s = s.
Proof. induction s as [|ch s IH]; simpl; [done | by rewrite IH]. Qed.

Lemma substring_split (k : nat) :
  forall s m, k + m = String.length s ->
    (substring 0 k s ++ substring k m s)%string = s.
Proof.
  induction k as [|k IH]; intros s m Hlen.
  - simpl in Hlen. subst m. rewrite substring_0_length. by destruct s.
  - destruct s as [|ch s]; simpl in *; [lia|]. f_equal. apply IH. lia.
Qed.

(** The two-decimal rendering: an optional sign, at least one digit
    before the point and exactly two after it, which together are the
    digits of [toFixedN]. *)
Lemma toFixed2_shape (x : Q) :
  exists whole frac : string,
    toFixed2 x
    = ((if Qltb x 0 then "-" else "") ++ whole ++ "." ++ frac)%string /\
    1 <= String.length whole /\ String.length frac = 2 /\
    (whole ++ frac)%string = padStart0 3 (toStringZ (toFixedN x)).
Proof.
  unfold toFixed2. set (m := padStart0 3 (toStringZ (toFixedN x))).
  pose proof (padStart0_length 3 (toStringZ (toFixedN x))) as Hm. fold m in Hm.
  exists (substring 0 (String.length m - 2) m), (substring (String.length m - 2) 2 m).
  split; [done|]. rewrite !substring_length by lia.
  split; [lia|]. split; [done|]. apply substring_split. lia.
Qed.

Lemma seconds_two_digits (seconds : Z) :
  (0 <= seconds < 60)%Z -> String.length (padStart0 2 (toStringZ seconds)) = 2.
Proof.
  intros Hs.
  assert (exists n, n < 60 /\ seconds = Z.of_nat n) as (n & Hn & ->)
    by (exists (Z.to_nat seconds); lia).
  clear Hs. do 60 (destruct n as [|n]; [reflexivity|]). lia.
Qed.

(** C8.  The statistics effect produces no stats exactly when there is no
    active waypoint or no canonical line.  Otherwise, with a positive
    speed: the total distance is the sum of the distances in meters
    between consecutive active waypoints, divided by 1000 and rendered
    with two decimals; the flight time is that sum divided by the speed,
    rendered as whole minutes, a colon and the whole seconds within the
    minute (two digits); the photo count is the number of active
    waypoints; the data volume is photoCount * imageWidth * imageHeight /
    1e9 rendered with two decimals.  The arithmetic is that of the
    program: the sum is taken from left to right and every sum, product
    and quotient is rounded to binary64 (a number m * 2^e of 53 bits at
    most half a step 2^e away) before it is used or rendered; the seconds
    are the whole seconds of the time modulo 60. *)
Theorem C8_mission_statistics `{Turf} (st : AppState) :
  let wps := st_waypoints st in
  let lines := st_originalWaypoints st in
  let v := fp_speed (st_flightParams st) in
  let c := st_cameraParams st in
  let meters := foldl (fun total d => b64 (total + d)) 0%Q (legs wps) in
  let t := b64 (meters / v) in
  let minutes := Qfloor (b64 (t / 60)) in
  let seconds := Qfloor (jsRem t 60) in
  let pixels :=
    b64 (b64 (inject_Z (Z.of_nat (length wps)) * imageWidth c) * imageHeight c) in
  (0 < v)%Q ->
  (forall a b, (0 <= distance a b)%Q) ->
  (st_stats (statsEffect st) = None <-> wps = [] \/ lines = []) /\
  (wps ≠ [] -> lines ≠ [] ->
     exists s,
       st_stats (statsEffect st) = Some s /\
       totalDistance s = toFixed2 (b64 (meters / 1000)) /\
       flightTime s
       = (padStart0 2 (toStringZ minutes) ++ ":" ++ padStart0 2 (toStringZ seconds))%string /\
       (0 <= minutes)%Z /\ (0 <= seconds < 60)%Z /\
       seconds = (Qfloor t mod 60)%Z /\
       2 <= String.length (padStart0 2 (toStringZ minutes)) /\
       String.length (padStart0 2 (toStringZ seconds)) = 2 /\
       photoCount s = length wps /\
       totalWaypoints s = length wps /\
       flightLines s = length lines /\
       dataVolume s = toFixed2 (b64 (pixels / 1000000000))) /\
  (forall x : Q,
     exists whole frac : string,
       toFixed2 x = ((if Qltb x 0 then "-" else "") ++ whole ++ "." ++ frac)%string /\
       1 <= String.length whole /\ String.length frac = 2 /\
       (whole ++ frac)%string = padStart0 3 (toStringZ (toFixedN x)) /\
       (inject_Z (toFixedN x) <= Qabs x * 100 + (1 # 2) < inject_Z (toFixedN x) + 1)%Q) /\
  (forall x : Q,
     exists (m e : Z),
       (-1074 <= e)%Z /\ (Z.abs m <= 2 ^ 53)%Z /\
       (b64 x == inject_Z m * pow2 e)%Q /\
       (Qabs (b64 x - x) <= pow2 e / 2)%Q /\
       (e = (-1074)%Z \/ (pow2 (e + 52) <= Qabs x)%Q)).
Proof.
  intros wps lines v c meters t minutes seconds pixels Hv Hdist.
  assert (0 <= t)%Q as Ht.
  { unfold t. apply b64_nonneg. apply Qle_shift_div_l; [done|]. rewrite Qmult_0_l.
    apply foldl_fadd_nonneg; [lra | by apply legs_nonneg]. }
  destruct (minutes_seconds t Ht) as (Hm & Hs & Hmod).
  unfold statsEffect, computeStats. fold wps lines v c.
  rewrite sumDistances_legs.
  change (foldl fadd 0%Q (legs wps)) with meters.
  change (fdiv meters v) with t.
  split; [|split; [|split]].
  - destruct wps as [|w ws], lines as [|l ls]; simpl; split;
      try done; try tauto; intros [?|?]; done.
  - intros Hw Hl. destruct wps as [|w ws] eqn:Ew; [done|].
    destruct lines as [|l ls] eqn:El; [done|]. rewrite <- Ew, <- El.
    replace (bool_decide (length wps = 0)) with false
      by (by rewrite Ew).
    replace (bool_decide (length lines = 0)) with false
      by (by rewrite El).
    simpl. eexists. split; [done|]. simpl.
    repeat split; try done; try lia; try apply padStart0_length;
      try (by apply seconds_two_digits).
    unfold pixels. by rewrite <- Ew.
  - intros x. destruct (toFixed2_shape x) as (whole & frac & Heq & Hw & Hf & Hcat).
    exists whole, frac. repeat split; try done; apply toFixedN_bounds.
  - apply b64_near.
Qed.

(** ** Termination of the planner *)

Section Termination.
Context `{Turf}.

Lemma lineWaypoints_returns (fuel : nat) (dAT : Q) (index : nat) (line : Segment) :
  (0 < dAT)%Q ->
  loopCount 0 (lineLength line) dAT <= fuel ->
  exists pts, lineWaypoints fuel dAT index line = Returned pts.
Proof.
  intros Hd Hfuel. set (L := lineLength line) in *.
  set (count := loopCount 0 L dAT) in *.
  assert (forall k, k < count <-> (iterAdd 0 dAT k <= L)%Q) as Hcount
    by (intros k; by apply loopCount_spec).
  unfold lineWaypoints. fold L.
  rewrite (alongLoop_run line L dAT count); [|done| |].
  - unfold ensureEndpoint. destruct (Qltb 0 L) eqn:HL; [|by eexists].
    apply Qltb_lt in HL.
    assert (0 < count) as Hpos by (apply Hcount; simpl; lra).
    rewrite app_nil_l.
    destruct (last _) as [p|] eqn:Hlast.
    + destruct (Qltb 1 _); by eexists.
    + apply last_None in Hlast. apply fmap_nil_inv in Hlast.
      destruct count; [lia | discriminate].
  - intros k Hk. by apply Hcount.
  - apply Qnot_le_lt. intros Hle. apply Hcount in Hle. lia.
Qed.

Lemma oforEach_returns {A B} (f : nat -> A -> Outcome B) (l : list A) :
  forall i,
    (forall j x, x ∈ l -> exists y, f j x = Returned y) ->
    exists ys, oforEach f i l = Returned ys.
Proof.
  induction l as [|x r IH]; intros i Hf; simpl; [by eexists|].
  destruct (Hf i x) as [y ->]; [by left|].
  destruct (IH (S i)) as [ys ->]; [|by eexists].
  intros j z Hz. apply Hf. by right.
Qed.

(** X1.  With positive spacings the two loops of the planner end: beyond
    some budget the planner returns a plan or reports that no waypoint
    could be generated. *)
Lemma generateFlightPlan_terminates (geometry : Geometry)
    (f : FlightParams) (c : CameraParams) :
  (0 < distanceSideTrack f c)%Q ->
  (0 < distanceAlongTrack f c)%Q ->
  (0 < lengthToDegrees (distanceSideTrack f c))%Q ->
  exists N, forall fuel, N <= fuel ->
    generateFlightPlan fuel geometry f c = Threw NoCoverage \/
    exists r, generateFlightPlan fuel geometry f c = Returned r.
Proof.
  intros Hs Ha Hstep.
  set (rotated := transformRotate geometry (- flightDirection f) (centerOfMass geometry)).
  destruct (bbox rotated) as [[[minX minY] maxX] maxY] eqn:Hbox.
  destruct (coveragePath_returns geometry (flightDirection f) (distanceSideTrack f c)
              minX minY maxX maxY Hbox Hstep) as (lines & Hlines).
  set (rows := loopCount minY maxY (lengthToDegrees (distanceSideTrack f c))) in *.
  exists (rows `max` max_list
            ((fun line => loopCount 0 (lineLength line) (distanceAlongTrack f c))
               <$> lines)).
  intros fuel Hfuel. unfold generateFlightPlan.
  apply Qle_bool_gt in Hs as Hs', Ha as Ha'. rewrite Hs', Ha'. cbn [orb].
  rewrite (Hlines fuel) by lia.
  destruct (oforEach_returns (lineWaypoints fuel (distanceAlongTrack f c)) lines 0)
    as [byLine ->].
  { intros j line Hline. apply lineWaypoints_returns; [done|].
    etrans; [|apply Nat.le_trans with (2 := Hfuel), Nat.le_max_r].
    apply max_list_elem_of_le, list_elem_of_fmap. by exists line. }
  cbn [obind]. destruct (decide _); [by left | right; by eexists].
Qed.

End Termination.

(* ===================================================================== *)
(** * The properties on the flat-earth instance                           *)
(* ===================================================================== *)

Lemma cardinal_range (a b : Position) : (-180 <= Flat.cardinal a b <= 180)%Q.
Proof.
  unfold Flat.cardinal.
  repeat match goal with |- context [Qltb ?x ?y] => destruct (Qltb x y) end;
    split; discriminate.
Qed.

Lemma taxicab_nonneg (a b : Position) : (0 <= Flat.taxicab a b)%Q.
Proof.
  unfold Flat.taxicab. apply Qmult_le_0_compat; [|discriminate].
  pose proof (Qabs_nonneg (fst b - fst a)). pose proof (Qabs_nonneg (snd b - snd a)).
  lra.
Qed.

Lemma square_planned :
  @generateFlightPlan Flat.turf 10 Flat.square Flat.flight Flat.camera
  = Returned Flat.squarePlan.
Proof. vm_compute. reflexivity. Qed.

(** C1 on the two squares: three rows, two flight lines on each, none
    across the gap. *)
Lemma C1_two_squares_witness :
  (0 < @lengthToDegrees Flat.turf 50)%Q /\
  @coveragePath Flat.turf 3 Flat.twoSquares 0 50 = Some Flat.twoSquaresLines /\
  length Flat.twoSquaresLines = 6.
Proof.
  split; [reflexivity|].
  destruct (@C1_sweep_rows_pair_sorted_crossings Flat.turf Flat.twoSquares 0 50
              0 0 (300 # 111195) (100 # 111195) eq_refl eq_refl)
    as (_ & _ & Hrun & _).
  split; [|reflexivity].
  rewrite (Hrun 3); [vm_compute; reflexivity | vm_compute; lia].
Defined.

(** C2 on the southern edge of the square with a spacing of 30 m: points
    at 0, 30, 60 and 90 m, the endpoint appended, and the order reversed on
    an odd-indexed line. *)
Lemma C2_south_edge_witness :
  (0 < @lineLength Flat.turf Flat.southEdge)%Q /\
  @lineWaypoints Flat.turf 10 30 1 Flat.southEdge
  = Returned [(100 # 111195, 0); (90 # 111195, 0); (60 # 111195, 0);
              (30 # 111195, 0); (0 # 111195, 0)]%Q.
Proof.
  split; [reflexivity|].
  destruct (@C2_points_along_segment Flat.turf Flat.southEdge 30 eq_refl eq_refl)
    as (_ & _ & lastStepped & points & Hlast & Hfar & _ & _ & Hrun & _).
  vm_compute in Hlast. injection Hlast as <-.
  destruct (Hrun 10 1) as [_ Hodd]; [vm_compute; lia|].
  rewrite Hodd by (by exists 0). rewrite Hfar by reflexivity.
  vm_compute. reflexivity.
Defined.

(** The headings of the plan of the square lie in [0,360). *)
Lemma headings_square_in_range :
  2 <= length (concat (waypoints Flat.squarePlan)) /\
  Forall (fun w => (0 <= heading w < 360)%Q) (concat (waypoints Flat.squarePlan)).
Proof.
  assert (2 <= length (concat (waypoints Flat.squarePlan))) as Hlen
    by (vm_compute; lia).
  split; [exact Hlen|].
  exact (proj2 (proj2 (@headings_follow_next_or_previous Flat.turf 10 Flat.square
                         Flat.flight Flat.camera Flat.squarePlan
                         cardinal_range square_planned Hlen))).
Qed.

(** C3.  The code on the plan of the square, where it departs from the
    claim: the last row is flown eastwards, the last waypoint lies east of
    the one before it, and its heading is 270 - the bearing back to the
    previous waypoint - not that bearing reversed, which is 90, and not
    the bearing from the previous waypoint to it, which is 90 as well and
    is the heading of the previous waypoint. *)
Lemma C3_last_heading_points_back :
  @generateFlightPlan Flat.turf 10 Flat.square Flat.flight Flat.camera
  = Returned Flat.squarePlan /\
  length (concat (waypoints Flat.squarePlan)) = 9 /\
  concat (waypoints Flat.squarePlan) !! 8 = Some Flat.lastWaypoint /\
  concat (waypoints Flat.squarePlan) !! 7 = Some Flat.previousWaypoint /\
  (lng Flat.previousWaypoint < lng Flat.lastWaypoint)%Q /\
  (heading Flat.previousWaypoint == 90)%Q /\
  (heading Flat.lastWaypoint == 270)%Q /\
  (@bearing Flat.turf (pointOf Flat.lastWaypoint) (pointOf Flat.previousWaypoint)
   == -90)%Q /\
  ~ (heading Flat.lastWaypoint
     == normalizeHeading
          (@bearing Flat.turf (pointOf Flat.lastWaypoint)
             (pointOf Flat.previousWaypoint) + 180))%Q /\
  ~ (heading Flat.lastWaypoint
     == normalizeHeading
          (@bearing Flat.turf (pointOf Flat.previousWaypoint)
             (pointOf Flat.lastWaypoint)))%Q.
Proof.
  split; [exact square_planned|].
  repeat split; try reflexivity; vm_compute; discriminate.
Qed.

(** C4 on the example flight, and on the same flight with a front overlap
    of 100%. *)
Lemma C4_overlap_witness :
  (0 < sensorWidth Flat.camera)%Q /\
  (forall fuel geometry,
     @generateFlightPlan Flat.turf fuel geometry Flat.flight Flat.camera
     ≠ Threw InvalidParameters) /\
  (forall fuel geometry,
     @generateFlightPlan Flat.turf fuel geometry Flat.fullOverlap Flat.camera
     = Threw InvalidParameters).
Proof.
  split; [reflexivity|]. split.
  - destruct (@C4_overlap_guard Flat.turf Flat.flight Flat.camera
                eq_refl eq_refl eq_refl eq_refl eq_refl) as [Hvalid _].
    apply Hvalid; split; vm_compute; (discriminate || reflexivity).
  - destruct (@C4_overlap_guard Flat.turf Flat.fullOverlap Flat.camera
                eq_refl eq_refl eq_refl eq_refl eq_refl) as [_ Hinvalid].
    apply Hinvalid. left. vm_compute. discriminate.
Defined.

Lemma planned_canonical : canonical Flat.planned.
Proof. right. split; [discriminate|]. eexists. split; reflexivity. Qed.

(** C5 on the planned square with keepStart = keepEnd = 1: two of the
    three waypoints of each line remain. *)
Lemma C5_planned_witness :
  canonical Flat.planned /\
  length (st_waypoints (filterEffect Flat.planned)) = 6 /\
  st_originalWaypoints (filterEffect Flat.planned) = waypoints Flat.squarePlan.
Proof.
  split; [exact planned_canonical|].
  destruct (C5_filter_keeps_line_ends Flat.planned planned_canonical)
    as (_ & Hon & _ & Horig & _).
  split; [|exact Horig].
  destruct (Hon eq_refl) as [-> _]. vm_compute. reflexivity.
Defined.

(** C6 on the planned square with a service that answers every other
    position with 12.345: the first waypoint is raised to 112.34 (12.345 +
    100 is a little below 112.345 in binary64), the second stays at
    100. *)
Lemma C6_planned_witness :
  concat (st_originalWaypoints Flat.planned) ≠ [] /\
  exists st', handleFetchTerrainData Flat.everyOther Flat.planned = Some st' /\
              st_waypoints st' = st_waypoints Flat.planned /\
              altitude <$> concat (st_originalWaypoints st') !! 0
              = Some (b64 (11234 # 100)) /\
              altitude <$> concat (st_originalWaypoints st') !! 1 = Some 100%Q.
Proof.
  assert (concat (st_originalWaypoints Flat.planned) ≠ []) as Hne by discriminate.
  split; [exact Hne|].
  destruct (C6_terrain_merge Flat.everyOther Flat.planned Hne)
    as (elevations & lines' & _ & _ & Hrun & Hview & _).
  eexists. split; [exact Hrun|]. split; [exact Hview|].
  assert (handleFetchTerrainData Flat.everyOther Flat.planned
          = Some (setOriginalWaypoints lines' (setError None Flat.planned))) as Hrun'
    by exact Hrun.
  vm_compute in Hrun'. injection Hrun' as <-. split; vm_compute; reflexivity.
Defined.

(** C8 on the planned square: 400 m at 10 m/s. *)
Lemma C8_planned_witness :
  (0 < fp_speed (st_flightParams Flat.planned))%Q /\
  exists s, st_stats (@statsEffect Flat.turf Flat.planned) = Some s /\
            photoCount s = 9 /\
            totalDistance s = "0.40"%string /\
            flightTime s = "00:40"%string /\
            dataVolume s = "0.00"%string.
Proof.
  split; [reflexivity|].
  destruct (@C8_mission_statistics Flat.turf Flat.planned eq_refl taxicab_nonneg)
    as (_ & Hstats & _).
  destruct Hstats
    as (s & Hs & Hdist & Htime & _ & _ & _ & _ & _ & Hcount & _ & _ & Hvolume);
    [discriminate | discriminate |].
  exists s. split; [exact Hs|].
  rewrite Hcount, Hdist, Htime, Hvolume. vm_compute. repeat split.
Defined.

(** C9 on the plan of the square. *)
Lemma C9_square_witness :
  length (footprints Flat.squarePlan) = length (concat (waypoints Flat.squarePlan)).
Proof.
  exact (proj1 (@C9_waypoint_footprint_pairing Flat.turf 10 Flat.square Flat.flight
                  Flat.camera Flat.squarePlan square_planned)).
Defined.

(** C10 on the plan of the square. *)
Lemma C10_square_witness :
  Forall (fun w => altitude w = 100%Q /\ gimbalPitch w = (-90)%Q /\ speed w = 10%Q)
    (concat (waypoints Flat.squarePlan)).
Proof.
  exact (proj1 (@C10_altitude_pitch_speed_from_params Flat.turf 10 Flat.square
                  Flat.flight Flat.camera Flat.squarePlan square_planned)).
Defined.

(** ** Further checks by evaluation *)

(** Of 120 positions, the 50 of the failed second batch stay unknown and
    the third batch is still served. *)
Example getElevations_second_batch_down :
  getElevations Flat.secondBatchDown (replicate 120 Flat.home)
  = Returned (replicate 50 (Some 7%Q) ++ replicate 50 None ++ replicate 20 (Some 7%Q)).
Proof. vm_compute. reflexivity. Qed.

(** keepStart = keepEnd = 2 on a line of 13 waypoints keeps the positions
    0, 1, 11 and 12. *)
Example linePositions_13 :
  linePositions {| enabled := true; keepStart := 2; keepEnd := 2 |} 0 13
  = [0; 1; 11; 12].
Proof. reflexivity. Qed.

Example keepEnds_short :
  keepEnds {| enabled := true; keepStart := 2; keepEnd := 2 |} [1; 2; 3; 4]
  = [1; 2; 3; 4].
Proof. reflexivity. Qed.

Example toFixed2_examples :
  toFixed2 (1234567 # 1000) = "1234.57"%string /\
  toFixed2 (5 # 1000) = "0.01"%string /\
  toFixed2 (-1 # 1000) = "-0.00"%string /\
  (toFixed2Value (-12345 # 1000) == -(1235 # 100))%Q.
Proof. repeat split. Qed.

(** binary64: one tenth and one third, a tie between two integers above
    2^53, and the smallest subnormal number. *)
Example b64_examples :
  b64 (1 # 10) = (3602879701896397 # 36028797018963968)%Q /\
  b64 (1 # 3) = (6004799503160661 # 18014398509481984)%Q /\
  b64 9007199254740993 = 9007199254740992%Q /\
  b64 (- (1 # 3)) = (-6004799503160661 # 18014398509481984)%Q /\
  b64 (3602879701896397 # 36028797018963968) = (3602879701896397 # 36028797018963968)%Q /\
  (b64 (3 / pow2 1075) == pow2 (-1073))%Q /\
  b64 (1 / pow2 1075) = 0%Q.
Proof. repeat split; vm_compute; reflexivity. Qed.

(** The digits follow the binary64 value: 12.345 + 100 is a little less
    than 112.345 and is rendered 112.34; 1.005 and 1000.555 are rendered
    1.00 and 1000.55; 15 megapixels are 0.01 gigapixels. *)
Example toFixed2_of_binary64 :
  toFixed2 (fadd (b64 (12345 # 1000)) 100) = "112.34"%string /\
  roundTo2 (fadd (b64 (12345 # 1000)) 100) = b64 (11234 # 100) /\
  toFixed2 (b64 (1005 # 1000)) = "1.00"%string /\
  toFixed2 (b64 (1000555 # 1000)) = "1000.55"%string /\
  toFixed2 (fdiv (fmul (fmul 3 5000) 1000) 1000000000) = "0.01"%string /\
  toFixed2 (15000000 / 1000000000) = "0.02"%string.
Proof. repeat split; vm_compute; reflexivity. Qed.

Example formatFlightTime_examples :
  formatFlightTime (1257 # 10) = "02:05"%string /\
  formatFlightTime (72257 # 10) = "120:25"%string.
Proof. split; reflexivity. Qed.

(** An odd number of crossings: the last one has no partner. *)
Example pairLoop_three :
  pairLoop [(1, 0); (2, 0); (3, 0)]%Q 0 [] = [((1, 0), (2, 0))%Q].
Proof. reflexivity. Qed.

(** Three photos of 5000 by 1000 pixels are 0.015 gigapixels, a little
    less in binary64: the data volume shown is 0.01. *)
Example data_volume_of_three_photos :
  dataVolume
    <$> @computeStats Flat.turf [Flat.home; Flat.home; Flat.home] [[Flat.home]] 10
          {| sensorWidth := 10; sensorHeight := 10; focalLength := 10;
             imageWidth := 5000; imageHeight := 1000 |}
  = Some "0.01"%string.
Proof. vm_compute. reflexivity. Qed.

(** The planner on the square ends within the budget of the examples. *)
Example square_plan_lines :
  length <$> waypoints Flat.squarePlan = [3; 3; 3] /\
  heading <$> concat (waypoints Flat.squarePlan)
  = [90; 90; 0; 270; 270; 0; 90; 90; 270]%Q.
Proof. split; vm_compute; reflexivity. Qed.

(* ===================================================================== *)
(** * Further properties of the planner                                   *)
(* ===================================================================== *)

Lemma restructure_lengths {A} (formatted : list Waypoint) (lines : list (list A)) :
  forall k, k + length (concat lines) <= length formatted ->
    length <$> restructure formatted k lines = length <$> lines.
Proof.
  induction lines as [|line rest IH]; intros k Hk; [done|].
  simpl in Hk. rewrite length_app in Hk.
  cbn [restructure]. rewrite !fmap_cons, IH by lia.
  by rewrite length_take, length_drop, Nat.min_l by lia.
Qed.

Lemma restructure_fmap {A B} (g : Waypoint -> B) (h : A -> B)
    (formatted : list Waypoint) (lines : list (list A)) :
  forall pre : list A,
    g <$> formatted = h <$> (pre ++ concat lines) ->
    Forall2 (fun out pts => g <$> out = h <$> pts)
      (restructure formatted (length pre) lines) lines.
Proof.
  induction lines as [|line rest IH]; intros pre Hg; [constructor|].
  cbn [restructure]. constructor.
  - rewrite fmap_take, fmap_drop, Hg, fmap_app, drop_app_length'
      by (by rewrite length_fmap).
    simpl. rewrite fmap_app, take_app_length' by (by rewrite length_fmap). done.
  - rewrite <- length_app. apply IH. by rewrite <- app_assoc.
Qed.

Section PlanStructure.
Context `{Turf}.
Variables (fuel : nat) (geometry : Geometry) (f : FlightParams) (c : CameraParams).

(** The local variables of a successful run. *)
Lemma generateFlightPlan_inv (r : FlightPlanResult) :
  generateFlightPlan fuel geometry f c = Returned r ->
  exists (lines : list Segment) (byLine : list (list Position)),
    coveragePath fuel geometry (flightDirection f) (distanceSideTrack f c) = Some lines /\
    oforEach (lineWaypoints fuel (distanceAlongTrack f c)) 0 lines = Returned byLine /\
    concat byLine ≠ [] /\
    let final := (fun wp => rotatePoint wp (flightDirection f) (centerOfMass geometry))
                   <$> concat byLine in
    waypoints r
    = restructure (snd <$> imap (formatWaypoint f c final) final) 0 byLine.
Proof.
  unfold generateFlightPlan.
  destruct (_ || _); [discriminate|].
  destruct (coveragePath _ _ _ _) as [lines|]; [|discriminate].
  intros E. apply obind_Returned in E as (byLine & HbyLine & E).
  destruct (decide _) as [|Hlen]; [discriminate|].
  injection E as <-. exists lines, byLine. split; [done|]. split; [done|].
  split; [|done]. intros Hnil. apply Hlen. by rewrite Hnil.
Qed.

End PlanStructure.

(** X2.  A returned plan keeps the grouping of the sweep: it has one line
    per flight-line segment, line j has as many waypoints as points were
    placed on segment j, and the positions of its waypoints are those
    points, in their (possibly reversed) order, rotated back by the flight
    direction about the centre of mass of the region. *)
Theorem plan_lines_follow_segments `{Turf}
    (fuel : nat) (geometry : Geometry) (f : FlightParams) (c : CameraParams)
    (r : FlightPlanResult) :
  generateFlightPlan fuel geometry f c = Returned r ->
  exists (lines : list Segment) (byLine : list (list Position)),
    coveragePath fuel geometry (flightDirection f) (distanceSideTrack f c) = Some lines /\
    oforEach (lineWaypoints fuel (distanceAlongTrack f c)) 0 lines = Returned byLine /\
    length (waypoints r) = length lines /\
    Forall2 (fun line pts =>
               pointOf <$> line
               = (fun wp => rotatePoint wp (flightDirection f) (centerOfMass geometry))
                   <$> pts)
      (waypoints r) byLine.
Proof.
  intros Hrun.
  destruct (generateFlightPlan_inv _ _ _ _ _ Hrun) as (lines & byLine & Hl & Hb & _ & Hw).
  exists lines, byLine. split; [done|]. split; [done|].
  destruct (oforEach_Returned _ _ _ _ Hb) as [Hlen _].
  assert (Forall2 (fun line pts =>
               pointOf <$> line
               = (fun wp => rotatePoint wp (flightDirection f) (centerOfMass geometry))
                   <$> pts) (waypoints r) byLine) as HF.
  { rewrite Hw. apply (restructure_fmap pointOf _ _ byLine []).
    rewrite app_nil_l, !fmap_imap. apply list_eq. intros i.
    rewrite list_lookup_imap, !list_lookup_fmap.
    destruct (concat byLine !! i) as [p|]; [|done].
    simpl. by destruct (rotatePoint p _ _). }
  split; [|done]. apply Forall2_length in HF. lia.
Qed.

(** ** Flight lines run from west to east *)

Lemma consecutivePairs_ordered (l : list Position) :
  Sorted Xle l ->
  Forall (fun seg : Segment => (fst (fst seg) <= fst (snd seg))%Q) (consecutivePairs l).
Proof.
  induction l as [l IH] using (induction_ltof1 _ (@length _)); unfold ltof in IH.
  destruct l as [|a [|b rest]]; [constructor | constructor |].
  intros Hs. inversion Hs as [|? ? Hs' Hab]; subst.
  inversion Hs' as [|? ? Hs'' _]; subst. inversion Hab; subst.
  simpl. constructor; [done|]. apply IH; [simpl; lia | done].
Qed.

Lemma sweepLoop_ordered `{Turf} (rotatedFeature : Geometry) (minX maxX maxY step : Q)
    (fuel : nat) :
  forall y acc lines,
    Forall (fun seg : Segment => (fst (fst seg) <= fst (snd seg))%Q) acc ->
    sweepLoop fuel rotatedFeature minX maxX maxY step y acc = Some lines ->
    Forall (fun seg : Segment => (fst (fst seg) <= fst (snd seg))%Q) lines.
Proof.
  induction fuel as [|fuel IH]; intros y acc lines Hacc; simpl;
    destruct (Qle_bool y maxY); try discriminate; try (by intros [= <-]).
  apply IH. rewrite sweepRow_spec. apply Forall_app. split; [done|].
  apply consecutivePairs_ordered, sortByX_Sorted.
Qed.

(** X3.  Every flight line produced by the sweep runs from west to east in
    rotated space: the X of its first point is at most the X of its
    second. *)
Theorem flight_lines_run_west_to_east `{Turf}
    (fuel : nat) (geometry : Geometry) (bearing_ dST : Q) (lines : list Segment) :
  coveragePath fuel geometry bearing_ dST = Some lines ->
  Forall (fun seg : Segment => (fst (fst seg) <= fst (snd seg))%Q) lines.
Proof.
  unfold coveragePath. destruct (bbox _) as [[[minX minY] maxX] maxY].
  by apply sweepLoop_ordered.
Qed.

(** ** When planning reports that no waypoint could be generated *)

Lemma lineWaypoints_nonempty `{Turf} (fuel : nat) (dAT : Q) (index : nat) (line : Segment) :
  (0 < dAT)%Q -> (0 <= lineLength line)%Q ->
  loopCount 0 (lineLength line) dAT <= fuel ->
  exists pts, lineWaypoints fuel dAT index line = Returned pts /\ pts ≠ [].
Proof.
  intros Hd HL Hfuel. set (L := lineLength line) in *.
  set (count := loopCount 0 L dAT) in *.
  assert (forall k, k < count <-> (iterAdd 0 dAT k <= L)%Q) as Hcount
    by (intros k; by apply loopCount_spec).
  assert (0 < count) as Hpos by (by apply Hcount).
  set (stepped := (fun k => along line (iterAdd 0 dAT k)) <$> seq 0 count).
  assert (stepped ≠ []) as Hne.
  { unfold stepped. destruct count; [lia | done]. }
  assert (alongLoop fuel line L dAT 0 [] = Some stepped) as Hloop.
  { rewrite (alongLoop_run line L dAT count); [done | done | |].
    - intros k Hk. by apply Hcount.
    - apply Qnot_le_lt. intros Hle. apply Hcount in Hle. lia. }
  assert (exists pts, ensureEndpoint line L stepped = Returned pts /\ pts ≠ [])
    as (pts & Hpts & Hptsne).
  { unfold ensureEndpoint. destruct (Qltb 0 L); [|by eexists].
    destruct (last stepped) as [p|] eqn:Hlast.
    - destruct (Qltb 1 _); eexists; (split; [done|]); [|done].
      intros Happ. by apply app_eq_nil in Happ as [_ ?].
    - by apply last_None in Hlast. }
  unfold lineWaypoints. fold L. rewrite Hloop, Hpts. cbn [obind].
  destruct (decide _); eexists; (split; [done|]); [|done].
  intros Hrev. apply Hptsne. by rewrite <- (reverse_involutive pts), Hrev.
Qed.

(** X4.  With positive spacings and segment lengths that are not negative,
    a run with enough budget fails with "Could not generate waypoints..."
    exactly when the sweep found no flight line; when it found some, the
    plan returned has one line per flight line and no line is empty. *)
Theorem no_coverage_iff_no_flight_line `{Turf}
    (geometry : Geometry) (f : FlightParams) (c : CameraParams) :
  (0 < distanceSideTrack f c)%Q ->
  (0 < distanceAlongTrack f c)%Q ->
  (0 < lengthToDegrees (distanceSideTrack f c))%Q ->
  (forall seg, (0 <= lineLength seg)%Q) ->
  exists N, forall fuel, N <= fuel ->
    exists lines,
      coveragePath fuel geometry (flightDirection f) (distanceSideTrack f c)
      = Some lines /\
      (lines = [] -> generateFlightPlan fuel geometry f c = Threw NoCoverage) /\
      (lines ≠ [] ->
         exists r, generateFlightPlan fuel geometry f c = Returned r /\
                   length (waypoints r) = length lines /\
                   Forall (fun line => line ≠ []) (waypoints r)).
Proof.
  intros Hs Ha Hstep Hlen.
  set (rotated := transformRotate geometry (- flightDirection f) (centerOfMass geometry)).
  destruct (bbox rotated) as [[[minX minY] maxX] maxY] eqn:Hbox.
  destruct (coveragePath_returns geometry (flightDirection f) (distanceSideTrack f c)
              minX minY maxX maxY Hbox Hstep) as (lines & Hlines).
  set (rows := loopCount minY maxY (lengthToDegrees (distanceSideTrack f c))) in *.
  exists (rows `max` max_list
            ((fun line => loopCount 0 (lineLength line) (distanceAlongTrack f c))
               <$> lines)).
  intros fuel Hfuel. exists lines. split; [apply Hlines; lia|].
  assert (forall j line, line ∈ lines ->
            exists pts, lineWaypoints fuel (distanceAlongTrack f c) j line = Returned pts
                        /\ pts ≠ []) as Hline.
  { intros j line Hline. apply lineWaypoints_nonempty; [done | done |].
    etrans; [|apply Nat.le_trans with (2 := Hfuel), Nat.le_max_r].
    apply max_list_elem_of_le, list_elem_of_fmap. by exists line. }
  destruct (oforEach_returns (lineWaypoints fuel (distanceAlongTrack f c)) lines 0)
    as [byLine HbyLine].
  { intros j line Hin. destruct (Hline j line Hin) as (pts & -> & _). by eexists. }
  destruct (oforEach_Returned _ _ _ _ HbyLine) as [Hlens Hnth].
  assert (Forall (fun pts : list Position => pts ≠ []) byLine) as Hne.
  { apply Forall_lookup. intros j pts Hj.
    destruct (lookup_lt_is_Some_2 lines j) as [line Hl];
      [rewrite <- Hlens; by eapply lookup_lt_Some|].
    destruct (Hnth j line Hl) as (pts' & Hj' & Hrun).
    rewrite Hj in Hj'. injection Hj' as <-.
    destruct (Hline (0 + j) line) as (pts' & Hrun' & Hpts');
      [by eapply list_elem_of_lookup_2|].
    rewrite Hrun in Hrun'. by injection Hrun' as <-. }
  unfold generateFlightPlan.
  apply Qle_bool_gt in Hs as Hs', Ha as Ha'. rewrite Hs', Ha'. cbn [orb].
  rewrite (Hlines fuel) by lia. rewrite HbyLine. cbn [obind].
  split.
  - intros ->. destruct byLine; [done | discriminate].
  - intros Hsome.
    destruct (decide _) as [Hz|Hnz].
    + exfalso. rewrite length_fmap in Hz. apply length_zero_iff_nil in Hz.
      destruct byLine as [|pts rest]; [by destruct lines|].
      inversion Hne; subst. simpl in Hz. by apply app_eq_nil in Hz as [? _].
    + eexists. split; [done|]. cbn [waypoints].
      assert (length <$> restructure
                (snd <$> imap (formatWaypoint f c
                   ((fun wp => rotatePoint wp (flightDirection f) (centerOfMass geometry))
                      <$> concat byLine))
                   ((fun wp => rotatePoint wp (flightDirection f) (centerOfMass geometry))
                      <$> concat byLine)) 0 byLine
              = length <$> byLine) as Hrl.
      { apply restructure_lengths. by rewrite length_fmap, length_imap, length_fmap. }
      split.
      * apply (f_equal length) in Hrl. rewrite !length_fmap in Hrl. lia.
      * apply Forall_lookup. intros j line Hj.
        apply (f_equal (fun l => l !! j)) in Hrl.
        rewrite !list_lookup_fmap, Hj in Hrl. simpl in Hrl.
        destruct (byLine !! j) as [pts|] eqn:Hp; [|done].
        rewrite Forall_lookup in Hne. specialize (Hne j pts Hp).
        injection Hrl as Hrl. intros ->. simpl in Hrl.
        symmetry in Hrl. by apply length_zero_iff_nil in Hrl.
Qed.

(** X5.  A flight line of length zero gets exactly one waypoint, its
    starting point: the endpoint is never appended to it, whatever its
    index. *)
Theorem zero_length_line_single_point `{Turf}
    (fuel : nat) (dAT : Q) (index : nat) (line : Segment) :
  (0 < dAT)%Q -> (lineLength line == 0)%Q -> 1 <= fuel ->
  lineWaypoints fuel dAT index line = Returned [along line 0].
Proof.
  intros Hd HL Hfuel. unfold lineWaypoints.
  assert (alongLoop fuel line (lineLength line) dAT 0 [] = Some [along line 0%Q])
    as ->.
  { rewrite (alongLoop_run line (lineLength line) dAT 1); [done | done | |].
    - intros k Hk. assert (k = 0) as -> by lia. simpl. lra.
    - simpl. lra. }
  unfold ensureEndpoint.
  replace (Qltb 0 (lineLength line)) with false
    by (symmetry; apply Qltb_ge; lra).
  cbn [obind]. by destruct (decide _).
Qed.

(** ** Footprint size and spacing *)

(** X6.  With a focal length and an image width that are not zero, the
    across-track footprint is altitude * sensorWidth / focalLength, whatever
    the number of pixels, and the along-track footprint is that width scaled
    by the pixel aspect ratio imageHeight / imageWidth. *)
Theorem footprint_closed_form (f : FlightParams) (c : CameraParams) :
  ~ (focalLength c == 0)%Q -> ~ (imageWidth c == 0)%Q ->
  (footprintWidth f c == fp_altitude f * sensorWidth c / focalLength c)%Q /\
  (footprintHeight f c == footprintWidth f c * imageHeight c / imageWidth c)%Q.
Proof.
  intros Hfl Hiw. unfold footprintHeight, footprintWidth, gsd.
  split; field; done.
Qed.

(** X7.  For one camera and one altitude, a larger front overlap gives a
    smaller along-track spacing and a larger side overlap gives a smaller
    spacing between flight lines. *)
Theorem spacing_decreases_with_overlap (f1 f2 : FlightParams) (c : CameraParams) :
  (0 < sensorWidth c)%Q -> (0 < focalLength c)%Q ->
  (0 < imageWidth c)%Q -> (0 < imageHeight c)%Q ->
  (0 < fp_altitude f1)%Q -> fp_altitude f1 = fp_altitude f2 ->
  ((frontOverlap f1 < frontOverlap f2)%Q ->
     (distanceAlongTrack f2 c < distanceAlongTrack f1 c)%Q) /\
  ((sideOverlap f1 < sideOverlap f2)%Q ->
     (distanceSideTrack f2 c < distanceSideTrack f1 c)%Q).
Proof.
  intros Hsw Hfl Hiw Hih Halt Heq.
  pose proof (footprintHeight_pos f1 c Hsw Hfl Hiw Hih Halt) as Hh.
  pose proof (footprintWidth_pos f1 c Hsw Hfl Hiw Halt) as Hw.
  assert (footprintHeight f2 c = footprintHeight f1 c) as Hh2
    by (unfold footprintHeight, gsd; by rewrite Heq).
  assert (footprintWidth f2 c = footprintWidth f1 c) as Hw2
    by (unfold footprintWidth, gsd; by rewrite Heq).
  assert (forall o1 o2 : Q, (o1 < o2)%Q -> (1 - o2 / 100 < 1 - o1 / 100)%Q) as Hfac.
  { intros o1 o2 Ho. unfold Qdiv. change (/ 100)%Q with (1 # 100)%Q. lra. }
  unfold distanceAlongTrack, distanceSideTrack. rewrite Hh2, Hw2.
  split; intros Ho; apply Qmult_lt_l; auto.
Qed.

(* ===================================================================== *)
(** * Further properties of getElevations                                 *)
(* ===================================================================== *)

Lemma batchStart_bounds (j : nat) : batchStart j <= j < batchStart j + BATCH_SIZE.
Proof.
  unfold batchStart, BATCH_SIZE.
  pose proof (Nat.div_mod_eq j 50). pose proof (Nat.mod_upper_bound j 50). lia.
Qed.

Lemma slice_lookup {A} (l : list A) (from to i : nat) :
  i < to - from -> slice l from to !! i = l !! (from + i).
Proof. intros Hi. unfold slice. by rewrite lookup_take_lt, lookup_drop. Qed.

(** X8.  When the service answers every batch with one entry per
    position, each entry depending on the waypoint alone, the result is
    those entries in input order: the cut into batches of 50 leaves no
    trace. *)
Theorem getElevations_pointwise (server : Server) (g : Waypoint -> option Q)
    (wps : list Waypoint) :
  (forall i batch, server i batch = Json (Elevation (g <$> batch))) ->
  getElevations server wps = Returned (g <$> wps).
Proof.
  intros Hserver.
  destruct (getElevations_spec server wps) as (out & -> & Hlen & Hnth).
  f_equal. apply list_eq. intros j.
  destruct (decide (j < length wps)) as [Hj|Hj].
  - rewrite (Hnth j Hj). unfold expectedElevation, batchPayload.
    rewrite Hserver, length_fmap, decide_True by done.
    pose proof (batchStart_bounds j) as Hb.
    rewrite !list_lookup_fmap, slice_lookup by lia.
    replace (batchStart j + (j - batchStart j)) with j by lia.
    destruct (lookup_lt_is_Some_2 wps j Hj) as [w ->]. done.
  - rewrite !lookup_ge_None_2; [done | rewrite length_fmap; lia | lia].
Qed.

(** X9.  When no batch delivers an elevation array of the right length -
    whatever else the service does - every entry of the result is
    unknown. *)
Theorem getElevations_all_unknown (server : Server) (wps : list Waypoint) :
  (forall i batch elevation,
     server i batch = Json (Elevation elevation) -> length elevation ≠ length batch) ->
  getElevations server wps = Returned (replicate (length wps) None).
Proof.
  intros Hserver.
  destruct (getElevations_spec server wps) as (out & -> & Hlen & Hnth).
  f_equal. apply list_eq. intros j.
  destruct (decide (j < length wps)) as [Hj|Hj].
  - rewrite (Hnth j Hj), lookup_replicate_2 by done.
    unfold expectedElevation, batchPayload.
    destruct (server _ _) as [|[]| |[|elevation]] eqn:E; try done.
    destruct (decide _) as [Hes|]; [|done]. by apply Hserver in E.
  - rewrite !lookup_ge_None_2; [done | rewrite length_replicate; lia | lia].
Qed.

(* ===================================================================== *)
(** * Further properties of the terrain merge                             *)
(* ===================================================================== *)

Lemma concat_lengths_inj {A} (l1 : list (list A)) :
  forall l2, length <$> l1 = length <$> l2 -> concat l1 = concat l2 -> l1 = l2.
Proof.
  induction l1 as [|x r IH]; intros [|y s] Hlen Hcat; try done.
  rewrite !fmap_cons in Hlen. injection Hlen as Hxy Hrs. simpl in Hcat.
  apply app_inj_1 in Hcat as [-> Hcat]; [|done]. f_equal. by apply IH.
Qed.

Lemma mergedWaypoint_pointOf (a : Q) (sample : option Q) (wp : Waypoint) :
  pointOf (mergedWaypoint a sample wp) = pointOf wp.
Proof. by destruct sample. Qed.

Lemma mergedWaypoint_idemp (a : Q) (sample : option Q) (wp : Waypoint) :
  mergedWaypoint a sample (mergedWaypoint a sample wp) = mergedWaypoint a sample wp.
Proof. by destruct sample. Qed.

(** What the handler does to a state with a plan. *)
Lemma handleFetchTerrainData_plan (server : Server) (st : AppState) :
  concat (st_originalWaypoints st) ≠ [] ->
  exists elevations lines',
    getElevations server (concat (st_originalWaypoints st)) = Returned elevations /\
    length elevations = length (concat (st_originalWaypoints st)) /\
    handleFetchTerrainData server st
    = Some (setOriginalWaypoints lines' (setError None st)) /\
    length <$> lines' = length <$> st_originalWaypoints st /\
    concat lines'
    = imap (fun i wp =>
              mergedWaypoint (fp_altitude (st_flightParams st))
                (mjoin (elevations !! i)) wp)
        (concat (st_originalWaypoints st)).
Proof.
  intros Hne.
  destruct (getElevations_spec server (concat (st_originalWaypoints st)))
    as (elevations & Hget & Hlen & _).
  destruct (mergeLines_spec (fp_altitude (st_flightParams st)) elevations
              (st_originalWaypoints st) 0)
    as (lines' & Hmerge & Hlens & Hcat); [lia|].
  exists elevations, lines'. split; [done|]. split; [done|].
  split; [|done]. unfold handleFetchTerrainData.
  destruct (decide _) as [Hz|_]; [by apply length_zero_iff_nil in Hz|].
  simpl. by rewrite Hget, Hmerge.
Qed.

Lemma handleFetchTerrainData_no_plan (server : Server) (st : AppState) :
  concat (st_originalWaypoints st) = [] ->
  handleFetchTerrainData server st = Some (setError (Some NoPlanYet) st).
Proof.
  intros Hnil. unfold handleFetchTerrainData. by rewrite Hnil.
Qed.

Lemma keptPositions_lengths {A B} (p : FilterParams) (l1 : list (list A)) :
  forall (l2 : list (list B)) k,
    length <$> l1 = length <$> l2 -> keptPositions p k l1 = keptPositions p k l2.
Proof.
  induction l1 as [|x r IH]; intros [|y s] k Hlen; try done.
  rewrite !fmap_cons in Hlen. injection Hlen as Hxy Hrs.
  simpl. rewrite Hxy. f_equal. by apply IH.
Qed.

Lemma filterEffect_footprints (st : AppState) :
  st_footprints (filterEffect st)
  = match st_originalWaypoints st, st_originalFootprints st with
    | _ :: _, Some features =>
        if enabled (st_filterParams st)
        then Some (omap (fun i => features !! i)
                     (keptPositions (st_filterParams st) 0 (st_originalWaypoints st)))
        else Some features
    | _, _ => None
    end.
Proof.
  destruct (st_originalWaypoints st) as [|line rest] eqn:Hl.
  - destruct (filterEffect_empty st) as [_ ->]; [by left | done].
  - destruct (st_originalFootprints st) as [features|] eqn:Hf.
    + rewrite (filterEffect_unfold st features) by (by rewrite ?Hl).
      destruct (enabled _); [|done]. cbn [negb].
      rewrite foldl_filterLine, Hl. done.
    + by destruct (filterEffect_empty st) as [_ ->]; [right|].
Qed.

Lemma filterEffect_waypoints (st : AppState) :
  st_waypoints (filterEffect st)
  = match st_originalWaypoints st, st_originalFootprints st with
    | _ :: _, Some _ =>
        if enabled (st_filterParams st)
        then concat (keepEnds (st_filterParams st) <$> st_originalWaypoints st)
        else concat (st_originalWaypoints st)
    | _, _ => []
    end.
Proof.
  destruct (st_originalWaypoints st) as [|line rest] eqn:Hl.
  - destruct (filterEffect_empty st) as [-> _]; [by left | done].
  - destruct (st_originalFootprints st) as [features|] eqn:Hf.
    + rewrite (filterEffect_unfold st features) by (by rewrite ?Hl).
      destruct (enabled _); [|by rewrite Hl]. cbn [negb].
      rewrite foldl_filterLine, Hl. done.
    + by destruct (filterEffect_empty st) as [-> _]; [right|].
Qed.

(** X10.  The terrain handler always completes, and it changes the
    altitudes of the canonical waypoints only: the lines keep their
    lengths, positions and headings, the footprints are not touched, an
    aligned plan stays aligned, and the footprints that the filter selects
    afterwards are the ones it selected before. *)
Theorem terrain_fetch_keeps_plan_shape (server : Server) (st : AppState) :
  exists st',
    handleFetchTerrainData server st = Some st' /\
    length <$> st_originalWaypoints st' = length <$> st_originalWaypoints st /\
    pointOf <$> concat (st_originalWaypoints st')
    = pointOf <$> concat (st_originalWaypoints st) /\
    heading <$> concat (st_originalWaypoints st')
    = heading <$> concat (st_originalWaypoints st) /\
    st_originalFootprints st' = st_originalFootprints st /\
    (canonical st -> canonical st') /\
    st_footprints (filterEffect st') = st_footprints (filterEffect st).
Proof.
  destruct (decide (concat (st_originalWaypoints st) = [])) as [Hnil|Hne].
  - rewrite (handleFetchTerrainData_no_plan server st Hnil). eexists.
    split; [done|]. do 4 (split; [done|]). split; [done|].
    by rewrite !filterEffect_footprints.
  - destruct (handleFetchTerrainData_plan server st Hne)
      as (elevations & lines' & _ & _ & -> & Hlens & Hcat).
    eexists. split; [done|]. cbn [st_originalWaypoints st_originalFootprints
      setOriginalWaypoints setError].
    assert (forall {B} (g : Waypoint -> B),
              (forall a s w, g (mergedWaypoint a s w) = g w) ->
              g <$> concat lines' = g <$> concat (st_originalWaypoints st)) as Hsame.
    { intros B g Hg. rewrite Hcat, fmap_imap. apply list_eq. intros i.
      rewrite list_lookup_imap, list_lookup_fmap.
      destruct (concat (st_originalWaypoints st) !! i); [|done].
      cbn -[mergedWaypoint]. by rewrite Hg. }
    split; [done|]. split; [apply Hsame; by intros a [e|] w|].
    split; [apply Hsame; by intros a [e|] w|].
    split; [done|]. split.
    + intros [[Hl _] | (Hl & features & Hf & Hlen)]; [by rewrite Hl in Hne|].
      right. cbn [st_originalWaypoints st_originalFootprints
        setOriginalWaypoints setError].
      split; [intros ->; by destruct (st_originalWaypoints st)|].
      exists features. split; [done|].
      rewrite Hlen, Hcat. by rewrite length_imap.
    + rewrite !filterEffect_footprints.
      cbn [st_originalWaypoints st_originalFootprints st_filterParams
        setOriginalWaypoints setError].
      destruct lines' as [|l' r'], (st_originalWaypoints st) as [|l r] eqn:Hl;
        try done.
      destruct (st_originalFootprints st); [|done].
      destruct (enabled _); [|done].
      by rewrite (keptPositions_lengths _ (l' :: r') (l :: r)).
Qed.

(** X11.  For a service whose answer to a batch depends on the positions
    of the batch only, fetching terrain a second time changes nothing:
    altitudes are recomputed from the elevation and the flight altitude,
    they do not accumulate. *)
Theorem terrain_fetch_idempotent (server : Server) (st st' : AppState) :
  (forall i batch batch',
     pointOf <$> batch = pointOf <$> batch' -> server i batch = server i batch') ->
  handleFetchTerrainData server st = Some st' ->
  handleFetchTerrainData server st' = Some st'.
Proof.
  intros Hserver Hrun.
  destruct (decide (concat (st_originalWaypoints st) = [])) as [Hnil|Hne].
  - rewrite (handleFetchTerrainData_no_plan server st Hnil) in Hrun.
    injection Hrun as <-. by rewrite handleFetchTerrainData_no_plan.
  - destruct (handleFetchTerrainData_plan server st Hne)
      as (elevations & lines1 & Hget & Hlen & Hrun' & Hlens & Hcat).
    rewrite Hrun' in Hrun. injection Hrun as <-.
    set (st1 := setOriginalWaypoints lines1 (setError None st)).
    assert (length (concat lines1) = length (concat (st_originalWaypoints st)))
      as Hlen1 by (by rewrite Hcat, length_imap).
    assert (concat (st_originalWaypoints st1) ≠ []) as Hne1.
    { cbn. intros Hnil. rewrite Hnil in Hlen1. simpl in Hlen1.
      symmetry in Hlen1. by apply length_zero_iff_nil in Hlen1. }
    destruct (handleFetchTerrainData_plan server st1 Hne1)
      as (elevations2 & lines2 & Hget2 & Hlen2 & -> & Hlens2 & Hcat2).
    cbn [st1 st_originalWaypoints st_flightParams setOriginalWaypoints setError]
      in Hget2, Hlen2, Hlens2, Hcat2.
    assert (pointOf <$> concat lines1 = pointOf <$> concat (st_originalWaypoints st))
      as Hpos.
    { rewrite Hcat, fmap_imap. apply list_eq. intros i.
      rewrite list_lookup_imap, list_lookup_fmap.
      destruct (concat (st_originalWaypoints st) !! i); [|done].
      cbn -[mergedWaypoint]. by rewrite mergedWaypoint_pointOf. }
    assert (elevations2 = elevations) as ->.
    { destruct (getElevations_spec server (concat lines1)) as (o2 & Ho2 & Hl2 & Hn2).
      destruct (getElevations_spec server (concat (st_originalWaypoints st)))
        as (o1 & Ho1 & Hl1 & Hn1).
      rewrite Hget2 in Ho2. injection Ho2 as <-.
      rewrite Hget in Ho1. injection Ho1 as <-.
      apply list_eq. intros j.
      destruct (decide (j < length (concat lines1))) as [Hj|Hj].
      - rewrite Hn2, Hn1 by lia. f_equal.
        unfold expectedElevation, batchPayload.
        rewrite (Hserver _ _ (slice (concat (st_originalWaypoints st)) (batchStart j)
                                (batchStart j + BATCH_SIZE))).
        + unfold slice. by rewrite !length_take, !length_drop, Hlen1.
        + unfold slice. by rewrite !fmap_take, !fmap_drop, Hpos.
      - rewrite !lookup_ge_None_2; [done | lia | lia]. }
    assert (lines2 = lines1) as ->.
    { apply concat_lengths_inj; [done|]. rewrite Hcat2, Hcat.
      apply list_eq. intros i. rewrite !list_lookup_imap.
      destruct (concat (st_originalWaypoints st) !! i); [|done].
      cbn -[mergedWaypoint]. by rewrite mergedWaypoint_idemp. }
    done.
Qed.

(* ===================================================================== *)
(** * Further properties of the filter and of the statistics              *)
(* ===================================================================== *)

Lemma keepEnds_length {A} (p : FilterParams) (line : list A) :
  length (keepEnds p line) = Nat.min (length line) (keepStart p + keepEnd p).
Proof.
  unfold keepEnds. destruct (decide _); [lia|].
  rewrite length_app, length_take, length_drop. lia.
Qed.

Lemma keepEnds_sublist {A} (p : FilterParams) (line : list A) :
  keepEnds p line `sublist_of` line.
Proof.
  unfold keepEnds. destruct (decide _) as [|Hlong]; [done|].
  trans (take (keepStart p) line ++ drop (keepStart p) line);
    [|by rewrite take_drop].
  apply sublist_app; [done|].
  replace (length line - keepEnd p)
    with (keepStart p + (length line - keepEnd p - keepStart p)) by lia.
  rewrite <- drop_drop. apply sublist_drop.
Qed.

Lemma linePositions_length (p : FilterParams) (offset n : nat) :
  length (linePositions p offset n) = Nat.min n (keepStart p + keepEnd p).
Proof.
  unfold linePositions. destruct (decide _); rewrite ?length_app, !length_seq; lia.
Qed.

Lemma keptPositions_length {A} (p : FilterParams) (lines : list (list A)) :
  forall k, length (keptPositions p k lines)
            = sum_list ((fun line => Nat.min (length line) (keepStart p + keepEnd p))
                          <$> lines).
Proof.
  induction lines as [|line rest IH]; intros k; [done|].
  cbn [keptPositions]. rewrite fmap_cons, length_app, linePositions_length, IH. done.
Qed.

(** X12.  With the filter on, a plan whose footprints are aligned keeps
    min(L, keepStart + keepEnd) waypoints of every line of length L, and
    as many footprints. *)
Theorem filtered_count (st : AppState) :
  let p := st_filterParams st in
  let total := sum_list ((fun line => Nat.min (length line) (keepStart p + keepEnd p))
                           <$> st_originalWaypoints st) in
  canonical st -> enabled p = true ->
  length (st_waypoints (filterEffect st)) = total /\
  match st_footprints (filterEffect st) with
  | Some kept => length kept = total
  | None => st_originalWaypoints st = []
  end.
Proof.
  intros p total Hcanon Hon. destruct Hcanon as [[Hl Hf] | (Hne & features & Hf & Hlen)].
  - rewrite filterEffect_waypoints, filterEffect_footprints. unfold total.
    by rewrite Hl.
  - destruct (filterEffect_aligned st features Hne Hf Hlen)
      as (kept & -> & _ & _ & HFw & HFf & _).
    fold p in HFw, HFf. rewrite Hon in HFw, HFf.
    apply Forall2_length in HFw, HFf.
    rewrite keptPositions_length in HFw, HFf. fold total in HFw, HFf. done.
Qed.

(** X13.  Whatever the state, the active waypoints are a subsequence of
    the canonical waypoints flattened in order: the filter adds nothing,
    repeats nothing and reorders nothing. *)
Theorem filtered_waypoints_sublist (st : AppState) :
  st_waypoints (filterEffect st) `sublist_of` concat (st_originalWaypoints st).
Proof.
  rewrite filterEffect_waypoints.
  destruct (st_originalWaypoints st) as [|line rest]; [done|].
  destruct (st_originalFootprints st); [|apply sublist_nil_l].
  destruct (enabled _); [|done].
  generalize (line :: rest). clear line rest. intros lines.
  induction lines as [|line rest IH]; [done|].
  rewrite fmap_cons. simpl. apply sublist_app; [apply keepEnds_sublist | done].
Qed.

Lemma keepEnds_short_lines {A} (p : FilterParams) (lines : list (list A)) :
  Forall (fun line => length line <= keepStart p + keepEnd p) lines ->
  keepEnds p <$> lines = lines.
Proof.
  induction 1 as [|l r Hl _ IH]; [done|].
  rewrite fmap_cons, IH. unfold keepEnds. rewrite decide_True by done. done.
Qed.

Lemma keptPositions_short_lines {A} (p : FilterParams) (lines : list (list A)) :
  Forall (fun line => length line <= keepStart p + keepEnd p) lines ->
  forall k, keptPositions p k lines = seq k (length (concat lines)).
Proof.
  induction 1 as [|l r Hl _ IH]; intros k; [done|].
  cbn [keptPositions concat]. rewrite IH, length_app, seq_app.
  unfold linePositions. rewrite decide_True by done. done.
Qed.

(** X14.  When no line is longer than keepStart + keepEnd, turning the
    filter on changes nothing: for an aligned plan the active view is the
    whole plan, waypoints and footprints. *)
Theorem filter_keeps_short_lines_whole (st : AppState) :
  let p := st_filterParams st in
  canonical st ->
  Forall (fun line => length line <= keepStart p + keepEnd p)
    (st_originalWaypoints st) ->
  st_waypoints (filterEffect st) = concat (st_originalWaypoints st) /\
  st_footprints (filterEffect st) = st_originalFootprints st.
Proof.
  intros p Hcanon Hshort.
  pose proof (keptPositions_short_lines p _ Hshort) as Hpos.
  pose proof (keepEnds_short_lines p _ Hshort) as Hkeep.
  destruct Hcanon as [[Hl Hf] | (Hne & features & Hf & Hlen)].
  - rewrite filterEffect_waypoints, filterEffect_footprints. by rewrite Hl, Hf.
  - destruct (filterEffect_aligned st features Hne Hf Hlen)
      as (kept & -> & -> & Hoff & _ & HFf & _).
    fold p in Hoff, HFf |- *. rewrite Hf.
    destruct (enabled p); [|by rewrite Hoff]. rewrite Hkeep. split; [done|].
    f_equal. rewrite Hpos, <- Hlen in HFf.
    apply list_eq. intros i. destruct (kept !! i) as [fp|] eqn:Hi.
    + destruct (Forall2_lookup_r _ _ _ _ _ HFf Hi) as (pos & Hp & Hfp).
      apply lookup_seq in Hp as [-> _]. done.
    + apply lookup_ge_None in Hi. apply Forall2_length in HFf.
      rewrite length_seq in HFf. symmetry. apply lookup_ge_None. lia.
Qed.

Lemma statsEffect_statsEffect `{Turf} (st : AppState) :
  statsEffect (statsEffect st) = statsEffect st.
Proof. reflexivity. Qed.

Lemma filterEffect_setStats (s : option Stats) (st : AppState) :
  filterEffect (setStats s st) = setStats s (filterEffect st).
Proof.
  unfold filterEffect. cbn [st_originalWaypoints st_originalFootprints
    st_filterParams setStats].
  destruct (st_originalWaypoints st); [done|].
  destruct (st_originalFootprints st); [|done].
  destruct (negb _); [done|]. by destruct (foldl _ _ _) as [[? ?] ?].
Qed.

Lemma filterEffect_as_view (st : AppState) :
  filterEffect st
  = setFootprints (st_footprints (filterEffect st))
      (setWaypoints (st_waypoints (filterEffect st)) st).
Proof.
  unfold filterEffect.
  destruct (st_originalWaypoints st); [done|].
  destruct (st_originalFootprints st); [|done].
  destruct (negb _); [done|]. by destruct (foldl _ _ _) as [[? ?] ?].
Qed.

Lemma filterEffect_filterEffect (st : AppState) :
  filterEffect (filterEffect st) = filterEffect st.
Proof.
  rewrite (filterEffect_as_view (filterEffect st)).
  rewrite filterEffect_footprints, filterEffect_waypoints.
  destruct (filterEffect_original st) as [-> ->].
  assert (st_filterParams (filterEffect st) = st_filterParams st) as ->.
  { by rewrite (filterEffect_as_view st). }
  rewrite <- filterEffect_footprints, <- filterEffect_waypoints.
  remember (st_footprints (filterEffect st)) as F eqn:HF.
  remember (st_waypoints (filterEffect st)) as W eqn:HW.
  rewrite (filterEffect_as_view st), <- HF, <- HW. done.
Qed.

Lemma effects_settled `{Turf} (st : AppState) :
  filterEffect (render st) = render st /\ statsEffect (render st) = render st.
Proof.
  assert (render st = statsEffect (filterEffect st)) as Hr.
  { unfold render. unfold statsEffect at 2. by rewrite filterEffect_setStats. }
  split; [|by rewrite Hr].
  rewrite Hr. unfold statsEffect.
  by rewrite filterEffect_setStats, filterEffect_filterEffect.
Qed.

(** X15.  One round of the effects settles the state: after the
    statistics effect, the filter effect and the statistics effect again,
    running either effect once more changes nothing, the active view is
    the filter's view of the canonical plan and the statistics are those
    of that view. *)
Theorem effects_settle `{Turf} (st : AppState) :
  filterEffect (render st) = render st /\
  statsEffect (render st) = render st /\
  render (render st) = render st /\
  st_waypoints (render st) = st_waypoints (filterEffect st) /\
  st_footprints (render st) = st_footprints (filterEffect st) /\
  st_stats (render st)
  = computeStats (st_waypoints (filterEffect st)) (st_originalWaypoints st)
      (fp_speed (st_flightParams st)) (st_cameraParams st).
Proof.
  assert (render st = statsEffect (filterEffect st)) as Hr.
  { unfold render. unfold statsEffect at 2. by rewrite filterEffect_setStats. }
  assert (filterEffect (render st) = render st) as Hf.
  { rewrite Hr. unfold statsEffect.
    by rewrite filterEffect_setStats, filterEffect_filterEffect. }
  assert (statsEffect (render st) = render st) as Hs by (by rewrite Hr).
  split; [done|]. split; [done|]. split.
  - unfold render at 1. by rewrite Hs, Hf, Hs.
  - rewrite Hr. split; [done|]. split; [done|].
    unfold statsEffect. cbn [st_stats setStats].
    destruct (filterEffect_original st) as [-> _].
    f_equal; unfold filterEffect; destruct (st_originalWaypoints st); try done;
      destruct (st_originalFootprints st); try done;
      destruct (negb _); try done; by destruct (foldl _ _ _) as [[? ?] ?].
Qed.

(** X16.  With a single active waypoint (and a plan, and a speed that is
    not zero) the statistics show a distance of 0.00 km and a flight time
    of 00:00 for one photo. *)
Theorem stats_of_single_waypoint `{Turf} (st : AppState) (w : Waypoint) :
  st_waypoints st = [w] ->
  st_originalWaypoints st ≠ [] ->
  ~ (fp_speed (st_flightParams st) == 0)%Q ->
  exists s, st_stats (statsEffect st) = Some s /\
            totalDistance s = "0.00"%string /\
            flightTime s = "00:00"%string /\
            photoCount s = 1.
Proof.
  intros Hw Hl Hv. unfold statsEffect, computeStats. rewrite Hw.
  destruct (st_originalWaypoints st) as [|l r]; [done|].
  cbn [length bool_decide orb]. 
  replace (bool_decide (length (l :: r) = 0)) with false by done.
  replace (bool_decide (1 = 0)) with false by done.
  cbn [orb st_stats setStats]. eexists. split; [done|].
  cbn [totalDistance flightTime photoCount].
  change (sumDistances [w]) with 0%Q.
  split; [vm_compute; reflexivity|]. split; [|done].
  set (v := fp_speed (st_flightParams st)).
  assert (fdiv 0 v = 0%Q) as -> by (apply b64_zero; unfold Qdiv; ring).
  vm_compute. reflexivity.
Qed.

(* ===================================================================== *)
(** * Properties of the handlers                                          *)
(* ===================================================================== *)

Lemma canonical_ext (a b : AppState) :
  st_originalWaypoints a = st_originalWaypoints b ->
  st_originalFootprints a = st_originalFootprints b ->
  canonical b -> canonical a.
Proof. unfold canonical. by intros -> ->. Qed.

Lemma canonical_plan `{Turf} (fuel : nat) (geometry : Geometry)
    (f : FlightParams) (c : CameraParams) (r : FlightPlanResult) (a : AppState) :
  generateFlightPlan fuel geometry f c = Returned r ->
  st_originalWaypoints a = waypoints r ->
  st_originalFootprints a = Some (footprints r) ->
  canonical a.
Proof.
  intros Hrun Hl Hf. right. rewrite Hl, Hf. split.
  - intros Hnil. apply (plan_nonempty _ _ _ _ _ Hrun). by rewrite Hnil.
  - eexists. split; [done|]. by eapply footprints_length.
Qed.

Lemma handleFetchTerrainData_canonical (server : Server) (st st' : AppState) :
  handleFetchTerrainData server st = Some st' -> canonical st -> canonical st'.
Proof.
  intros Hrun Hcanon.
  destruct (decide (concat (st_originalWaypoints st) = [])) as [Hnil|Hne].
  - rewrite (handleFetchTerrainData_no_plan server st Hnil) in Hrun.
    injection Hrun as <-. by apply (canonical_ext _ st).
  - destruct (handleFetchTerrainData_plan server st Hne)
      as (elevations & lines' & _ & _ & Hrun' & Hlens & Hcat).
    rewrite Hrun' in Hrun. injection Hrun as <-.
    destruct Hcanon as [[Hl _] | (Hl & features & Hf & Hlen)]; [by rewrite Hl in Hne|].
    right. cbn [st_originalWaypoints st_originalFootprints
      setOriginalWaypoints setError].
    split; [intros ->; by destruct (st_originalWaypoints st)|].
    exists features. split; [done|]. rewrite Hlen, Hcat. by rewrite length_imap.
Qed.

Section HandlerProperties.
Context `{Turf}.
Variable union : list Geometry -> Try (option Geometry).

Lemma planSurveyArea_Returned (fuel : nat) (features : list Feature)
    (f : FlightParams) (c : CameraParams) (r : FlightPlanResult) :
  planSurveyArea union fuel features f c = Returned r ->
  exists geometry, generateFlightPlan fuel geometry f c = Returned r.
Proof.
  unfold planSurveyArea. destruct (polygonsOf features) as [|g [|g' rest]].
  - discriminate.
  - by exists g.
  - destruct (union _) as [[g''|]|]; [by exists g'' | discriminate | discriminate].
Qed.

Lemma generateFlightPlan_ends (geometry : Geometry)
    (f : FlightParams) (c : CameraParams) :
  ((0 < distanceSideTrack f c)%Q ->
   (0 < lengthToDegrees (distanceSideTrack f c))%Q) ->
  exists N, forall fuel, N <= fuel ->
    generateFlightPlan fuel geometry f c ≠ OutOfFuel.
Proof.
  intros Hdeg.
  destruct (Qlt_le_dec 0 (distanceSideTrack f c)) as [Hs|Hs];
    [destruct (Qlt_le_dec 0 (distanceAlongTrack f c)) as [Ha|Ha]|].
  - set (rotated := transformRotate geometry (- flightDirection f)
                      (centerOfMass geometry)).
    destruct (bbox rotated) as [[[minX minY] maxX] maxY] eqn:Hbox.
    destruct (coveragePath_returns geometry (flightDirection f)
                (distanceSideTrack f c) minX minY maxX maxY Hbox (Hdeg Hs))
      as (lines & Hlines).
    exists (loopCount minY maxY (lengthToDegrees (distanceSideTrack f c))
            `max` max_list
                    ((fun line =>
                        loopCount 0 (lineLength line) (distanceAlongTrack f c))
                       <$> lines)).
    intros fuel Hfuel. unfold generateFlightPlan.
    apply Qle_bool_gt in Hs as Hs', Ha as Ha'. rewrite Hs', Ha'. cbn [orb].
    rewrite (Hlines fuel) by lia.
    destruct (oforEach_returns (lineWaypoints fuel (distanceAlongTrack f c)) lines 0)
      as [byLine ->].
    { intros j line Hline. apply lineWaypoints_returns; [done|].
      etrans; [|apply Nat.le_trans with (2 := Hfuel), Nat.le_max_r].
      apply max_list_elem_of_le, list_elem_of_fmap. by exists line. }
    cbn [obind]. by destruct (decide _).
  - exists 0. intros fuel _.
    by rewrite generateFlightPlan_guard_true by (by right).
  - exists 0. intros fuel _.
    by rewrite generateFlightPlan_guard_true by (by left).
Qed.

Lemma planSurveyArea_ends (features : list Feature)
    (f : FlightParams) (c : CameraParams) :
  ((0 < distanceSideTrack f c)%Q ->
   (0 < lengthToDegrees (distanceSideTrack f c))%Q) ->
  exists N, forall fuel, N <= fuel ->
    planSurveyArea union fuel features f c ≠ OutOfFuel.
Proof.
  intros Hdeg. unfold planSurveyArea.
  destruct (polygonsOf features) as [|g [|g' rest]].
  - by exists 0.
  - by apply generateFlightPlan_ends.
  - destruct (union _) as [[g''|]|]; [by apply generateFlightPlan_ends|..];
      by exists 0.
Qed.

Lemma handleGeneratePlan_outcome
    (fuel : nat) (s s' : Session) (features : list Feature) :
  surveyArea s = Some features -> features ≠ [] ->
  handleGeneratePlan union fuel s = Some s' ->
  isLoading s' = false /\ surveyArea s' = surveyArea s /\
  st_error (app s') = None /\ canonical (app s') /\
  ((exists r,
      planSurveyArea union fuel features (st_flightParams (app s))
        (st_cameraParams (app s)) = Returned r /\
      st_originalWaypoints (app s') = waypoints r /\
      st_originalFootprints (app s') = Some (footprints r) /\
      length (footprints r) = length (concat (waypoints r)) /\
      logMessages s'
      = {| lm_type := LogSuccess;
           lm_message := PlanGenerated (length (concat (waypoints r))) |}
          :: logMessages s) \/
   (exists message,
      planSurveyArea union fuel features (st_flightParams (app s))
        (st_cameraParams (app s)) = Threw message /\
      st_originalWaypoints (app s') = [] /\
      st_originalFootprints (app s') = None /\
      st_waypoints (app s') = [] /\
      st_footprints (app s') = None /\
      logMessages s'
      = {| lm_type := LogError; lm_message := message |} :: logMessages s)).
Proof.
  intros Harea Hne. unfold handleGeneratePlan. rewrite Harea.
  destruct features as [|ft rest]; [done|].
  cbn [app withApp setIsLoading st_flightParams st_cameraParams setError].
  destruct (planSurveyArea _ _ _ _ _) as [r|message|] eqn:Hplan; [| |discriminate];
    intros [= <-]; (split; [done|]); (split; [done|]); (split; [done|]).
  - destruct (planSurveyArea_Returned _ _ _ _ _ Hplan) as [geometry Hrun].
    split; [by eapply canonical_plan|]. left. exists r.
    split; [done|]. split; [done|]. split; [done|].
    split; [by eapply footprints_length | done].
  - split; [by left|]. right. by exists message.
Qed.

(** X17.  Generating a plan for a survey area with features ends, and in
    one of two ways (for a camera whose focal length and image width are
    not zero, and a row step in degrees that is positive when the spacing
    is): beyond some loop budget the handler always completes, the loading
    flag is cleared and exactly one entry is added at the head of the log;
    either the canonical lines and footprints of the returned plan are
    installed, aligned one to one, with a success entry that gives the
    number of waypoints; or the error message that was thrown is logged
    and both the canonical plan and the active view are emptied. *)
Theorem generate_plan_installs_or_clears (s : Session) (features : list Feature) :
  let f := st_flightParams (app s) in
  let c := st_cameraParams (app s) in
  surveyArea s = Some features -> features ≠ [] ->
  ~ (focalLength c == 0)%Q -> ~ (imageWidth c == 0)%Q ->
  ((0 < distanceSideTrack f c)%Q ->
   (0 < lengthToDegrees (distanceSideTrack f c))%Q) ->
  exists N, forall fuel, N <= fuel ->
    exists s',
      handleGeneratePlan union fuel s = Some s' /\
      isLoading s' = false /\ surveyArea s' = surveyArea s /\
      st_error (app s') = None /\ canonical (app s') /\
      ((exists r,
          planSurveyArea union fuel features f c = Returned r /\
          st_originalWaypoints (app s') = waypoints r /\
          st_originalFootprints (app s') = Some (footprints r) /\
          length (footprints r) = length (concat (waypoints r)) /\
          logMessages s'
          = {| lm_type := LogSuccess;
               lm_message := PlanGenerated (length (concat (waypoints r))) |}
              :: logMessages s) \/
       (exists message,
          planSurveyArea union fuel features f c = Threw message /\
          st_originalWaypoints (app s') = [] /\
          st_originalFootprints (app s') = None /\
          st_waypoints (app s') = [] /\
          st_footprints (app s') = None /\
          logMessages s'
          = {| lm_type := LogError; lm_message := message |} :: logMessages s)).
Proof.
  intros f c Harea Hne _ _ Hdeg.
  destruct (planSurveyArea_ends features f c Hdeg) as [N HN].
  exists N. intros fuel Hfuel. specialize (HN fuel Hfuel).
  assert (exists s', handleGeneratePlan union fuel s = Some s') as [s' Hrun].
  { unfold handleGeneratePlan. rewrite Harea.
    destruct features as [|ft rest]; [done|].
    cbn [app withApp setIsLoading st_flightParams st_cameraParams setError].
    fold f c. destruct (planSurveyArea _ _ _ _ _); [by eexists..|done]. }
  exists s'. split; [done|]. by apply (handleGeneratePlan_outcome fuel).
Qed.

(** X18.  Two failures of plan generation that do not depend on the
    planner's budget: a survey area none of whose features is a polygon
    is answered with "Survey area contains no valid polygon features.",
    and a single polygon with a spacing that is not positive (for a camera
    whose focal length and image width are not zero) with "Overlap values
    must be less than 100%."; in both cases the message is logged as an
    error and the plan is emptied. *)
Theorem generate_plan_failures (fuel : nat) (s : Session) (features : list Feature) :
  surveyArea s = Some features -> features ≠ [] ->
  let f := st_flightParams (app s) in
  let c := st_cameraParams (app s) in
  let cleared message :=
    Some (setIsLoading false
            (withApp (fun a => setFootprints None
                                 (setWaypoints []
                                    (setOriginalFootprints None
                                       (setOriginalWaypoints [] a))))
               (addLogMessage message LogError
                  (setIsLoading true (withApp (setError None) s))))) in
  (Forall (fun ft => ft = OtherFeature) features ->
     handleGeneratePlan union fuel s = cleared NoValidPolygons) /\
  (forall geometry,
     polygonsOf features = [geometry] ->
     ~ (focalLength c == 0)%Q -> ~ (imageWidth c == 0)%Q ->
     (distanceSideTrack f c <= 0)%Q \/ (distanceAlongTrack f c <= 0)%Q ->
     handleGeneratePlan union fuel s = cleared InvalidParameters).
Proof.
  intros Harea Hne f c cleared. unfold handleGeneratePlan. rewrite Harea.
  destruct features as [|ft rest]; [done|].
  cbn [app withApp setIsLoading st_flightParams st_cameraParams setError].
  split.
  - intros Hother.
    assert (polygonsOf (ft :: rest) = []) as Hnone.
    { clear Harea Hne. induction Hother as [|x r -> _ IH]; [done | exact IH]. }
    unfold planSurveyArea. by rewrite Hnone.
  - intros geometry Hone _ _ Hguard.
    unfold planSurveyArea. rewrite Hone.
    by rewrite generateFlightPlan_guard_true.
Qed.

Lemma render_original (a : AppState) :
  st_originalWaypoints (render a) = st_originalWaypoints a /\
  st_originalFootprints (render a) = st_originalFootprints a.
Proof.
  unfold render, statsEffect. cbn [st_originalWaypoints st_originalFootprints setStats].
  rewrite filterEffect_setStats.
  cbn [st_originalWaypoints st_originalFootprints setStats].
  apply filterEffect_original.
Qed.

Lemma onFetchTerrain_app (server : Server) (s s' : Session) :
  onFetchTerrain server s = Some s' ->
  handleFetchTerrainData server (app s) = Some (app s').
Proof.
  unfold onFetchTerrain, handleFetchTerrainData.
  destruct (decide _); [by intros [= <-]|].
  cbn [app withApp addLogMessage setIsFetchingTerrain st_originalWaypoints
    st_flightParams setError].
  destruct (getElevations _ _) as [elevations|message|]; [| |discriminate].
  - destruct (fst _); [|discriminate]. by intros [= <-].
  - by intros [= <-].
Qed.

(** X19.  With a plan, the terrain handler ends by reporting success
    whatever the service does, every request failing included: the log
    gains "Fetching terrain data for N waypoints..." and then "Terrain
    data fetched and applied successfully.", no error is set or logged,
    the busy flag is cleared and the survey area is kept. *)
Theorem terrain_fetch_reports_success (server : Server) (s : Session) :
  concat (st_originalWaypoints (app s)) ≠ [] ->
  exists s',
    onFetchTerrain server s = Some s' /\
    handleFetchTerrainData server (app s) = Some (app s') /\
    isFetchingTerrain s' = false /\
    st_error (app s') = None /\
    surveyArea s' = surveyArea s /\
    logMessages s'
    = {| lm_type := LogSuccess; lm_message := TerrainApplied |}
        :: {| lm_type := LogInfo;
              lm_message :=
                FetchingTerrain (length (concat (st_originalWaypoints (app s)))) |}
        :: logMessages s.
Proof.
  intros Hne.
  destruct (getElevations_spec server (concat (st_originalWaypoints (app s))))
    as (elevations & Hget & Hlen & _).
  destruct (mergeLines_spec (fp_altitude (st_flightParams (app s))) elevations
              (st_originalWaypoints (app s)) 0)
    as (lines' & Hmerge & _); [lia|].
  unfold onFetchTerrain, handleFetchTerrainData.
  destruct (decide (length (concat (st_originalWaypoints (app s))) = 0)) as [Hz|_];
    [by apply length_zero_iff_nil in Hz|].
  cbn [app withApp addLogMessage setIsFetchingTerrain st_originalWaypoints
    st_flightParams setError].
  rewrite Hget, Hmerge. eexists. split; [reflexivity|]. done.
Qed.

Lemma handleDownload_plan (nothing downloaded : string) (saved : Try unit)
    (s : Session) :
  canonical (app s) -> canonical (app (handleDownload nothing downloaded saved s)).
Proof.
  unfold handleDownload. destruct (decide _); [by apply canonical_ext|].
  destruct saved; by apply canonical_ext.
Qed.

Lemma handle_canonical (e : Event) (s s' : Session) :
  handle union e s = Some s' -> canonical (app s) -> canonical (app s').
Proof.
  destruct e as [fuel|server| |area|upload|saved|saved|saved|p|p|p]; cbn [handle].
  - intros Hrun Hcanon. unfold handleGeneratePlan in Hrun.
    destruct (surveyArea s) as [[|ft rest]|] eqn:Harea;
      try (injection Hrun as <-; by apply (canonical_ext _ (app s))).
    cbn [app withApp setIsLoading st_flightParams st_cameraParams setError] in Hrun.
    destruct (planSurveyArea _ _ _ _ _) as [r|message|] eqn:Hplan; [| |discriminate];
      injection Hrun as <-.
    + destruct (planSurveyArea_Returned _ _ _ _ _ Hplan) as [geometry Hgen].
      by eapply canonical_plan.
    + by left.
  - intros Hrun Hcanon. apply onFetchTerrain_app in Hrun.
    by eapply handleFetchTerrainData_canonical.
  - intros [= <-] _. by left.
  - intros [= <-] _. by left.
  - intros [= <-]. unfold handleImportShapefile.
    destruct (readShapefile upload); [by left | by apply canonical_ext].
  - intros [= <-]. by apply handleDownload_plan.
  - intros [= <-]. by apply handleDownload_plan.
  - intros [= <-]. by apply handleDownload_plan.
  - intros [= <-]. by apply canonical_ext.
  - intros [= <-]. by apply canonical_ext.
  - intros [= <-]. by apply canonical_ext.
Qed.

Lemma reachable_run (events : list Event) (s s' : Session) :
  reachable union s -> run union events s = Some s' -> reachable union s'.
Proof.
  revert s. induction events as [|e rest IH]; intros s Hs Hrun; cbn in Hrun.
  - by injection Hrun as <-.
  - destruct (step union e s) as [s1|] eqn:Hstep; [|done].
    eapply IH; [|exact Hrun]. by eapply reachable_step.
Qed.

(** X20.  In every state the component reaches - handlers running one
    after the other, the effects after each - the canonical plan is
    aligned (no plan, or one footprint per waypoint), the state is a fixed
    point of both effects, the statistics are absent exactly when there is
    no active waypoint, the active footprints are as many as the active
    waypoints, and the active waypoints are a subsequence of the canonical
    ones. *)
Theorem reachable_consistent (s : Session) :
  reachable union s ->
  canonical (app s) /\
  filterEffect (app s) = app s /\
  statsEffect (app s) = app s /\
  (st_stats (app s) = None <-> st_waypoints (app s) = []) /\
  match st_footprints (app s) with
  | Some kept => length kept = length (st_waypoints (app s))
  | None => st_waypoints (app s) = []
  end /\
  st_waypoints (app s) `sublist_of` concat (st_originalWaypoints (app s)).
Proof.
  intros Hreach.
  assert (canonical (app s) /\ filterEffect (app s) = app s /\
          statsEffect (app s) = app s) as (Hcanon & Hf & Hs).
  { induction Hreach as [fp cp p|e s s' _ IH Hstep]; [by split; [left|]|].
    unfold step in Hstep. destruct (handle union e s) as [h|] eqn:Hh; [|done].
    injection Hstep as <-. cbn [app withApp].
    destruct IH as (Hcanon & _ & _).
    pose proof (handle_canonical e s h Hh Hcanon) as Hcanon'.
    destruct (render_original (app h)) as [Hl Hfp].
    destruct (effects_settled (app h)) as (Hf & Hs).
    split; [by apply (canonical_ext _ (app h))|]. done. }
  split; [done|]. split; [done|]. split; [done|].
  assert (st_waypoints (app s) `sublist_of` concat (st_originalWaypoints (app s)))
    as Hsub.
  { rewrite <- Hf at 1. rewrite filterEffect_waypoints.
    destruct (st_originalWaypoints (app s)) as [|line rest]; [done|].
    destruct (st_originalFootprints (app s)); [|apply sublist_nil_l].
    destruct (enabled _); [|done].
    generalize (line :: rest). clear. intros lines.
    induction lines as [|line rest IH]; [done|].
    rewrite fmap_cons. simpl. apply sublist_app; [apply keepEnds_sublist | done]. }
  split; [|split; [|done]].
  - rewrite <- Hs at 1. unfold statsEffect, computeStats. cbn [st_stats setStats].
    destruct (st_waypoints (app s)) as [|w ws] eqn:Hw; [done|].
    destruct (st_originalWaypoints (app s)) as [|line rest] eqn:Hl.
    + by apply sublist_nil_r in Hsub.
    + done.
  - rewrite <- Hf. destruct Hcanon as [[Hl Hfp] | (Hne & features & Hfp & Hlen)].
    + destruct (filterEffect_empty (app s)) as [-> ->]; [by left | done].
    + destruct (filterEffect_aligned (app s) features Hne Hfp Hlen)
        as (kept & -> & _ & _ & HFw & HFf & _).
      apply Forall2_length in HFw, HFf. lia.
Qed.

Lemma existsb_endsWith (files : list (string * Try string)) (ext : string) :
  existsb (fun name => endsWith name ext)
    ((fun entry => toLowerCase (fst entry)) <$> files) = true ->
  exists entry, entry ∈ files /\ endsWith (toLowerCase (fst entry)) ext = true.
Proof.
  intros Hex. apply existsb_exists in Hex as (name & Hin & Hends).
  rewrite <- list_elem_of_In in Hin.
  apply list_elem_of_fmap_1 in Hin. destruct Hin as (entry & -> & Hentry).
  by exists entry.
Qed.

(** X21.  An import always clears the loading flag and logs "Importing
    <file>..." followed by one more entry.  It succeeds only when the
    archive opens and lists a .shp, a .shx and a .dbf (in any letter
    case), the first .prj entry - if there is one - can be read and
    mentions WGS_1984, WGS 84 or 4326, and the parsed shapefile holds at
    least one polygon; the polygons are then appended to the survey area
    and the flight plan is emptied.  Otherwise the error is logged and the
    survey area and the plan stay as they were. *)
Theorem import_shapefile_outcomes (upload : Upload) (s : Session) :
  let s' := handleImportShapefile upload s in
  let importing := {| lm_type := LogInfo; lm_message := Importing (fileName upload) |} in
  isLoading s' = false /\
  ((exists message,
      readShapefile upload = Thrown message /\
      surveyArea s' = surveyArea s /\
      app s' = setError None (app s) /\
      logMessages s'
      = {| lm_type := LogError; lm_message := message |} :: importing :: logMessages s) \/
   (exists polygons files features,
      readShapefile upload = Ok polygons /\
      zipFiles upload = Ok files /\
      shpFeatures upload = Ok features /\
      polygons = filter (fun ft => isPolygon ft = true) features /\
      polygons ≠ [] /\
      (forall ext, ext ∈ [".shp"; ".shx"; ".dbf"]%string ->
         exists entry, entry ∈ files /\ endsWith (toLowerCase (fst entry)) ext = true) /\
      match find (fun entry => endsWith (toLowerCase (fst entry)) ".prj") files with
      | Some (_, content) =>
          exists prjContent, content = Ok prjContent /\ isWGS84 prjContent = true
      | None => True
      end /\
      surveyArea s' = Some (default [] (surveyArea s) ++ polygons) /\
      app s' = clearFlightPlan (setError None (app s)) /\
      logMessages s'
      = {| lm_type := LogSuccess; lm_message := Imported (length polygons) |}
          :: importing :: logMessages s)).
Proof.
  intros s' importing. unfold s', handleImportShapefile.
  destruct (readShapefile upload) as [polygons|message] eqn:Hread.
  - split; [done|]. right. unfold readShapefile in Hread.
    destruct (zipFiles upload) as [files|] eqn:Hzip; [|discriminate].
    cbv zeta in Hread.
    destruct (existsb (fun name => endsWith name ".shp") _) eqn:Hshp;
      [|discriminate].
    destruct (existsb (fun name => endsWith name ".shx") _) eqn:Hshx;
      [|discriminate].
    destruct (existsb (fun name => endsWith name ".dbf") _) eqn:Hdbf;
      [|discriminate].
    cbn [negb orb] in Hread.
    assert (Hprj : match find (fun entry => endsWith (toLowerCase (fst entry)) ".prj")
                           files with
                   | Some (_, content) =>
                       exists prjContent,
                         content = Ok prjContent /\ isWGS84 prjContent = true
                   | None => True
                   end /\
                   match shpFeatures upload with
                   | Thrown message => Thrown message
                   | Ok features =>
                       if decide (length (filter (fun ft => isPolygon ft = true)
                                            features) = 0)
                       then Thrown NoPolygonsImported
                       else Ok (filter (fun ft => isPolygon ft = true) features)
                   end = Ok polygons).
    { destruct (find (fun entry => endsWith (toLowerCase (fst entry)) ".prj") files)
        as [[name [prjContent|]]|]; [|discriminate|done].
      destruct (isWGS84 prjContent) eqn:Hwgs; [|discriminate].
      split; [by exists prjContent | done]. }
    destruct Hprj as [Hprj Hparse].
    destruct (shpFeatures upload) as [features|] eqn:Hfeatures; [|discriminate].
    destruct (decide (length (filter (fun ft => isPolygon ft = true) features) = 0))
      as [|Hlen]; [discriminate|].
    injection Hparse as <-.
    exists (filter (fun ft => isPolygon ft = true) features), files, features.
    repeat (split; [done|]).
    split; [intros Hnil; by rewrite Hnil in Hlen|].
    split; [|done].
    intros ext Hext.
    repeat (apply elem_of_cons in Hext as [->|Hext]);
      [by apply existsb_endsWith..|by apply elem_of_nil in Hext].
  - split; [done|]. left. by exists message.
Qed.

End HandlerProperties.


(* ===================================================================== *)
(** * The further properties on the flat-earth instance                   *)
(* ===================================================================== *)

Lemma flat_lengths_nonneg (seg : Segment) : (0 <= @lineLength Flat.turf seg)%Q.
Proof. apply taxicab_nonneg. Qed.

(** X1 on the square: the spacings are 50 m. *)
Lemma generateFlightPlan_terminates_witness :
  (0 < distanceSideTrack Flat.flight Flat.camera)%Q /\
  (0 < distanceAlongTrack Flat.flight Flat.camera)%Q /\
  exists N, forall fuel, N <= fuel ->
    @generateFlightPlan Flat.turf fuel Flat.square Flat.flight Flat.camera
    = Threw NoCoverage \/
    exists r, @generateFlightPlan Flat.turf fuel Flat.square Flat.flight Flat.camera
              = Returned r.
Proof.
  split; [reflexivity|]. split; [reflexivity|].
  exact (@generateFlightPlan_terminates Flat.turf Flat.square Flat.flight Flat.camera
           eq_refl eq_refl eq_refl).
Defined.

(** X4 on the square. *)
Lemma no_coverage_iff_no_flight_line_witness :
  (0 < distanceSideTrack Flat.flight Flat.camera)%Q /\
  exists N, forall fuel, N <= fuel ->
    exists lines,
      @coveragePath Flat.turf fuel Flat.square 0 (distanceSideTrack Flat.flight Flat.camera)
      = Some lines /\
      (lines = [] ->
       @generateFlightPlan Flat.turf fuel Flat.square Flat.flight Flat.camera
       = Threw NoCoverage) /\
      (lines ≠ [] ->
       exists r, @generateFlightPlan Flat.turf fuel Flat.square Flat.flight Flat.camera
                 = Returned r /\
                 length (waypoints r) = length lines /\
                 Forall (fun line => line ≠ []) (waypoints r)).
Proof.
  split; [reflexivity|].
  exact (@no_coverage_iff_no_flight_line Flat.turf Flat.square Flat.flight Flat.camera
           eq_refl eq_refl eq_refl flat_lengths_nonneg).
Defined.

(** X3 on the flight lines of the two squares. *)
Lemma flight_lines_run_west_to_east_witness :
  @coveragePath Flat.turf 3 Flat.twoSquares 0 50 = Some Flat.twoSquaresLines /\
  Forall (fun seg : Segment => (fst (fst seg) <= fst (snd seg))%Q) Flat.twoSquaresLines.
Proof.
  assert (@coveragePath Flat.turf 3 Flat.twoSquares 0 50 = Some Flat.twoSquaresLines)
    as Hrun by (vm_compute; reflexivity).
  split; [exact Hrun|].
  exact (@flight_lines_run_west_to_east Flat.turf 3 Flat.twoSquares 0 50
           Flat.twoSquaresLines Hrun).
Defined.

(** X2 on the plan of the square. *)
Lemma plan_lines_follow_segments_witness :
  @generateFlightPlan Flat.turf 10 Flat.square Flat.flight Flat.camera
  = Returned Flat.squarePlan /\
  exists (lines : list Segment) (byLine : list (list Position)),
    @coveragePath Flat.turf 10 Flat.square 0 (distanceSideTrack Flat.flight Flat.camera)
    = Some lines /\
    length (waypoints Flat.squarePlan) = length lines /\
    Forall2 (fun line pts => pointOf <$> line = pts) (waypoints Flat.squarePlan) byLine.
Proof.
  split; [exact square_planned|].
  destruct (@plan_lines_follow_segments Flat.turf 10 Flat.square Flat.flight Flat.camera
              Flat.squarePlan square_planned)
    as (lines & byLine & Hlines & _ & Hlen & Hpos).
  exists lines, byLine. split; [exact Hlines|]. split; [exact Hlen|].
  eapply Forall2_impl; [exact Hpos|].
  intros line pts ->. cbn. apply list_fmap_id.
Defined.

(** X6 on the example camera at 100 m: a footprint of 100 m by 100 m. *)
Lemma footprint_closed_form_witness :
  ~ (focalLength Flat.camera == 0)%Q /\ ~ (imageWidth Flat.camera == 0)%Q /\
  (footprintWidth Flat.flight Flat.camera == 100 * 10 / 10)%Q /\
  (footprintHeight Flat.flight Flat.camera
   == footprintWidth Flat.flight Flat.camera * 100 / 100)%Q.
Proof.
  assert (~ (focalLength Flat.camera == 0)%Q) as Hf by (vm_compute; discriminate).
  assert (~ (imageWidth Flat.camera == 0)%Q) as Hw by (vm_compute; discriminate).
  split; [exact Hf|]. split; [exact Hw|].
  exact (footprint_closed_form Flat.flight Flat.camera Hf Hw).
Defined.

(** X7 on the example flight and the denser one. *)
Lemma spacing_decreases_with_overlap_witness :
  (frontOverlap Flat.flight < frontOverlap Flat.denseFlight)%Q /\
  (sideOverlap Flat.flight < sideOverlap Flat.denseFlight)%Q /\
  (distanceAlongTrack Flat.denseFlight Flat.camera
   < distanceAlongTrack Flat.flight Flat.camera)%Q /\
  (distanceSideTrack Flat.denseFlight Flat.camera
   < distanceSideTrack Flat.flight Flat.camera)%Q.
Proof.
  split; [reflexivity|]. split; [reflexivity|].
  destruct (spacing_decreases_with_overlap Flat.flight Flat.denseFlight Flat.camera
              eq_refl eq_refl eq_refl eq_refl eq_refl eq_refl) as [Hfront Hside].
  split; [exact (Hfront eq_refl) | exact (Hside eq_refl)].
Defined.

(** X5 on a flight line that is a single point, as an odd-indexed line. *)
Lemma zero_length_line_single_point_witness :
  (@lineLength Flat.turf Flat.pointLine == 0)%Q /\
  @lineWaypoints Flat.turf 5 50 1 Flat.pointLine = Returned [(0 # 111195, 0)%Q].
Proof.
  assert (@lineLength Flat.turf Flat.pointLine == 0)%Q as Hzero
    by (vm_compute; reflexivity).
  split; [exact Hzero|].
  rewrite (@zero_length_line_single_point Flat.turf 5 50 1 Flat.pointLine
             eq_refl Hzero ltac:(lia)).
  vm_compute. reflexivity.
Defined.

(** X8 on 120 positions, three batches. *)
Lemma getElevations_pointwise_witness :
  (forall i batch,
     Flat.latitudeService i batch = Json (Elevation ((fun w => Some (lat w)) <$> batch))) /\
  getElevations Flat.latitudeService (replicate 120 Flat.home)
  = Returned (replicate 120 (Some 0%Q)).
Proof.
  assert (forall i batch,
            Flat.latitudeService i batch
            = Json (Elevation ((fun w => Some (lat w)) <$> batch))) as Hservice
    by reflexivity.
  split; [exact Hservice|].
  rewrite (getElevations_pointwise Flat.latitudeService (fun w => Some (lat w))
             (replicate 120 Flat.home) Hservice).
  vm_compute. reflexivity.
Defined.

(** X9 on 120 positions and a service that is down. *)
Lemma getElevations_all_unknown_witness :
  (forall i batch elevation,
     Flat.down i batch = Json (Elevation elevation) -> length elevation ≠ length batch) /\
  getElevations Flat.down (replicate 120 Flat.home) = Returned (replicate 120 None).
Proof.
  assert (forall i batch elevation,
            Flat.down i batch = Json (Elevation elevation) ->
            length elevation ≠ length batch) as Hdown
    by (intros i batch elevation Habs; discriminate Habs).
  split; [exact Hdown|].
  exact (getElevations_all_unknown Flat.down (replicate 120 Flat.home) Hdown).
Defined.

(** X11 on the planned square. *)
Lemma terrain_fetch_idempotent_witness :
  handleFetchTerrainData Flat.positional Flat.planned = Some Flat.surveyed /\
  handleFetchTerrainData Flat.positional Flat.surveyed = Some Flat.surveyed.
Proof.
  assert (handleFetchTerrainData Flat.positional Flat.planned = Some Flat.surveyed)
    as Hfirst by (vm_compute; reflexivity).
  split; [exact Hfirst|].
  apply (terrain_fetch_idempotent Flat.positional Flat.planned Flat.surveyed);
    [|exact Hfirst].
  intros i batch batch' Hsame. unfold Flat.positional. rewrite Hsame. reflexivity.
Defined.

(** X12 on the planned square, keepStart = keepEnd = 1: two waypoints
    and two footprints of each of the three lines. *)
Lemma filtered_count_witness :
  canonical Flat.planned /\
  length (st_waypoints (filterEffect Flat.planned)) = 6.
Proof.
  split; [exact planned_canonical|].
  destruct (filtered_count Flat.planned planned_canonical eq_refl) as [-> _].
  vm_compute. reflexivity.
Defined.

Lemma plannedWide_canonical : canonical Flat.plannedWide.
Proof. right. split; [discriminate|]. eexists. split; reflexivity. Qed.

(** X14 on the planned square, keepStart = keepEnd = 2. *)
Lemma filter_keeps_short_lines_whole_witness :
  canonical Flat.plannedWide /\
  Forall (fun line => length line <= 4) (st_originalWaypoints Flat.plannedWide) /\
  st_waypoints (filterEffect Flat.plannedWide) = concat (waypoints Flat.squarePlan).
Proof.
  assert (Forall (fun line : list Waypoint => length line <= 4)
            (st_originalWaypoints Flat.plannedWide)) as Hshort
    by (repeat (constructor; [vm_compute; lia|]); constructor).
  split; [exact plannedWide_canonical|]. split; [exact Hshort|].
  exact (proj1 (filter_keeps_short_lines_whole Flat.plannedWide plannedWide_canonical
                  Hshort)).
Defined.

(** X16 on a plan of one waypoint. *)
Lemma stats_of_single_waypoint_witness :
  st_waypoints Flat.single = [Flat.home] /\
  exists s, st_stats (@statsEffect Flat.turf Flat.single) = Some s /\
            totalDistance s = "0.00"%string /\
            flightTime s = "00:00"%string /\
            photoCount s = 1.
Proof.
  split; [reflexivity|].
  apply (@stats_of_single_waypoint Flat.turf Flat.single Flat.home eq_refl).
  - discriminate.
  - vm_compute. discriminate.
Defined.

(** X19 on the generated plan of the square and a service that is
    down. *)
Lemma terrain_fetch_reports_success_witness :
  concat (st_originalWaypoints (app Flat.generated)) ≠ [] /\
  exists s',
    @onFetchTerrain Flat.turf Flat.down Flat.generated = Some s' /\
    logMessages s'
    = [{| lm_type := LogSuccess; lm_message := TerrainApplied |};
       {| lm_type := LogInfo; lm_message := FetchingTerrain 9 |};
       {| lm_type := LogSuccess; lm_message := PlanGenerated 9 |}].
Proof.
  assert (concat (st_originalWaypoints (app Flat.generated)) ≠ []) as Hplan
    by discriminate.
  split; [exact Hplan|].
  destruct (@terrain_fetch_reports_success Flat.turf Flat.down Flat.generated Hplan)
    as (s' & Hrun & _ & _ & _ & _ & Hlog).
  exists s'. split; [exact Hrun|]. rewrite Hlog. vm_compute. reflexivity.
Defined.

Lemma flat_degrees_pos (m : Q) :
  (0 < m)%Q -> (0 < @lengthToDegrees Flat.turf m)%Q.
Proof.
  intros Hm. change (0 < m / Flat.metersPerDegree)%Q.
  apply Qlt_shift_div_l; [reflexivity|]. by rewrite Qmult_0_l.
Qed.

(** X17 on the drawn square: with enough budget the handler completes and
    leaves an aligned plan. *)
Lemma generate_plan_installs_or_clears_witness :
  surveyArea Flat.drawn = Some [@PolygonFeature Flat.turf Flat.square] /\
  ~ (focalLength (st_cameraParams (app Flat.drawn)) == 0)%Q /\
  ~ (imageWidth (st_cameraParams (app Flat.drawn)) == 0)%Q /\
  exists N, forall fuel, N <= fuel ->
    exists s',
      @handleGeneratePlan Flat.turf Flat.union fuel Flat.drawn = Some s' /\
      isLoading s' = false /\ canonical (app s').
Proof.
  assert (~ (focalLength (st_cameraParams (app Flat.drawn)) == 0)%Q) as Hf
    by (vm_compute; discriminate).
  assert (~ (imageWidth (st_cameraParams (app Flat.drawn)) == 0)%Q) as Hw
    by (vm_compute; discriminate).
  split; [reflexivity|]. split; [exact Hf|]. split; [exact Hw|].
  destruct (@generate_plan_installs_or_clears Flat.turf Flat.union Flat.drawn
              [@PolygonFeature Flat.turf Flat.square] eq_refl
              ltac:(discriminate) Hf Hw (flat_degrees_pos _))
    as [N HN].
  exists N. intros fuel Hfuel.
  destruct (HN fuel Hfuel) as (s' & Hrun & Hloading & _ & _ & Hcanon & _).
  exists s'. split; [exact Hrun|]. split; [exact Hloading | exact Hcanon].
Defined.

(** X18 on a survey area that holds a marker only, and on the square with
    a front overlap of 100%. *)
Lemma generate_plan_failures_witness :
  surveyArea Flat.marked = Some [@OtherFeature Flat.turf] /\
  (logMessages <$> @handleGeneratePlan Flat.turf Flat.union 0 Flat.marked)
  = Some [{| lm_type := LogError; lm_message := NoValidPolygons |}] /\
  surveyArea Flat.drawnFullOverlap = Some [@PolygonFeature Flat.turf Flat.square] /\
  ~ (focalLength (st_cameraParams (app Flat.drawnFullOverlap)) == 0)%Q /\
  ~ (imageWidth (st_cameraParams (app Flat.drawnFullOverlap)) == 0)%Q /\
  (distanceAlongTrack (st_flightParams (app Flat.drawnFullOverlap))
     (st_cameraParams (app Flat.drawnFullOverlap)) <= 0)%Q /\
  (logMessages <$> @handleGeneratePlan Flat.turf Flat.union 0 Flat.drawnFullOverlap)
  = Some [{| lm_type := LogError; lm_message := InvalidParameters |}].
Proof.
  assert (~ (focalLength (st_cameraParams (app Flat.drawnFullOverlap)) == 0)%Q) as Hf
    by (vm_compute; discriminate).
  assert (~ (imageWidth (st_cameraParams (app Flat.drawnFullOverlap)) == 0)%Q) as Hw
    by (vm_compute; discriminate).
  assert (distanceAlongTrack (st_flightParams (app Flat.drawnFullOverlap))
            (st_cameraParams (app Flat.drawnFullOverlap)) <= 0)%Q as Hspacing
    by (vm_compute; discriminate).
  split; [reflexivity|]. split.
  { destruct (@generate_plan_failures Flat.turf Flat.union 0 Flat.marked
                [@OtherFeature Flat.turf] eq_refl ltac:(discriminate))
      as [Hmarker _].
    rewrite (Hmarker ltac:(repeat constructor)). reflexivity. }
  split; [reflexivity|]. split; [exact Hf|]. split; [exact Hw|].
  split; [exact Hspacing|].
  destruct (@generate_plan_failures Flat.turf Flat.union 0 Flat.drawnFullOverlap
              [@PolygonFeature Flat.turf Flat.square] eq_refl ltac:(discriminate))
    as [_ Hoverlap].
  rewrite (Hoverlap Flat.square eq_refl Hf Hw (or_intror Hspacing)). reflexivity.
Defined.

Lemma flown_reachable : @reachable Flat.turf Flat.union Flat.flown.
Proof.
  apply (@reachable_run Flat.turf Flat.union Flat.flownEvents
           (@initialSession Flat.turf Flat.flight Flat.camera Flat.noFilter)).
  - apply reachable_initial.
  - vm_compute. reflexivity.
Qed.

(** X20 on the component after drawing, planning and filtering. *)
Lemma reachable_consistent_witness :
  @reachable Flat.turf Flat.union Flat.flown /\
  length (st_waypoints (app Flat.flown)) = 6 /\
  filterEffect (app Flat.flown) = app Flat.flown /\
  @statsEffect Flat.turf (app Flat.flown) = app Flat.flown.
Proof.
  split; [exact flown_reachable|]. split; [vm_compute; reflexivity|].
  destruct (@reachable_consistent Flat.turf Flat.union Flat.flown flown_reachable)
    as (_ & Hfilter & Hstats & _).
  split; [exact Hfilter | exact Hstats].
Defined.


(** ** Further checks by evaluation *)

Example endsWith_ignores_case :
  endsWith (toLowerCase "Survey/AREA.SHP") ".shp" = true /\
  endsWith (toLowerCase "area.shp.bak") ".shp" = false /\
  endsWith "shp" ".shp" = false.
Proof. repeat split. Qed.

Example isWGS84_examples :
  isWGS84 "GEOGCS[GCS_WGS_1984,DATUM[D_WGS_1984]]" = true /\
  isWGS84 "PROJCS[NAD83 / UTM zone 10N,AUTHORITY[EPSG,26910]]" = false.
Proof. split; reflexivity. Qed.
